(** * Semantic memory: retrieval ranking and memory lifecycle

    A shallow embedding of the scoring functions (utils/hybrid-search.js and
    db/schema.sql), the input validators (utils/security.js), the store
    queries (db/queries.js run against db/schema.sql) and the tool handlers
    (tools/*.js), followed by the properties established about them.

    Conventions.
    - A float8 / JS number that is stored, compared or sorted is a rational
      ([Q]); the analytic statements about the score formula, which involve
      the exponential, are made over the reals ([R]).
    - Store timestamps (TIMESTAMPTZ) are integers counting microseconds; JS
      timestamps (Date.getTime) are integers counting milliseconds.
    - A JS string is a [string] whose characters are UTF-16 code units below
      256.
    - Asynchronous calls are sequenced in program order, and the clock
      stands still while a tool call runs. *)

From Stdlib Require Import ZArith QArith Qabs Qround Reals Psatz.
From Stdlib Require Import List String Ascii Bool Permutation Sorted.
From Stdlib Require Import DecimalString DecimalPos.
Import ListNotations.

Set Warnings "-register-all,-abstract-large-number".

(* ================================================================== *)
(** * Part I: the model *)
(* ================================================================== *)

(** ** Configuration (config.js) *)

Record Config := {
  embeddingDimension : nat;
  semanticWeight : Q;
  recencyWeight : Q;
  defaultImportance : Q;
  recencyDecayDays : Z
}.

(** The values taken when no environment variable overrides them. *)
Definition default_config : Config := {|
  embeddingDimension := 768;
  semanticWeight := 8 # 10;
  recencyWeight := 2 # 10;
  defaultImportance := 5 # 10;
  recencyDecayDays := 30
|}.

(** JS [a ?? b], and a parameter left to its default. *)
Definition nullish {A : Type} (a : option A) (b : A) : A :=
  match a with Some x => x | None => b end.

(** ** Scoring over the reals (utils/hybrid-search.js, db/schema.sql) *)

Module Scoring.

Local Open Scope R_scope.

(** The [options] object of [calculateHybridScore]: each field may be
    absent. *)
Record Options := {
  opt_semanticWeight : option R;
  opt_recencyWeight : option R;
  opt_decayDays : option R
}.

Definition no_options : Options :=
  {| opt_semanticWeight := None; opt_recencyWeight := None; opt_decayDays := None |}.

(** [(now - accessTime) / (1000 * 60 * 60 * 24)], timestamps in
    milliseconds. *)
Definition daysSinceAccess (now accessTime : Z) : R :=
  IZR (now - accessTime) / (1000 * 60 * 60 * 24).

(** hybrid-search.js, [calculateRecencyScore]; [now] is [Date.now()], and
    [decayDays] is [None] when the argument is left out. *)
Definition calculateRecencyScore (cfg : Config) (now lastAccessed : Z)
    (decayDays : option R) : R :=
  let decayDays := nullish decayDays (IZR (recencyDecayDays cfg)) in
  exp (- daysSinceAccess now lastAccessed / decayDays).

(** hybrid-search.js, [calculateHybridScore]. [importance] is [None] when
    the argument is left out. *)
Definition calculateHybridScore (cfg : Config) (now : Z)
    (semanticSimilarity : R) (lastAccessed : Z) (importance : option R)
    (options : Options) : R :=
  let importance := nullish importance (Q2R (defaultImportance cfg)) in
  let semanticWeight := nullish (opt_semanticWeight options) (Q2R (semanticWeight cfg)) in
  let recencyWeight := nullish (opt_recencyWeight options) (Q2R (recencyWeight cfg)) in
  let decayDays := nullish (opt_decayDays options) (IZR (recencyDecayDays cfg)) in
  let recencyScore := calculateRecencyScore cfg now lastAccessed (Some decayDays) in
  let baseScore := (semanticWeight * semanticSimilarity) + (recencyWeight * recencyScore) in
  let importanceMultiplier := / 2 + importance in
  baseScore * importanceMultiplier.

(** [EXTRACT(EPOCH FROM (NOW() - last_accessed))]: the interval in seconds,
    timestamps in microseconds. *)
Definition EXTRACT_EPOCH (now last_accessed : Z) : R :=
  IZR (now - last_accessed) / 1000000.

(** schema.sql, [calculate_recency_score]; [decay_days] is [None] when the
    argument is left to its DEFAULT 30. *)
Definition calculate_recency_score (now last_accessed : Z) (decay_days : option Z) : R :=
  let decay_days := nullish decay_days 30%Z in
  let days_since_access := EXTRACT_EPOCH now last_accessed / 86400 in
  exp (- days_since_access / IZR decay_days).

(** schema.sql, [calculate_hybrid_score]; the weights default to 0.8 and
    0.2, [decay_days] to 30. *)
Definition calculate_hybrid_score (now : Z) (semantic_similarity : R)
    (last_accessed : Z) (importance : R)
    (semantic_weight recency_weight : option R) (decay_days : option Z) : R :=
  let semantic_weight := nullish semantic_weight (8 / 10) in
  let recency_weight := nullish recency_weight (2 / 10) in
  let decay_days := nullish decay_days 30%Z in
  let recency_score := calculate_recency_score now last_accessed (Some decay_days) in
  let base_score := (semantic_weight * semantic_similarity) + (recency_weight * recency_score) in
  base_score * (/ 2 + importance).


(** Days elapsed between two store timestamps. *)
Definition days_elapsed (now t : Z) : R := IZR (now - t) / 1000000 / 86400.



End Scoring.

(** ** JavaScript values and strings *)

(** The values a tool parameter can hold. [JNumber z] is an integer-valued
    number below 10^21 in magnitude, which [ToString] prints in plain
    decimal digits. *)
Inductive JsValue : Type :=
| JUndefined
| JNull
| JBool (b : bool)
| JNumber (z : Z)
| JString (s : string)
| JArray (l : list JsValue).

(** A thrown [Error(message)] or a returned value. *)
Inductive result (A : Type) : Type :=
| Ok (a : A)
| Err (message : string).

Arguments Ok {A} a.
Arguments Err {A} message.

Definition result_bind {A B : Type} (r : result A) (f : A -> result B) : result B :=
  match r with
  | Ok a => f a
  | Err m => Err m
  end.

Definition is_ok {A : Type} (r : result A) : bool :=
  match r with Ok _ => true | Err _ => false end.

Module Js.

Local Open Scope string_scope.

Definition code (c : ascii) : nat := nat_of_ascii c.

(** WhiteSpace and LineTerminator code units below 256: TAB, LF, VT, FF, CR,
    SP and NBSP. *)
Definition isWhiteSpace (c : ascii) : bool :=
  let n := code c in
  ((9 <=? n)%nat && (n <=? 13)%nat) || (n =? 32)%nat || (n =? 160)%nat.

Fixpoint dropWhile {A : Type} (p : A -> bool) (l : list A) : list A :=
  match l with
  | [] => []
  | x :: l' => if p x then dropWhile p l' else l
  end.

Definition trimStart (s : string) : string :=
  string_of_list_ascii (dropWhile isWhiteSpace (list_ascii_of_string s)).

(** [String.prototype.trim]. *)
Definition trim (s : string) : string :=
  string_of_list_ascii
    (rev (dropWhile isWhiteSpace (rev (dropWhile isWhiteSpace (list_ascii_of_string s))))).

(** [String.prototype.toLowerCase] on code units below 256. *)
Definition lowerChar (c : ascii) : ascii :=
  let n := code c in
  if ((65 <=? n)%nat && (n <=? 90)%nat)
     || ((192 <=? n)%nat && (n <=? 222)%nat && negb (n =? 215)%nat)
  then ascii_of_nat (n + 32) else c.

Definition toLowerCase (s : string) : string :=
  string_of_list_ascii (map lowerChar (list_ascii_of_string s)).

(** [s.slice(0, n)]. *)
Definition slice0 (n : nat) (s : string) : string := substring 0 n s.

(** [Buffer.byteLength(s, 'utf8')]: one byte below 128, two bytes from 128
    to 255. *)
Definition byteLength (s : string) : nat :=
  fold_right (fun c acc => ((if (code c <? 128)%nat then 1 else 2) + acc)%nat) 0%nat
    (list_ascii_of_string s).

Definition string_of_nat (n : nat) : string :=
  DecimalString.NilZero.string_of_uint (Nat.to_uint n).

Definition string_of_Z (z : Z) : string :=
  DecimalString.NilZero.string_of_int (Z.to_int z).

Fixpoint join (sep : string) (l : list string) : string :=
  match l with
  | [] => ""
  | [x] => x
  | x :: l' => x ++ sep ++ join sep l'
  end.

(** The abstract operation ToString on the modelled values; an array prints
    its elements separated by commas, [undefined] and [null] elements as the
    empty string. *)
Fixpoint ToString (v : JsValue) : string :=
  match v with
  | JUndefined => "undefined"
  | JNull => "null"
  | JBool true => "true"
  | JBool false => "false"
  | JNumber z => string_of_Z z
  | JString s => s
  | JArray l =>
      join ","
        (map (fun x => match x with
                       | JUndefined | JNull => ""
                       | _ => ToString x
                       end) l)
  end.

(** JS truthiness (ToBoolean). *)
Definition truthy (v : JsValue) : bool :=
  match v with
  | JUndefined | JNull => false
  | JBool b => b
  | JNumber z => negb (z =? 0)%Z
  | JString s => negb (String.length s =? 0)%nat
  | JArray _ => true
  end.

Definition isDigit (c : ascii) : bool :=
  ((48 <=? code c)%nat && (code c <=? 57)%nat).

Fixpoint takeWhile {A : Type} (p : A -> bool) (l : list A) : list A :=
  match l with
  | [] => []
  | x :: l' => if p x then x :: takeWhile p l' else []
  end.

Definition digitsValue (ds : list ascii) : Z :=
  fold_left (fun acc c => (10 * acc + Z.of_nat (code c - 48))%Z) ds 0%Z.

(** The integer read off the front of a text in radix 10: leading white
    space is skipped, then an optional sign and the longest run of decimal
    digits are read; [None] (NaN) when there is no digit. *)
Definition parseDecimal (s : list ascii) : option Z :=
  let s := dropWhile isWhiteSpace s in
  let '(negative, rest) :=
    match s with
    | c :: s' =>
        if (code c =? 45)%nat then (true, s')
        else if (code c =? 43)%nat then (false, s')
        else (false, s)
    | [] => (false, s)
    end in
  match takeWhile isDigit rest with
  | [] => None
  | ds => Some (if negative then (- digitsValue ds)%Z else digitsValue ds)
  end.

(** [parseInt(v, 10)]: ToString, then the integer read off its front. The
    result is the integer the digits denote: its rounding to a double beyond
    2^53 is not observable by callers that only compare it with small
    bounds. *)
Definition parseInt (v : JsValue) : option Z :=
  parseDecimal (list_ascii_of_string (ToString v)).

(** [Number.prototype.toFixed(4)] read back by [parseFloat]: the decimal with
    four fractional digits nearest to the magnitude, the larger one on a tie,
    with the sign restored. *)
Definition toFixed4 (q : Q) : Q :=
  let n := Qfloor (Qabs q * 10000 + (1 # 2)) in
  if Qle_bool 0 q then inject_Z n / 10000 else - (inject_Z n / 10000).

(** The value of a digit of radix 16. *)
Definition hexValue (c : ascii) : option Z :=
  let n := code c in
  if isDigit c then Some (Z.of_nat (n - 48))
  else if ((97 <=? n)%nat && (n <=? 102)%nat) then Some (Z.of_nat (n - 87))
  else if ((65 <=? n)%nat && (n <=? 70)%nat) then Some (Z.of_nat (n - 55))
  else None.

Definition isHexDigit (c : ascii) : bool :=
  match hexValue c with Some _ => true | None => false end.

Definition hexDigitsValue (ds : list ascii) : Z :=
  fold_left (fun acc c => (16 * acc + match hexValue c with Some d => d | None => 0 end)%Z)
    ds 0%Z.

(** [parseInt(v)] with no radix: as [parseInt(v, 10)], except that after the
    sign a prefix [0x] or [0X] is dropped and the digits are read in radix
    16. *)
Definition parseIntNoRadix (v : JsValue) : option Z :=
  let s := dropWhile isWhiteSpace (list_ascii_of_string (ToString v)) in
  let '(negative, rest) :=
    match s with
    | c :: s' =>
        if (code c =? 45)%nat then (true, s')
        else if (code c =? 43)%nat then (false, s')
        else (false, s)
    | [] => (false, s)
    end in
  let signed := fun z : Z => if negative then (- z)%Z else z in
  let decimal :=
    match takeWhile isDigit rest with
    | [] => None
    | ds => Some (signed (digitsValue ds))
    end in
  match rest with
  | c0 :: x :: rest' =>
      if (code c0 =? 48)%nat && ((code x =? 120)%nat || (code x =? 88)%nat) then
        match takeWhile isHexDigit rest' with
        | [] => None
        | ds => Some (signed (hexDigitsValue ds))
        end
      else decimal
  | _ => decimal
  end.

End Js.

(** ** Input validation (utils/security.js) *)

Module Security.

Import Js.
Local Open Scope string_scope.

Definition MAX_CONTENT_SIZE : nat := 10 * 1024.
Definition MAX_TAGS : nat := 20.
Definition MAX_TAG_LENGTH : nat := 100.

(** The class [[\x00-\x08\x0B\x0C\x0E-\x1F\x7F]]. *)
Definition isControl (c : ascii) : bool :=
  let n := code c in
  (n <=? 8)%nat || (n =? 11)%nat || (n =? 12)%nat
  || ((14 <=? n)%nat && (n <=? 31)%nat) || (n =? 127)%nat.

Definition removeControl (s : string) : string :=
  string_of_list_ascii (filter (fun c => negb (isControl c)) (list_ascii_of_string s)).

(** [sanitizeContent(content, maxBytes)]. *)
Definition sanitizeContent (content : JsValue) (maxBytes : nat) : result string :=
  match content with
  | JString content =>
      let trimmed := trim content in
      if (String.length trimmed =? 0)%nat then Err "Content cannot be empty"
      else
        let byteLength := byteLength trimmed in
        if (maxBytes <? byteLength)%nat then
          Err ("Content exceeds maximum size of " ++ string_of_nat maxBytes
               ++ " bytes (got " ++ string_of_nat byteLength ++ ")")
        else Ok (removeControl trimmed)
  | _ => Err "Content must be a string"
  end.

(** The class [[a-z0-9_-]]. *)
Definition isTagChar (c : ascii) : bool :=
  let n := code c in
  ((97 <=? n)%nat && (n <=? 122)%nat) || ((48 <=? n)%nat && (n <=? 57)%nat)
  || (n =? 95)%nat || (n =? 45)%nat.

(** The callback of [tags.map] in [validateTags]. *)
Definition validateTag (index : nat) (tag : JsValue) : result string :=
  let at_index := "Tag at index " ++ string_of_nat index in
  match tag with
  | JString tag =>
      let sanitized := toLowerCase (trim tag) in
      if (String.length sanitized =? 0)%nat then Err (at_index ++ " cannot be empty")
      else if (MAX_TAG_LENGTH <? String.length sanitized)%nat then
        Err (at_index ++ " exceeds maximum length of " ++ string_of_nat MAX_TAG_LENGTH)
      else if negb (forallb isTagChar (list_ascii_of_string sanitized)) then
        Err (at_index ++ " contains invalid characters (use only a-z, 0-9, -, _)")
      else Ok sanitized
  | _ => Err (at_index ++ " must be a string")
  end.

Fixpoint validateTagsFrom (index : nat) (tags : list JsValue) : result (list string) :=
  match tags with
  | [] => Ok []
  | tag :: rest =>
      result_bind (validateTag index tag) (fun t =>
      result_bind (validateTagsFrom (S index) rest) (fun ts => Ok (t :: ts)))
  end.

(** [validateTags(tags)]. *)
Definition validateTags (tags : JsValue) : result (list string) :=
  match tags with
  | JUndefined | JNull => Ok []
  | JArray tags =>
      if (MAX_TAGS <? List.length tags)%nat then
        Err ("Maximum " ++ string_of_nat MAX_TAGS ++ " tags allowed")
      else validateTagsFrom 0 tags
  | _ => Err "Tags must be an array"
  end.

(** [validateImportance(importance)] on an absent value or a finite
    number. *)
Definition validateImportance (importance : option Q) : result Q :=
  match importance with
  | None => Ok (5 # 10)
  | Some num =>
      if negb (Qle_bool 0 num) || negb (Qle_bool num 1) then
        Err "Importance must be between 0 and 1"
      else Ok num
  end.

Inductive UuidClass := Hex | Dash | Version | Variant.

Definition isHex (c : ascii) : bool :=
  let n := code c in
  ((48 <=? n)%nat && (n <=? 57)%nat) || ((97 <=? n)%nat && (n <=? 102)%nat)
  || ((65 <=? n)%nat && (n <=? 70)%nat).

Definition inClass (k : UuidClass) (c : ascii) : bool :=
  let n := code c in
  match k with
  | Hex => isHex c
  | Dash => (n =? 45)%nat
  | Version => (49 <=? n)%nat && (n <=? 53)%nat
  | Variant => (n =? 56)%nat || (n =? 57)%nat || (n =? 97)%nat || (n =? 98)%nat
               || (n =? 65)%nat || (n =? 66)%nat
  end.

(** The shape of [uuidRegex], one class per character. *)
Definition uuidShape : list UuidClass :=
  repeat Hex 8 ++ [Dash] ++ repeat Hex 4 ++ [Dash] ++ [Version] ++ repeat Hex 3
  ++ [Dash] ++ [Variant] ++ repeat Hex 3 ++ [Dash] ++ repeat Hex 12.

Fixpoint matchShape (shape : list UuidClass) (s : list ascii) : bool :=
  match shape, s with
  | [], [] => true
  | k :: shape', c :: s' => inClass k c && matchShape shape' s'
  | _, _ => false
  end.

(** [validateUUID(id)]. *)
Definition validateUUID (id : JsValue) : result string :=
  match id with
  | JString id =>
      if matchShape uuidShape (list_ascii_of_string id) then Ok (toLowerCase id)
      else Err "Invalid UUID format"
  | _ => Err "ID must be a string"
  end.

(** [validateQuery(query)]. *)
Definition validateQuery (query : JsValue) : result string :=
  match query with
  | JString query =>
      let trimmed := trim query in
      if (String.length trimmed =? 0)%nat then Err "Query cannot be empty"
      else if (10000 <? String.length trimmed)%nat then
        Err "Query exceeds maximum length of 10000 characters"
      else Ok trimmed
  | _ => Err "Query must be a string"
  end.

(** [validateLimit(limit, max)]. *)
Definition validateLimit (limit : JsValue) (max : Z) : result Z :=
  match limit with
  | JUndefined | JNull => Ok 10%Z
  | _ =>
      match parseInt limit with
      | None => Err "Limit must be a positive integer"
      | Some num =>
          if (num <? 1)%Z then Err "Limit must be a positive integer"
          else Ok (Z.min num max)
      end
  end.

End Security.

(** ** The store (db/schema.sql) *)

Definition Metadata : Type := list (string * string).

(** A row of [memories]. *)
Record Memory := {
  id : string;
  content : string;
  summary : option string;
  embedding : list Q;
  metadata : Metadata;
  tags : list string;
  source : option string;
  importance : Q;
  access_count : Z;
  reinforcement_count : Z;
  created_at : Z;
  last_accessed : Z;
  last_reinforced : option Z;
  expires_at : option Z;
  deleted_at : option Z
}.

(** A row of [memory_relations]. *)
Record Relation := {
  source_memory_id : string;
  target_memory_id : string;
  relation_type : string;
  strength : Q;
  relation_metadata : Metadata;
  relation_created_at : Z
}.

(** A row of [memory_access_log]. *)
Record AccessEvent := {
  memory_id : string;
  access_type : string;
  query_text : option string;
  similarity_score : option Q;
  accessed_at : Z
}.

(** What lies outside the program: pgvector's cosine distance [<=>], the
    store's float8 [EXP], the embedding service, [uuid_generate_v4] (indexed
    by the draws made so far) and, since no property below depends on it,
    [validateMetadata] of utils/security.js. *)
Class Externals := {
  cosine_distance : list Q -> list Q -> Q;
  float_exp : Q -> Q;
  embedding_provider : string -> result (list Q);
  uuid_generate_v4 : nat -> string;
  validateMetadata : JsValue -> result Metadata
}.

(** The state a tool call runs in: the three tables, the clock read by
    [NOW()], the number of identifiers drawn, the lines written by
    [console.warn] and [console.error], and the number of statements sent
    through [query] of db/pool.js. *)
Record World := {
  memories : list Memory;
  memory_relations : list Relation;
  memory_access_log : list AccessEvent;
  NOW : Z;
  uuid_draws : nat;
  console : list string;
  statements : nat
}.

(** A computation that may throw and may change the world; what it changed
    before throwing stays changed. *)
Definition M (A : Type) : Type := World -> result A * World.

Definition ret {A : Type} (a : A) : M A := fun w => (Ok a, w).

Definition throw {A : Type} (message : string) : M A := fun w => (Err message, w).

Definition bind {A B : Type} (m : M A) (f : A -> M B) : M B :=
  fun w =>
    match m w with
    | (Ok a, w') => f a w'
    | (Err e, w') => (Err e, w')
    end.

Definition lift {A : Type} (r : result A) : M A := fun w => (r, w).

Declare Scope M_scope.
Delimit Scope M_scope with M.
Notation "x <- m ;; k" := (bind m (fun x => k))
  (at level 61, m at next level, right associativity) : M_scope.
Notation "m ;;; k" := (bind m (fun _ => k))
  (at level 61, right associativity) : M_scope.

Definition set_memories (ms : list Memory) (w : World) : World :=
  {| memories := ms; memory_relations := memory_relations w;
     memory_access_log := memory_access_log w; NOW := NOW w;
     uuid_draws := uuid_draws w; console := console w; statements := statements w |}.

Definition set_memory_relations (rs : list Relation) (w : World) : World :=
  {| memories := memories w; memory_relations := rs;
     memory_access_log := memory_access_log w; NOW := NOW w;
     uuid_draws := uuid_draws w; console := console w; statements := statements w |}.

Definition set_memory_access_log (l : list AccessEvent) (w : World) : World :=
  {| memories := memories w; memory_relations := memory_relations w;
     memory_access_log := l; NOW := NOW w;
     uuid_draws := uuid_draws w; console := console w; statements := statements w |}.

Definition set_uuid_draws (n : nat) (w : World) : World :=
  {| memories := memories w; memory_relations := memory_relations w;
     memory_access_log := memory_access_log w; NOW := NOW w;
     uuid_draws := n; console := console w; statements := statements w |}.

(** [console.warn] / [console.error]. *)
Definition console_log (line : string) : M unit :=
  fun w =>
    (Ok tt,
     {| memories := memories w; memory_relations := memory_relations w;
        memory_access_log := memory_access_log w; NOW := NOW w;
        uuid_draws := uuid_draws w; console := console w ++ [line];
        statements := statements w |}).

(** db/pool.js, [query]: one statement sent to the store. *)
Definition query {A : Type} (statement : M A) : M A :=
  fun w =>
    statement
      {| memories := memories w; memory_relations := memory_relations w;
         memory_access_log := memory_access_log w; NOW := NOW w;
         uuid_draws := uuid_draws w; console := console w;
         statements := S (statements w) |}.

(** *** Expressions of the schema *)

Definition LEAST (a b : Q) : Q := if Qle_bool a b then a else b.
Definition GREATEST (a b : Q) : Q := if Qle_bool a b then b else a.

(** SQL [trim(s)]: spaces removed at both ends. *)
Definition sql_trim (s : string) : string :=
  let isSpace := fun c => (nat_of_ascii c =? 32)%nat in
  string_of_list_ascii
    (rev (Js.dropWhile isSpace (rev (Js.dropWhile isSpace (list_ascii_of_string s))))).

(** CONSTRAINT content_not_empty CHECK (length(trim(content)) > 0). *)
Definition content_not_empty (content : string) : bool :=
  (0 <? String.length (sql_trim content))%nat.

(** CHECK (importance >= 0 AND importance <= 1). *)
Definition importance_check (importance : Q) : bool :=
  Qle_bool 0 importance && Qle_bool importance 1.

(** CHECK (strength >= 0 AND strength <= 1). *)
Definition strength_check (strength : Q) : bool :=
  Qle_bool 0 strength && Qle_bool strength 1.

(** The dimension of the column [embedding vector(768)]. *)
Definition EMBEDDING_COLUMN_DIMENSION : nat := 768.

(** [a && b] on text arrays: some element in common. *)
Definition overlap (a b : list string) : bool :=
  existsb (fun x => existsb (String.eqb x) b) a.

Definition IS_NULL {A : Type} (x : option A) : bool :=
  match x with None => true | Some _ => false end.

(** Stable sort, greatest key first: the order of [ORDER BY key DESC], with
    rows of equal key kept in the order of the input, and of
    [Array.prototype.sort] with the comparator [(a, b) => key(b) - key(a)]. *)
Fixpoint insert_desc {A : Type} (key : A -> Q) (x : A) (l : list A) : list A :=
  match l with
  | [] => [x]
  | y :: l' =>
      if Qle_bool (key y) (key x) then x :: l
      else y :: insert_desc key x l'
  end.

Fixpoint sort_desc {A : Type} (key : A -> Q) (l : list A) : list A :=
  match l with
  | [] => []
  | x :: l' => insert_desc key x (sort_desc key l')
  end.

(** [LIMIT n]; a negative count is refused by the store. *)
Definition LIMIT {A : Type} (n : Z) (rows : list A) : result (list A) :=
  if (n <? 0)%Z then Err "LIMIT must not be negative"
  else Ok (firstn (Z.to_nat n) rows).

(** schema.sql, [calculate_recency_score] and [calculate_hybrid_score], on
    float8 values; timestamps in microseconds. *)
Definition calculate_recency_score `{Externals} (now last_accessed : Z) (decay_days : Z) : Q :=
  let days_since_access := inject_Z (now - last_accessed) / 1000000 / 86400 in
  float_exp (- days_since_access / inject_Z decay_days).

Definition calculate_hybrid_score `{Externals} (now : Z) (semantic_similarity : Q)
    (last_accessed : Z) (importance : Q) (semantic_weight recency_weight : Q)
    (decay_days : Z) : Q :=
  let recency_score := calculate_recency_score now last_accessed decay_days in
  let base_score := (semantic_weight * semantic_similarity) + (recency_weight * recency_score) in
  base_score * ((5 # 10) + importance).

(** *** Statements *)

Definition has_id (i : string) (m : Memory) : bool := String.eqb (id m) i.

Definition find_memory (i : string) (w : World) : option Memory :=
  find (has_id i) (memories w).

(** [UPDATE memories SET ... WHERE ... RETURNING ...]: every row satisfying
    [where_] is replaced by [set] of it; the statement is refused, and
    nothing is changed, when a new row violates the CHECK on [importance].
    The rows returned are the new ones. *)
Definition UPDATE_memories (where_ : Memory -> bool) (set : Memory -> Memory) : M (list Memory) :=
  fun w =>
    let updated := map set (filter where_ (memories w)) in
    if forallb (fun m => importance_check (importance m)) updated then
      (Ok updated,
       set_memories (map (fun m => if where_ m then set m else m) (memories w)) w)
    else (Err "new row for relation memories violates check constraint memories_importance_check", w).

(** [DELETE FROM memories WHERE ... RETURNING id], with the cascade to
    [memory_relations] and [memory_access_log]. *)
Definition DELETE_FROM_memories (where_ : Memory -> bool) : M (list Memory) :=
  fun w =>
    let deleted := filter where_ (memories w) in
    let gone := fun i => existsb (has_id i) deleted in
    (Ok deleted,
     set_memory_access_log
       (filter (fun e => negb (gone (memory_id e))) (memory_access_log w))
       (set_memory_relations
          (filter (fun r => negb (gone (source_memory_id r)) && negb (gone (target_memory_id r)))
             (memory_relations w))
          (set_memories (filter (fun m => negb (where_ m)) (memories w)) w))).

(** [INSERT INTO memories (content, embedding, summary, tags, importance,
    metadata, source) VALUES (...) RETURNING ...]: the remaining columns take
    their defaults. *)
Definition INSERT_INTO_memories `{Externals} (content_ : string) (embedding_ : list Q)
    (summary_ : option string) (tags_ : list string) (importance_ : Q)
    (metadata_ : Metadata) (source_ : option string) : M Memory :=
  fun w =>
    if negb (List.length embedding_ =? EMBEDDING_COLUMN_DIMENSION)%nat then
      (Err ("expected " ++ Js.string_of_nat EMBEDDING_COLUMN_DIMENSION ++ " dimensions, not "
            ++ Js.string_of_nat (List.length embedding_)), w)
    else
      let new_id := uuid_generate_v4 (uuid_draws w) in
      let w := set_uuid_draws (S (uuid_draws w)) w in
      if negb (content_not_empty content_) then
        (Err "new row for relation memories violates check constraint content_not_empty", w)
      else if negb (importance_check importance_) then
        (Err "new row for relation memories violates check constraint memories_importance_check", w)
      else if existsb (has_id new_id) (memories w) then
        (Err "duplicate key value violates unique constraint memories_pkey", w)
      else
        let row := {|
          id := new_id; content := content_; summary := summary_;
          embedding := embedding_; metadata := metadata_; tags := tags_;
          source := source_; importance := importance_;
          access_count := 0; reinforcement_count := 0;
          created_at := NOW w; last_accessed := NOW w;
          last_reinforced := None; expires_at := None; deleted_at := None |} in
        (Ok row, set_memories (memories w ++ [row]) w).

(** schema.sql, [update_memory_access], run by [memory_access_trigger] after
    each row inserted into [memory_access_log]. *)
Definition update_memory_access (NEW : AccessEvent) (w : World) : World :=
  set_memories
    (map (fun m =>
            if has_id (memory_id NEW) m then
              {| id := id m; content := content m; summary := summary m;
                 embedding := embedding m; metadata := metadata m; tags := tags m;
                 source := source m; importance := importance m;
                 access_count := access_count m + 1;
                 reinforcement_count := reinforcement_count m;
                 created_at := created_at m; last_accessed := NOW w;
                 last_reinforced := last_reinforced m; expires_at := expires_at m;
                 deleted_at := deleted_at m |}
            else m)
       (memories w)) w.

(** A value position of a VALUES row: a parameter [$k], a text literal or
    NULL. *)
Inductive SqlExpr :=
| Placeholder (k : nat)
| Literal (s : string)
| NULL.

(** The value of an expression under the parameters bound to the statement;
    [None] when it names a parameter that was not supplied. A parameter is a
    text or null. *)
Definition eval_expr (params : list (option string)) (e : SqlExpr) : option (option string) :=
  match e with
  | Placeholder 0 => None
  | Placeholder (S k) => nth_error params k
  | Literal s => Some (Some s)
  | NULL => Some None
  end.

(** One row of [INSERT INTO memory_access_log (memory_id, access_type,
    query_text, similarity_score) VALUES ...], evaluated: [memory_id] and
    [access_type] are NOT NULL, [memory_id] references [memories], and
    [similarity_score] is NULL in every statement of the program. *)
Definition access_row (w : World) (params : list (option string))
    (row : SqlExpr * SqlExpr * SqlExpr * SqlExpr) : option AccessEvent :=
  let '(e_memory_id, e_access_type, e_query_text, _) := row in
  match eval_expr params e_memory_id, eval_expr params e_access_type,
        eval_expr params e_query_text with
  | Some (Some mid), Some (Some ty), Some q =>
      if existsb (has_id mid) (memories w) then
        Some {| memory_id := mid; access_type := ty; query_text := q;
                similarity_score := None; accessed_at := NOW w |}
      else None
  | _, _, _ => None
  end.

Fixpoint all_some {A : Type} (l : list (option A)) : option (list A) :=
  match l with
  | [] => Some []
  | None :: _ => None
  | Some x :: l' =>
      match all_some l' with
      | Some xs => Some (x :: xs)
      | None => None
      end
  end.

(** [INSERT INTO memory_access_log ... VALUES rows] with [params] bound:
    refused as a whole, changing nothing, unless every row evaluates; each
    inserted row fires the trigger. (The store refuses more than this model
    does: it also wants every parameter number below the highest one to be
    used.) *)
Definition INSERT_INTO_memory_access_log
    (rows : list (SqlExpr * SqlExpr * SqlExpr * SqlExpr))
    (params : list (option string)) : M unit :=
  fun w =>
    match all_some (map (access_row w params) rows) with
    | Some events =>
        (Ok tt,
         fold_left (fun w' e => update_memory_access e w') events
           (set_memory_access_log (memory_access_log w ++ events) w))
    | None => (Err "INSERT INTO memory_access_log refused", w)
    end.

(** ** Queries (db/queries.js) *)

(** JS [s || null] on an optional string: the empty string is falsy. *)
Definition or_null (s : option string) : option string :=
  match s with
  | Some s => if (String.length s =? 0)%nat then None else Some s
  | None => None
  end.

(** A row returned by [MemoryQueries.search]. *)
Record SearchRow := {
  row : Memory;
  semantic_score : Q;
  recency_score : Q;
  hybrid_score : Q
}.

(** A condition pushed on [whereConditions]. *)
Inductive Condition :=
| deleted_at_IS_NULL
| tags_overlap (tagFilter : list string)
| source_equals (sourceFilter : string).

Definition holds (c : Condition) (m : Memory) : bool :=
  match c with
  | deleted_at_IS_NULL => IS_NULL (deleted_at m)
  | tags_overlap tagFilter => overlap (tags m) tagFilter
  | source_equals sourceFilter =>
      match source m with
      | Some s => String.eqb s sourceFilter
      | None => false
      end
  end.

(** [whereConditions.join(' AND ')]. *)
Definition WHERE (conditions : list Condition) (m : Memory) : bool :=
  forallb (fun c => holds c m) conditions.

Module MemoryQueries.

Record CreateArgs := {
  c_content : string;
  c_embedding : list Q;
  c_summary : option string;
  c_tags : option (list string);
  c_importance : option Q;
  c_metadata : option Metadata;
  c_source : option string
}.

(** [MemoryQueries.create]. *)
Definition create `{Externals} (cfg : Config) (a : CreateArgs) : M Memory :=
  query
    (INSERT_INTO_memories
       (c_content a)
       (c_embedding a)
       (or_null (c_summary a))
       (nullish (c_tags a) [])
       (nullish (c_importance a) (defaultImportance cfg))
       (nullish (c_metadata a) [])
       (or_null (c_source a))).

Record SearchArgs := {
  s_embedding : list Q;
  s_limit : option Z;
  s_minScore : option Q;
  s_tags : option (list string);
  s_source : option string
}.

(** The conditions [MemoryQueries.search] collects. *)
Definition whereConditions (a : SearchArgs) : list Condition :=
  [deleted_at_IS_NULL]
  ++ match s_tags a with
     | Some tagFilter =>
         if (0 <? List.length tagFilter)%nat then [tags_overlap tagFilter] else []
     | None => []
     end
  ++ match or_null (s_source a) with
     | Some sourceFilter => [source_equals sourceFilter]
     | None => []
     end.

(** The SELECT list of [MemoryQueries.search] on one row. *)
Definition scored `{Externals} (cfg : Config) (now : Z) (queryEmbedding : list Q)
    (m : Memory) : SearchRow :=
  let similarity := 1 - cosine_distance (embedding m) queryEmbedding in
  {| row := m;
     semantic_score := similarity;
     recency_score := calculate_recency_score now (last_accessed m) (recencyDecayDays cfg);
     hybrid_score :=
       calculate_hybrid_score now similarity (last_accessed m) (importance m)
         (semanticWeight cfg) (recencyWeight cfg) (recencyDecayDays cfg) |}.

(** [MemoryQueries.search]. *)
Definition search `{Externals} (cfg : Config) (a : SearchArgs) : M (list SearchRow) :=
  let limit := nullish (s_limit a) 10%Z in
  let minScore := nullish (s_minScore a) (3 # 10) in
  (rows <- query (fun w =>
     (LIMIT limit
        (sort_desc hybrid_score
           (map (scored cfg (NOW w) (s_embedding a))
              (filter (WHERE (whereConditions a)) (memories w)))), w)) ;;
   ret (filter (fun r => Qle_bool minScore (hybrid_score r)) rows))%M.

(** [MemoryQueries.getById]. *)
Definition getById (i : string) : M (option Memory) :=
  query (fun w =>
    (Ok (find (fun m => has_id i m && IS_NULL (deleted_at m)) (memories w)), w)).

(** [MemoryQueries.batchUpdateAccess]. *)
Definition batchUpdateAccess (ids : list string) (queryText : option string) : M unit :=
  if (List.length ids =? 0)%nat then ret tt
  else
    let values :=
      map (fun i => (Placeholder (i * 2 + 1), Literal "search",
                     Placeholder (List.length ids * 2 + 1), NULL))
        (seq 0 (List.length ids)) in
    let params := map Some ids ++ [queryText] in
    query (INSERT_INTO_memory_access_log values params).

Definition reinforced (importanceDelta : Q) (now : Z) (m : Memory) : Memory :=
  {| id := id m; content := content m; summary := summary m;
     embedding := embedding m; metadata := metadata m; tags := tags m;
     source := source m;
     importance := LEAST (importance m + importanceDelta) 1;
     access_count := access_count m;
     reinforcement_count := reinforcement_count m + 1;
     created_at := created_at m; last_accessed := now;
     last_reinforced := Some now; expires_at := expires_at m;
     deleted_at := deleted_at m |}.

(** [MemoryQueries.reinforce]; [importanceDelta] defaults to 0.1. *)
Definition reinforce (i : string) (importanceDelta : option Q) : M (option Memory) :=
  let importanceDelta := nullish importanceDelta (1 # 10) in
  (rows <- query (fun w =>
     UPDATE_memories (fun m => has_id i m && IS_NULL (deleted_at m))
       (reinforced importanceDelta (NOW w)) w) ;;
   ret (hd_error rows))%M.

Definition decayed (decayFactor : Q) (m : Memory) : Memory :=
  {| id := id m; content := content m; summary := summary m;
     embedding := embedding m; metadata := metadata m; tags := tags m;
     source := source m;
     importance := GREATEST (importance m * decayFactor) (1 # 100);
     access_count := access_count m;
     reinforcement_count := reinforcement_count m;
     created_at := created_at m; last_accessed := last_accessed m;
     last_reinforced := last_reinforced m; expires_at := expires_at m;
     deleted_at := deleted_at m |}.

(** [MemoryQueries.decay]; [decayFactor] defaults to 0.5. *)
Definition decay (i : string) (decayFactor : option Q) : M (option Memory) :=
  let decayFactor := nullish decayFactor (5 # 10) in
  (rows <- query (UPDATE_memories (fun m => has_id i m && IS_NULL (deleted_at m))
                    (decayed decayFactor)) ;;
   ret (hd_error rows))%M.

Definition soft_deleted (now : Z) (m : Memory) : Memory :=
  {| id := id m; content := content m; summary := summary m;
     embedding := embedding m; metadata := metadata m; tags := tags m;
     source := source m; importance := importance m;
     access_count := access_count m;
     reinforcement_count := reinforcement_count m;
     created_at := created_at m; last_accessed := last_accessed m;
     last_reinforced := last_reinforced m; expires_at := expires_at m;
     deleted_at := Some now |}.

(** [MemoryQueries.softDelete]. *)
Definition softDelete (i : string) : M bool :=
  (rows <- query (fun w =>
     UPDATE_memories (fun m => has_id i m && IS_NULL (deleted_at m))
       (soft_deleted (NOW w)) w) ;;
   ret (0 <? List.length rows)%nat)%M.

(** [MemoryQueries.hardDelete]. *)
Definition hardDelete (i : string) : M bool :=
  (rows <- query (DELETE_FROM_memories (has_id i)) ;;
   ret (0 <? List.length rows)%nat)%M.

(** The arguments of [forgetByCriteria]; a field left out or [undefined]
    takes its default [null], here [None]. *)
Record ForgetArgs := {
  f_tags : option (list string);
  f_olderThanDays : option Z;
  f_minImportance : option Q;
  f_soft : bool
}.

(** The conjunction [MemoryQueries.forgetByCriteria] builds; a day of an
    INTERVAL counts 86400 seconds. *)
Definition forget_where (a : ForgetArgs) (now : Z) (m : Memory) : bool :=
  IS_NULL (deleted_at m)
  && match f_tags a with
     | Some tagFilter =>
         if (0 <? List.length tagFilter)%nat then overlap (tags m) tagFilter else true
     | None => true
     end
  && match f_olderThanDays a with
     | Some days =>
         if (days =? 0)%Z then true
         else (created_at m <? now - days * 86400 * 1000000)%Z
     | None => true
     end
  && match f_minImportance a with
     | Some minImportance => negb (Qle_bool minImportance (importance m))
     | None => true
     end.

(** [MemoryQueries.forgetByCriteria]. *)
Definition forgetByCriteria (a : ForgetArgs) : M nat :=
  if f_soft a then
    (rows <- query (fun w =>
       UPDATE_memories (forget_where a (NOW w)) (soft_deleted (NOW w)) w) ;;
     ret (List.length rows))%M
  else
    (rows <- query (fun w => DELETE_FROM_memories (forget_where a (NOW w)) w) ;;
     ret (List.length rows))%M.

(** A row returned by [MemoryQueries.getRelated]. *)
Record SimilarRow := {
  similar : Memory;
  similarity : Q
}.

(** [MemoryQueries.getRelated]; [ORDER BY embedding <=> $1] lists the least
    distance first. *)
Definition getRelated `{Externals} (i : string) (limit : option Z) : M (list SimilarRow) :=
  let limit := nullish limit 10%Z in
  (memory <- query (fun w =>
     (Ok (find (fun m => has_id i m && IS_NULL (deleted_at m)) (memories w)), w)) ;;
   match memory with
   | None => ret []
   | Some memory =>
       query (fun w =>
         (LIMIT limit
            (map (fun m => {| similar := m;
                              similarity := 1 - cosine_distance (embedding m) (embedding memory) |})
               (sort_desc (fun m => - cosine_distance (embedding m) (embedding memory))
                  (filter (fun m => negb (has_id i m) && IS_NULL (deleted_at m))
                     (memories w)))), w))
   end)%M.

(** [MemoryQueries.getByIds]; [ids] is [None] for a missing argument. *)
Definition getByIds (ids : option (list string)) : M (list Memory) :=
  match ids with
  | None => ret []
  | Some ids =>
      if (List.length ids =? 0)%nat then ret []
      else
        query (fun w =>
          (Ok (filter (fun m => existsb (String.eqb (id m)) ids && IS_NULL (deleted_at m))
                 (memories w)), w))
  end.

(** [MemoryQueries.updateAccess]: one row [($1, 'search', $2, $3)] with the
    three parameters [id, queryText, similarity] bound; the row must
    reference a memory, and its insertion fires the trigger. *)
Definition updateAccess (i : string) (queryText : option string) (similarity_ : option Q)
    : M bool :=
  (query (fun w =>
     if existsb (has_id i) (memories w) then
       let event := {| memory_id := i; access_type := "search"; query_text := queryText;
                       similarity_score := similarity_; accessed_at := NOW w |} in
       (Ok tt,
        update_memory_access event
          (set_memory_access_log (memory_access_log w ++ [event]) w))
     else
       (Err "insert or update on table memory_access_log violates foreign key constraint", w)) ;;;
   ret true)%M.

End MemoryQueries.

(** A row returned by [RelationQueries.getByMemory]: the relation with the
    content and summary of both ends. *)
Record RelationRow := {
  relation : Relation;
  source_content : string;
  source_summary : option string;
  target_content : string;
  target_summary : option string
}.

Module RelationQueries.

Definition same_triple (sourceId targetId relationType : string) (r : Relation) : bool :=
  String.eqb (source_memory_id r) sourceId
  && String.eqb (target_memory_id r) targetId
  && String.eqb (relation_type r) relationType.

(** [RelationQueries.create]: INSERT ... ON CONFLICT (source_memory_id,
    target_memory_id, relation_type) DO UPDATE SET strength, metadata. *)
Definition create (sourceId targetId relationType : string) (strength_ : option Q)
    (metadata_ : option Metadata) : M Relation :=
  let strength_ := nullish strength_ (5 # 10) in
  let metadata_ := nullish metadata_ [] in
  query (fun w =>
    if String.eqb sourceId targetId then
      (Err "new row for relation memory_relations violates check constraint no_self_reference", w)
    else if negb (strength_check strength_) then
      (Err "new row for relation memory_relations violates check constraint memory_relations_strength_check", w)
    else if negb (existsb (has_id sourceId) (memories w) && existsb (has_id targetId) (memories w)) then
      (Err "insert on table memory_relations violates foreign key constraint", w)
    else
      match find (same_triple sourceId targetId relationType) (memory_relations w) with
      | Some old =>
          let new := {| source_memory_id := sourceId; target_memory_id := targetId;
                        relation_type := relationType; strength := strength_;
                        relation_metadata := metadata_;
                        relation_created_at := relation_created_at old |} in
          (Ok new,
           set_memory_relations
             (map (fun r => if same_triple sourceId targetId relationType r then new else r)
                (memory_relations w)) w)
      | None =>
          let new := {| source_memory_id := sourceId; target_memory_id := targetId;
                        relation_type := relationType; strength := strength_;
                        relation_metadata := metadata_;
                        relation_created_at := NOW w |} in
          (Ok new, set_memory_relations (memory_relations w ++ [new]) w)
      end).

(** [FROM memory_relations r JOIN memories s ON r.source_memory_id = s.id
    JOIN memories t ON r.target_memory_id = t.id], one relation at a time. *)
Definition joined (w : World) (r : Relation) : list RelationRow :=
  match find_memory (source_memory_id r) w, find_memory (target_memory_id r) w with
  | Some s, Some t =>
      [{| relation := r;
          source_content := content s; source_summary := summary s;
          target_content := content t; target_summary := summary t |}]
  | _, _ => []
  end.

(** The [condition] chosen from [direction]. *)
Definition condition (memoryId : string) (direction : string) (r : Relation) : bool :=
  if String.eqb direction "outgoing" then String.eqb (source_memory_id r) memoryId
  else if String.eqb direction "incoming" then String.eqb (target_memory_id r) memoryId
  else String.eqb (source_memory_id r) memoryId || String.eqb (target_memory_id r) memoryId.

(** [RelationQueries.getByMemory]; [direction] defaults to 'both'. *)
Definition getByMemory (memoryId : string) (direction : option string) : M (list RelationRow) :=
  let direction := nullish direction "both"%string in
  query (fun w =>
    (Ok (sort_desc (fun x => strength (relation x))
           (filter (fun x => condition memoryId direction (relation x))
              (flat_map (joined w) (memory_relations w)))), w)).

(** [RelationQueries.delete]. *)
Definition delete (sourceId targetId relationType : string) : M bool :=
  query (fun w =>
    let deleted := filter (same_triple sourceId targetId relationType) (memory_relations w) in
    (Ok (0 <? List.length deleted)%nat,
     set_memory_relations
       (filter (fun r => negb (same_triple sourceId targetId relationType r))
          (memory_relations w)) w)).

End RelationQueries.

(** ** Embeddings (embeddings/generator.js) *)

Module Generator.

(** [normalizeEmbeddingDimension]. *)
Definition normalizeEmbeddingDimension (cfg : Config) (embedding_ : list Q) : M (list Q) :=
  let n := List.length embedding_ in
  let dimension := embeddingDimension cfg in
  if (n =? dimension)%nat then ret embedding_
  else if (dimension <? n)%nat then
    (console_log ("Truncating embedding from " ++ Js.string_of_nat n ++ " to "
                  ++ Js.string_of_nat dimension ++ " dimensions") ;;;
     ret (firstn dimension embedding_))%M
  else
    (console_log ("Padding embedding from " ++ Js.string_of_nat n ++ " to "
                  ++ Js.string_of_nat dimension ++ " dimensions") ;;;
     ret (embedding_ ++ repeat 0 (dimension - n)))%M.

(** [generateEmbedding]: the text is cut to 32000 code units and sent to the
    configured provider, whose answer is normalized. *)
Definition generateEmbedding `{Externals} (cfg : Config) (text : JsValue) : M (list Q) :=
  match text with
  | JString text =>
      if (String.length text =? 0)%nat then throw "Text must be a non-empty string"
      else
        let truncatedText := Js.slice0 32000 text in
        (raw <- lift (embedding_provider truncatedText) ;;
         normalizeEmbeddingDimension cfg raw)%M
  | _ => throw "Text must be a non-empty string"
  end.

(** [generateEmbeddings]: the embeddings of all texts, in order, or the first
    failure. *)
Fixpoint generateEmbeddings `{Externals} (cfg : Config) (texts : list JsValue) : M (list (list Q)) :=
  match texts with
  | [] => ret []
  | text :: rest =>
      (e <- generateEmbedding cfg text ;;
       es <- generateEmbeddings cfg rest ;;
       ret (e :: es))%M
  end.

End Generator.

(** ** Tools (tools/*.js) *)

(** What a handler returns: [{ success: true, ... }] or
    [{ success: false, error }]. *)
Inductive Response (P : Type) : Type :=
| Success (payload : P)
| Failure (error : string).

Arguments Success {P} payload.
Arguments Failure {P} error.

(** [try { ... } catch (error) { return { success: false, error:
    error.message } }]. *)
Definition try_catch {P : Type} (body : M P) : World -> Response P * World :=
  fun w =>
    match body w with
    | (Ok p, w') => (Success p, w')
    | (Err e, w') => (Failure e, w')
    end.

(** [promise.catch(err => console.error(prefix, err.message))], not
    awaited: a failure is logged and goes no further. *)
Definition fire_and_forget (prefix : string) (m : M unit) : M unit :=
  fun w =>
    match m w with
    | (Ok _, w') => (Ok tt, w')
    | (Err e, w') => console_log (prefix ++ " " ++ e) w'
    end.

(** [params.source?.trim()]. *)
Definition optional_trim (v : JsValue) : result (option string) :=
  match v with
  | JUndefined | JNull => Ok None
  | JString s => Ok (Some (Js.trim s))
  | _ => Err "params.source?.trim is not a function"
  end.

(** [Math.ceil(a / b)] for a positive [b]. *)
Definition ceil_div (a b : Z) : Z := (- ((- a) / b))%Z.

(** The scores object of a returned memory. *)
Record Scores := {
  hybrid : Q;
  semantic : Q;
  recency : option Q
}.

(** A memory as a search or recall response shows it. *)
Record MemoryView := {
  v_id : string;
  v_content : string;
  v_summary : option string;
  v_tags : list string;
  v_importance : Q;
  v_source : option string;
  v_matchedQuery : option JsValue;
  v_scores : Scores;
  v_createdAt : Z;
  v_lastAccessed : option Z;
  v_accessCount : option Z
}.

Module search_memory.

Record Params := {
  p_query : JsValue;
  p_limit : JsValue;
  p_minScore : option Q;
  p_tags : JsValue;
  p_source : JsValue
}.

Record Payload := {
  r_query : string;
  r_count : nat;
  r_memories : list MemoryView
}.

Definition view (r : SearchRow) : MemoryView :=
  {| v_id := id (row r); v_content := content (row r); v_summary := summary (row r);
     v_tags := tags (row r); v_importance := importance (row r);
     v_source := source (row r); v_matchedQuery := None;
     v_scores := {| hybrid := Js.toFixed4 (hybrid_score r);
                    semantic := Js.toFixed4 (semantic_score r);
                    recency := Some (Js.toFixed4 (recency_score r)) |};
     v_createdAt := created_at (row r);
     v_lastAccessed := Some (last_accessed (row r));
     v_accessCount := Some (access_count (row r)) |}.

(** tools/search_memory.js, [handler]. *)
Definition handler `{Externals} (cfg : Config) (params : Params) : World -> Response Payload * World :=
  try_catch
    (queryText <- lift (Security.validateQuery (p_query params)) ;;
     limit <- lift (Security.validateLimit (p_limit params) 100) ;;
     let minScore := nullish (p_minScore params) (3 # 10) in
     tagFilter <- (if Js.truthy (p_tags params)
                   then lift (result_bind (Security.validateTags (p_tags params))
                                (fun t => Ok (Some t)))
                   else ret None) ;;
     sourceFilter <- lift (result_bind (optional_trim (p_source params))
                             (fun s => Ok (or_null s))) ;;
     embedding_ <- Generator.generateEmbedding cfg (JString queryText) ;;
     results <- MemoryQueries.search cfg
                  {| MemoryQueries.s_embedding := embedding_;
                     MemoryQueries.s_limit := Some limit;
                     MemoryQueries.s_minScore := Some minScore;
                     MemoryQueries.s_tags := tagFilter;
                     MemoryQueries.s_source := sourceFilter |} ;;
     (if (0 <? List.length results)%nat then
        fire_and_forget "Failed to update access counts:"
          (MemoryQueries.batchUpdateAccess (map (fun r => id (row r)) results)
             (Some queryText))
      else ret tt) ;;;
     ret {| r_query := queryText;
            r_count := List.length results;
            r_memories := map view results |})%M.

End search_memory.

Module recall_context.

Record Params := {
  p_task : JsValue;
  p_context : option (list JsValue);
  p_limit : JsValue;
  p_minScore : option Q
}.

Record Payload := {
  r_task : string;
  r_contextQueries : nat;
  r_count : nat;
  r_memories : list MemoryView
}.

(** A value of the [allResults] map: [{ ...result, matchedQuery }]. *)
Record Recalled := {
  result_ : SearchRow;
  matchedQuery : JsValue
}.

(** The [Map] keyed by memory id, in insertion order. *)
Definition ResultMap : Type := list (string * Recalled).

Fixpoint Map_get (k : string) (m : ResultMap) : option Recalled :=
  match m with
  | [] => None
  | (k', v) :: m' => if String.eqb k' k then Some v else Map_get k m'
  end.

(** [Map.prototype.set]: an existing key keeps its place. *)
Fixpoint Map_set (k : string) (v : Recalled) (m : ResultMap) : ResultMap :=
  match m with
  | [] => [(k, v)]
  | (k', v') :: m' =>
      if String.eqb k' k then (k, v) :: m' else (k', v') :: Map_set k v m'
  end.

Definition Map_values (m : ResultMap) : list Recalled := map snd m.

(** The body of [for (const result of results)]. *)
Definition keep_best (queryText : JsValue) (allResults : ResultMap) (r : SearchRow) : ResultMap :=
  let replace :=
    match Map_get (id (row r)) allResults with
    | None => true
    | Some existing => negb (Qle_bool (hybrid_score r) (hybrid_score (result_ existing)))
    end in
  if replace then
    Map_set (id (row r)) {| result_ := r; matchedQuery := queryText |} allResults
  else allResults.

(** The effect on [allResults] of the results of one query. *)
Definition merge_results (queryText : JsValue) (results : list SearchRow)
    (allResults : ResultMap) : ResultMap :=
  fold_left (keep_best queryText) results allResults.

(** The loop [for (let i = 0; i < embeddings.length; i++)]. *)
Fixpoint search_each `{Externals} (cfg : Config) (perQuery : Z) (minScore : Q)
    (work : list (JsValue * list Q)) (allResults : ResultMap) : M ResultMap :=
  match work with
  | [] => ret allResults
  | (queryText, embedding_) :: rest =>
      (results <- MemoryQueries.search cfg
                    {| MemoryQueries.s_embedding := embedding_;
                       MemoryQueries.s_limit := Some perQuery;
                       MemoryQueries.s_minScore := Some minScore;
                       MemoryQueries.s_tags := None;
                       MemoryQueries.s_source := None |} ;;
       search_each cfg perQuery minScore rest (merge_results queryText results allResults))%M
  end.

(** [Array.from(allResults.values()).sort(...).slice(0, limit)]. *)
Definition combine_results (limit : Z) (allResults : ResultMap) : list Recalled :=
  firstn (Z.to_nat limit)
    (sort_desc (fun r => hybrid_score (result_ r)) (Map_values allResults)).

Definition view (r : Recalled) : MemoryView :=
  let m := row (result_ r) in
  {| v_id := id m; v_content := content m; v_summary := summary m;
     v_tags := tags m; v_importance := importance m; v_source := source m;
     v_matchedQuery := Some (matchedQuery r);
     v_scores := {| hybrid := Js.toFixed4 (hybrid_score (result_ r));
                    semantic := Js.toFixed4 (semantic_score (result_ r));
                    recency := None |};
     v_createdAt := created_at m;
     v_lastAccessed := None;
     v_accessCount := None |}.

(** The handler up to [combined]: validation, embeddings, the searches and
    the merge. *)
Definition recall `{Externals} (cfg : Config) (params : Params)
    : M (string * list JsValue * list Recalled) :=
  (task <- lift (Security.validateQuery (p_task params)) ;;
   let contextItems := nullish (p_context params) [] in
   limit <- lift (Security.validateLimit (p_limit params) 50) ;;
   let minScore := nullish (p_minScore params) (25 # 100) in
   let queries := JString task :: firstn 10 contextItems in
   embeddings <- Generator.generateEmbeddings cfg queries ;;
   allResults <- search_each cfg
                   (ceil_div limit (Z.of_nat (List.length queries)) + 5)%Z minScore
                   (List.combine queries embeddings) [] ;;
   ret (task, contextItems, combine_results limit allResults))%M.

(** tools/recall_context.js, [handler]. *)
Definition handler `{Externals} (cfg : Config) (params : Params) : World -> Response Payload * World :=
  try_catch
    (found <- recall cfg params ;;
     let '(task, contextItems, combined) := found in
     (if (0 <? List.length combined)%nat then
        fire_and_forget "Failed to update access counts:"
          (MemoryQueries.batchUpdateAccess (map (fun r => id (row (result_ r))) combined)
             (Some task))
      else ret tt) ;;;
     ret {| r_task := task;
            r_contextQueries := List.length contextItems;
            r_count := List.length combined;
            r_memories := map view combined |})%M.

End recall_context.

Module get_related.

Record Params := {
  p_memoryId : JsValue;
  p_limit : JsValue;
  p_includeExplicit : JsValue;
  p_includeSimilar : JsValue
}.

(** An element of [related]. *)
Record Related := {
  rel_id : string;
  rel_content : string;
  rel_summary : option string;
  rel_tags : option (list string);
  relationType : option string;
  relationStrength : option Q;
  relationDirection : option string;
  rel_similarity : option Q;
  rel_source : string
}.

Record Payload := {
  r_memoryId : string;
  r_sourceContent : string;
  r_sourceSummary : option string;
  r_count : nat;
  r_related : list Related
}.

(** [v !== false]. *)
Definition not_false (v : JsValue) : bool :=
  match v with
  | JBool false => false
  | _ => true
  end.

(** The element pushed for an explicit relationship. *)
Definition explicit (memoryId : string) (rel : RelationRow) : Related :=
  let isSource := String.eqb (source_memory_id (relation rel)) memoryId in
  {| rel_id := if isSource then target_memory_id (relation rel)
               else source_memory_id (relation rel);
     rel_content := if isSource then target_content rel else source_content rel;
     rel_summary := if isSource then target_summary rel else source_summary rel;
     rel_tags := None;
     relationType := Some (relation_type (relation rel));
     relationStrength := Some (strength (relation rel));
     relationDirection := Some (if isSource then "outgoing" else "incoming")%string;
     rel_similarity := None;
     rel_source := "explicit" |}.

(** The element pushed for a semantically similar memory. *)
Definition semantic_ (mem : MemoryQueries.SimilarRow) : Related :=
  {| rel_id := id (MemoryQueries.similar mem);
     rel_content := content (MemoryQueries.similar mem);
     rel_summary := summary (MemoryQueries.similar mem);
     rel_tags := Some (tags (MemoryQueries.similar mem));
     relationType := None;
     relationStrength := None;
     relationDirection := None;
     rel_similarity := Some (Js.toFixed4 (MemoryQueries.similarity mem));
     rel_source := "semantic" |}.

(** [for (const mem of similar) if (!related.find(r => r.id === mem.id))
    related.push(...)]. *)
Definition push_similar (related : list Related) (mem : MemoryQueries.SimilarRow) : list Related :=
  if existsb (fun r => String.eqb (rel_id r) (id (MemoryQueries.similar mem))) related
  then related
  else related ++ [semantic_ mem].

(** [a.relationStrength || a.similarity || 0]. *)
Definition score (a : Related) : Q :=
  match relationStrength a with
  | Some s => if Qeq_bool s 0 then nullish (rel_similarity a) 0 else s
  | None => nullish (rel_similarity a) 0
  end.

(** tools/get_related.js, [handler]. *)
Definition handler `{Externals} (params : Params) : World -> Response Payload * World :=
  try_catch
    (memoryId <- lift (Security.validateUUID (p_memoryId params)) ;;
     limit <- lift (Security.validateLimit (p_limit params) 50) ;;
     let includeExplicit := not_false (p_includeExplicit params) in
     let includeSimilar := not_false (p_includeSimilar params) in
     sourceMemory <- MemoryQueries.getById memoryId ;;
     match sourceMemory with
     | None => throw ("Memory not found: " ++ memoryId)
     | Some sourceMemory =>
         related <- (if includeExplicit then
                       relationships <- RelationQueries.getByMemory memoryId None ;;
                       ret (map (explicit memoryId) relationships)
                     else ret []) ;;
         related <- (if includeSimilar then
                       similar_ <- MemoryQueries.getRelated memoryId (Some limit) ;;
                       ret (fold_left push_similar similar_ related)
                     else ret related) ;;
         let sorted := firstn (Z.to_nat limit) (sort_desc score related) in
         ret {| r_memoryId := memoryId;
                r_sourceContent := content sourceMemory;
                r_sourceSummary := summary sourceMemory;
                r_count := List.length sorted;
                r_related := sorted |}
     end)%M.

End get_related.

Module store_memory.

Record Params := {
  p_content : JsValue;
  p_summary : JsValue;
  p_tags : JsValue;
  p_importance : option Q;
  p_metadata : JsValue;
  p_source : JsValue
}.

(** tools/store_memory.js, [handler]; the payload is the stored row. *)
Definition handler `{Externals} (cfg : Config) (params : Params) : World -> Response Memory * World :=
  try_catch
    (content_ <- lift (Security.sanitizeContent (p_content params) Security.MAX_CONTENT_SIZE) ;;
     tags_ <- lift (Security.validateTags (p_tags params)) ;;
     importance_ <- lift (Security.validateImportance (p_importance params)) ;;
     metadata_ <- lift (validateMetadata (p_metadata params)) ;;
     summary_ <- (if Js.truthy (p_summary params)
                  then lift (result_bind (Security.sanitizeContent (p_summary params) 1024)
                               (fun s => Ok (Some s)))
                  else ret None) ;;
     source_ <- lift (result_bind (optional_trim (p_source params))
                        (fun s => Ok (or_null (option_map (Js.slice0 100) s)))) ;;
     embedding_ <- Generator.generateEmbedding cfg (JString content_) ;;
     MemoryQueries.create cfg
       {| MemoryQueries.c_content := content_;
          MemoryQueries.c_embedding := embedding_;
          MemoryQueries.c_summary := summary_;
          MemoryQueries.c_tags := Some tags_;
          MemoryQueries.c_importance := Some importance_;
          MemoryQueries.c_metadata := Some metadata_;
          MemoryQueries.c_source := source_ |})%M.

End store_memory.

(** ** Re-ranking in JS (utils/hybrid-search.js) *)

Module HybridSearch.

Section WithExp.

(** [Math.exp] on doubles, and the configuration. *)
Variable Math_exp : Q -> Q.
Variable cfg : Config.

Record Options := {
  opt_semanticWeight : option Q;
  opt_recencyWeight : option Q;
  opt_decayDays : option Q
}.

Definition no_options : Options :=
  {| opt_semanticWeight := None; opt_recencyWeight := None; opt_decayDays := None |}.

(** [calculateRecencyScore], timestamps in milliseconds. *)
Definition calculateRecencyScore (now lastAccessed : Z) (decayDays : option Q) : Q :=
  let decayDays := nullish decayDays (inject_Z (recencyDecayDays cfg)) in
  let daysSinceAccess := inject_Z (now - lastAccessed) / inject_Z (1000 * 60 * 60 * 24) in
  Math_exp (- daysSinceAccess / decayDays).

(** [calculateHybridScore]. *)
Definition calculateHybridScore (now : Z) (semanticSimilarity : Q) (lastAccessed : Z)
    (importance : option Q) (options : Options) : Q :=
  let importance := nullish importance (defaultImportance cfg) in
  let semanticWeight := nullish (opt_semanticWeight options) (semanticWeight cfg) in
  let recencyWeight := nullish (opt_recencyWeight options) (recencyWeight cfg) in
  let decayDays := nullish (opt_decayDays options) (inject_Z (recencyDecayDays cfg)) in
  let recencyScore := calculateRecencyScore now lastAccessed (Some decayDays) in
  let baseScore := (semanticWeight * semanticSimilarity) + (recencyWeight * recencyScore) in
  let importanceMultiplier := (5 # 10) + importance in
  baseScore * importanceMultiplier.

(** The fields [rerankByHybridScore] reads from a result; each may be
    missing. A timestamp that is present is a Date or a date string, hence
    truthy. *)
Record Result := {
  semanticScore : option Q;
  similarity : option Q;
  lastAccessed : option Z;
  last_accessed : option Z;
  importance : option Q
}.

(** [{ ...result, hybridScore }]. *)
Record Ranked := {
  result : Result;
  hybridScore : Q
}.

(** [a || b] where [a] is a number or missing: zero is falsy. *)
Definition or_else (a : option Q) (b : Q) : Q :=
  match a with
  | Some q => if Qeq_bool q 0 then b else q
  | None => b
  end.

(** The callback of [results.map]; [now] is both [Date.now()] and
    [new Date()]. *)
Definition rank (now : Z) (r : Result) : Ranked :=
  {| result := r;
     hybridScore :=
       calculateHybridScore now
         (or_else (semanticScore r) (or_else (similarity r) 0))
         (nullish (lastAccessed r) (nullish (last_accessed r) now))
         (Some (or_else (importance r) (defaultImportance cfg)))
         no_options |}.

(** [rerankByHybridScore]. *)
Definition rerankByHybridScore (now : Z) (results : list Result) : list Ranked :=
  sort_desc hybridScore (map (rank now) results).

End WithExp.

End HybridSearch.

(** ** More tools (tools/forget.js, tools/reinforce.js)

    The [message] and [criteria] texts of the responses are left out. *)

Module forget.

Record Params := {
  p_memoryId : JsValue;
  p_tags : JsValue;
  p_olderThanDays : JsValue;
  (** [None] for [undefined], [Some None] for [null]. *)
  p_belowImportance : option (option Q);
  p_soft : JsValue;
  p_decayFactor : option Q
}.

(** The object the handler returns. *)
Record Reply := {
  success : bool;
  method : option string;
  forgotten : option nat;
  memory : option (string * Q);
  error : option string
}.

Definition failed (message : string) : Reply :=
  {| success := false; method := None; forgotten := None; memory := None;
     error := Some message |}.

(** [params.soft !== false]. *)
Definition soft_of (v : JsValue) : bool :=
  match v with
  | JBool false => false
  | _ => true
  end.

(** [params.tags || params.olderThanDays || params.belowImportance !==
    undefined], as a boolean. *)
Definition hasCriteria (params : Params) : bool :=
  Js.truthy (p_tags params) || Js.truthy (p_olderThanDays params)
  || match p_belowImportance params with Some _ => true | None => false end.

(** The body of the [try] block. *)
Definition body (params : Params) : M Reply :=
  let soft := soft_of (p_soft params) in
  let decayFactor := nullish (p_decayFactor params) (1 # 10) in
  if Js.truthy (p_memoryId params) then
    (memoryId <- lift (Security.validateUUID (p_memoryId params)) ;;
     if soft then
       decayed_ <- MemoryQueries.decay memoryId (Some decayFactor) ;;
       match decayed_ with
       | Some m =>
           ret {| success := true; method := Some "soft"%string; forgotten := Some 1%nat;
                  memory := Some (id m, importance m); error := None |}
       | None => ret (failed ("Memory not found: " ++ memoryId))
       end
     else
       deleted <- MemoryQueries.hardDelete memoryId ;;
       ret {| success := deleted; method := Some "hard"%string;
              forgotten := Some (if deleted then 1 else 0)%nat;
              memory := None; error := None |})%M
  else if negb (hasCriteria params) then
    ret (failed "Must provide memoryId or at least one criteria (tags, olderThanDays, belowImportance)")
  else
    (tagFilter <- (if Js.truthy (p_tags params)
                   then lift (result_bind (Security.validateTags (p_tags params))
                                (fun t => Ok (Some t)))
                   else ret None) ;;
     let olderThanDays :=
       if Js.truthy (p_olderThanDays params)
       then Js.parseIntNoRadix (p_olderThanDays params) else None in
     let minImportance :=
       match p_belowImportance params with
       | Some (Some q) => Some q
       | _ => None
       end in
     count <- MemoryQueries.forgetByCriteria
                {| MemoryQueries.f_tags := tagFilter;
                   MemoryQueries.f_olderThanDays := olderThanDays;
                   MemoryQueries.f_minImportance := minImportance;
                   MemoryQueries.f_soft := soft |} ;;
     ret {| success := true;
            method := Some (if soft then "soft" else "hard")%string;
            forgotten := Some count; memory := None; error := None |})%M.

(** tools/forget.js, [handler]. *)
Definition handler (params : Params) : World -> Reply * World :=
  fun w =>
    match body params w with
    | (Ok reply, w') => (reply, w')
    | (Err e, w') => (failed e, w')
    end.

End forget.

Module reinforce.

Record Params := {
  p_memoryId : JsValue;
  p_boost : option Q;
  p_relateToMemory : JsValue;
  p_relationType : option string;
  p_relationStrength : option Q
}.

(** The [result] object of a successful call. *)
Record Payload := {
  r_memory : Memory;
  r_relation : option Relation;
  r_relationError : option string
}.

(** tools/reinforce.js, [handler]. *)
Definition handler (params : Params) : World -> Response Payload * World :=
  try_catch
    (memoryId <- lift (Security.validateUUID (p_memoryId params)) ;;
     let boost := nullish (p_boost params) (1 # 10) in
     reinforced_ <- MemoryQueries.reinforce memoryId (Some boost) ;;
     match reinforced_ with
     | None => throw ("Memory not found: " ++ memoryId)
     | Some reinforced_ =>
         if Js.truthy (p_relateToMemory params) then
           targetId <- lift (Security.validateUUID (p_relateToMemory params)) ;;
           let relationType := nullish (or_null (p_relationType params)) "related_to"%string in
           let relationStrength := nullish (p_relationStrength params) (5 # 10) in
           targetMemory <- MemoryQueries.getById targetId ;;
           match targetMemory with
           | None =>
               ret {| r_memory := reinforced_; r_relation := None;
                      r_relationError := Some ("Target memory not found: " ++ targetId)%string |}
           | Some _ =>
               relation_ <- RelationQueries.create memoryId targetId relationType
                              (Some relationStrength) None ;;
               ret {| r_memory := reinforced_; r_relation := Some relation_;
                      r_relationError := None |}
           end
         else ret {| r_memory := reinforced_; r_relation := None; r_relationError := None |}
     end)%M.

End reinforce.

(** ** Runs and example data *)

(** A reinforce or decay call on one memory, with the argument the caller
    passes ([None] when left out). *)
Inductive LifecycleOp :=
| Reinforce (boost : option Q)
| Decay (decayFactor : option Q).

(** The world after one call, whether it returned or threw. *)
Definition apply_op (i : string) (op : LifecycleOp) (w : World) : World :=
  match op with
  | Reinforce boost => snd (MemoryQueries.reinforce i boost w)
  | Decay decayFactor => snd (MemoryQueries.decay i decayFactor w)
  end.

Definition apply_ops (i : string) (ops : list LifecycleOp) (w : World) : World :=
  fold_left (fun w' op => apply_op i op w') ops w.

(** The importance a call computes from the stored one. *)
Definition computed_importance (op : LifecycleOp) (old : Q) : Q :=
  match op with
  | Reinforce boost => LEAST (old + nullish boost (1 # 10)) 1
  | Decay decayFactor => GREATEST (old * nullish decayFactor (5 # 10)) (1 # 100)
  end.

Definition nonnegative_boost (op : LifecycleOp) : Prop :=
  match op with
  | Reinforce boost => 0 <= nullish boost (1 # 10)
  | Decay _ => True
  end.

(** An empty store at time 0. *)
Definition empty_world : World := {|
  memories := []; memory_relations := []; memory_access_log := [];
  NOW := 0; uuid_draws := 0; console := []; statements := 0 |}.

(** One choice of the externals, for examples: texts embed to their length,
    equal vectors are at distance 0 and others at 1/2, [EXP] is constantly 1,
    identifiers are numbered, and any metadata is accepted as empty. *)
Definition example_externals : Externals := {|
  cosine_distance := fun a b =>
    if forallb (fun p => Qeq_bool (fst p) (snd p)) (List.combine a b) then 0 else 1 # 2;
  float_exp := fun _ => 1;
  embedding_provider := fun text => Ok [inject_Z (Z.of_nat (String.length text))];
  uuid_generate_v4 := fun n => ("00000000-0000-4000-8000-00000000000" ++ Js.string_of_nat n)%string;
  validateMetadata := fun _ => Ok []
|}.

(** The identifier [example_externals] draws at its [n]-th draw. *)
Definition example_id (n : nat) : string :=
  @uuid_generate_v4 example_externals n.

(** Parameters of a store_memory call that names a content, an importance
    and tags. *)
Definition store_params (text : string) (importance_ : option Q) (tags_ : JsValue)
    : store_memory.Params :=
  {| store_memory.p_content := JString text;
     store_memory.p_summary := JUndefined;
     store_memory.p_tags := tags_;
     store_memory.p_importance := importance_;
     store_memory.p_metadata := JUndefined;
     store_memory.p_source := JUndefined |}.

(** The world after a series of store_memory calls under the default
    configuration and [example_externals]. *)
Definition after_storing (calls : list store_memory.Params) (w : World) : World :=
  fold_left (fun w' p => snd (@store_memory.handler example_externals default_config p w'))
    calls w.

(** [v === undefined || v === null]. *)
Definition absent (v : JsValue) : bool :=
  match v with
  | JUndefined | JNull => true
  | _ => false
  end.





(** ** Search as the specification words it *)

(** [x] is listed before [y] when ordering by [key], greatest first. *)
Definition desc {A : Type} (key : A -> Q) (x y : A) : Prop := key y <= key x.

(** The candidate pool of a search: the rows that satisfy its WHERE clause,
    scored. *)
Definition candidates `{Externals} (cfg : Config) (a : MemoryQueries.SearchArgs) (w : World)
    : list SearchRow :=
  map (MemoryQueries.scored cfg (NOW w) (MemoryQueries.s_embedding a))
    (filter (WHERE (MemoryQueries.whereConditions a)) (memories w)).

(** Sort the pool by hybrid score descending, take the first [L], then keep
    those whose score is at least [m]. *)
Definition search_spec (C : list SearchRow) (L : nat) (m : Q) : list SearchRow :=
  let sorted := sort_desc hybrid_score C in
  let top := firstn L sorted in
  filter (fun r => Qle_bool m (hybrid_score r)) top.

(** The number of candidates scoring strictly above, and at least, a
    score. *)
Definition count_above (C : list SearchRow) (q : Q) : nat :=
  List.length (filter (fun c => negb (Qle_bool (hybrid_score c) q)) C).

Definition count_at_least (C : list SearchRow) (q : Q) : nat :=
  List.length (filter (fun c => Qle_bool q (hybrid_score c)) C).

(** A query vector of the column's dimension whose first coordinate is [x]. *)
Definition example_vector (x : Q) : list Q := x :: repeat 0 767.

(** Two stored notes of importance 0.5; under [example_externals] a query
    vector starting with 4 is at distance 0 from the first and 1/2 from the
    second. *)
Definition two_notes : World :=
  after_storing [store_params "note" None JUndefined;
                 store_params "memo!" None JUndefined] empty_world.


(** Two stored memories, the first related to the second, after a soft
    forget of everything tagged "temporary", which is the second. *)
Definition soft_deleted_endpoint : World :=
  let w := after_storing
             [store_params "kept" None JUndefined;
              store_params "gone" None (JArray [JString "temporary"])] empty_world in
  let w := snd (RelationQueries.create (example_id 0) (example_id 1) "related_to" None None w) in
  snd (MemoryQueries.forgetByCriteria
         {| MemoryQueries.f_tags := Some ["temporary"%string];
            MemoryQueries.f_olderThanDays := None;
            MemoryQueries.f_minImportance := None;
            MemoryQueries.f_soft := true |} w).

(** ** Recall as a merge of observations *)

(** What one sub-query contributes: its text and the rows its search
    returned. *)
Definition Run : Type := (JsValue * list SearchRow)%type.

(** The [allResults] map after the runs, in order. *)
Fixpoint merge_all (runs : list Run) (allResults : recall_context.ResultMap)
    : recall_context.ResultMap :=
  match runs with
  | [] => allResults
  | (queryText, results) :: rest =>
      merge_all rest (recall_context.merge_results queryText results allResults)
  end.

(** The runs as a sequence of single observations: a row and the text of the
    query that returned it. *)
Definition observations (runs : list Run) : list (JsValue * SearchRow) :=
  flat_map (fun run => map (pair (fst run)) (snd run)) runs.

(** The identifier of a merged entry. *)
Definition recalled_id (e : recall_context.Recalled) : string :=
  id (row (recall_context.result_ e)).

(** The score of a merged entry. *)
Definition recalled_score (e : recall_context.Recalled) : Q :=
  hybrid_score (recall_context.result_ e).

(** Two worlds hold the same tables and read the same clock. *)
Definition same_store (w w' : World) : Prop :=
  memories w' = memories w
  /\ memory_relations w' = memory_relations w
  /\ memory_access_log w' = memory_access_log w
  /\ NOW w' = NOW w.

(** The arguments recall_context passes to [MemoryQueries.search]. *)
Definition recall_args (perQuery : Z) (minScore : Q) (embedding_ : list Q)
    : MemoryQueries.SearchArgs :=
  {| MemoryQueries.s_embedding := embedding_;
     MemoryQueries.s_limit := Some perQuery;
     MemoryQueries.s_minScore := Some minScore;
     MemoryQueries.s_tags := None;
     MemoryQueries.s_source := None |}.

(** The runs of a recall: each query text with what the specification of
    search gives for its embedding on the store [w]. *)
Definition recall_runs `{Externals} (cfg : Config) (perQuery : Z) (minScore : Q)
    (work : list (JsValue * list Q)) (w : World) : list Run :=
  map (fun qe =>
         (fst qe,
          search_spec (candidates cfg (recall_args perQuery minScore (snd qe)) w)
            (Z.to_nat perQuery) minScore))
    work.


(** A record for [MemoryQueries.create] that names a content and an
    embedding and leaves the rest out. *)
Definition create_args (text : string) (embedding_ : list Q) : MemoryQueries.CreateArgs :=
  {| MemoryQueries.c_content := text;
     MemoryQueries.c_embedding := embedding_;
     MemoryQueries.c_summary := None;
     MemoryQueries.c_tags := None;
     MemoryQueries.c_importance := None;
     MemoryQueries.c_metadata := None;
     MemoryQueries.c_source := None |}.


(** ** Dispatch (tools/index.js) *)

(** The [params] object of a tool call: every handler reads its own
    properties from it, and a property that is absent reads as
    [undefined]. *)
Record Arguments := {
  a_content : JsValue;
  a_summary : JsValue;
  a_tags : JsValue;
  a_importance : option Q;
  a_metadata : JsValue;
  a_source : JsValue;
  a_query : JsValue;
  a_limit : JsValue;
  a_minScore : option Q;
  a_memoryId : JsValue;
  a_includeExplicit : JsValue;
  a_includeSimilar : JsValue;
  a_task : JsValue;
  a_context : option (list JsValue);
  a_olderThanDays : JsValue;
  a_belowImportance : option (option Q);
  a_soft : JsValue;
  a_decayFactor : option Q;
  a_boost : option Q;
  a_relateToMemory : JsValue;
  a_relationType : option string;
  a_relationStrength : option Q
}.

(** What [executeTool] returns: the return value of the handler it found,
    or its own failure object. *)
Inductive ToolResult :=
| store_memory_result (r : Response Memory)
| search_memory_result (r : Response search_memory.Payload)
| get_related_result (r : Response get_related.Payload)
| recall_context_result (r : Response recall_context.Payload)
| forget_result (r : forget.Reply)
| reinforce_result (r : Response reinforce.Payload)
| unknown_tool (error : string) (availableTools : list string).

(** The keys of [toolHandlers], in insertion order. *)
Definition toolNames : list string :=
  ["store_memory"; "search_memory"; "get_related"; "recall_context"; "forget";
   "reinforce"]%string.

(** tools/index.js, [executeTool]. No handler throws, so the [catch] around
    the call is never entered. *)
Definition executeTool `{Externals} (cfg : Config) (name : string) (params : Arguments)
    : World -> ToolResult * World :=
  fun w =>
    if String.eqb name "store_memory" then
      let '(r, w') :=
        store_memory.handler cfg
          {| store_memory.p_content := a_content params;
             store_memory.p_summary := a_summary params;
             store_memory.p_tags := a_tags params;
             store_memory.p_importance := a_importance params;
             store_memory.p_metadata := a_metadata params;
             store_memory.p_source := a_source params |} w in
      (store_memory_result r, w')
    else if String.eqb name "search_memory" then
      let '(r, w') :=
        search_memory.handler cfg
          {| search_memory.p_query := a_query params;
             search_memory.p_limit := a_limit params;
             search_memory.p_minScore := a_minScore params;
             search_memory.p_tags := a_tags params;
             search_memory.p_source := a_source params |} w in
      (search_memory_result r, w')
    else if String.eqb name "get_related" then
      let '(r, w') :=
        get_related.handler
          {| get_related.p_memoryId := a_memoryId params;
             get_related.p_limit := a_limit params;
             get_related.p_includeExplicit := a_includeExplicit params;
             get_related.p_includeSimilar := a_includeSimilar params |} w in
      (get_related_result r, w')
    else if String.eqb name "recall_context" then
      let '(r, w') :=
        recall_context.handler cfg
          {| recall_context.p_task := a_task params;
             recall_context.p_context := a_context params;
             recall_context.p_limit := a_limit params;
             recall_context.p_minScore := a_minScore params |} w in
      (recall_context_result r, w')
    else if String.eqb name "forget" then
      let '(r, w') :=
        forget.handler
          {| forget.p_memoryId := a_memoryId params;
             forget.p_tags := a_tags params;
             forget.p_olderThanDays := a_olderThanDays params;
             forget.p_belowImportance := a_belowImportance params;
             forget.p_soft := a_soft params;
             forget.p_decayFactor := a_decayFactor params |} w in
      (forget_result r, w')
    else if String.eqb name "reinforce" then
      let '(r, w') :=
        reinforce.handler
          {| reinforce.p_memoryId := a_memoryId params;
             reinforce.p_boost := a_boost params;
             reinforce.p_relateToMemory := a_relateToMemory params;
             reinforce.p_relationType := a_relationType params;
             reinforce.p_relationStrength := a_relationStrength params |} w in
      (reinforce_result r, w')
    else (unknown_tool ("Unknown tool: " ++ name) toolNames, w).

(** ** The constraints of the schema *)

(** The columns of the UNIQUE constraint on [memory_relations]. *)
Definition unique_relation (r : Relation) : string * string * string :=
  (source_memory_id r, target_memory_id r, relation_type r).

(** The tables satisfy the constraints db/schema.sql declares: the primary
    key of [memories] and its two CHECKs; on [memory_relations] the CHECKs
    [no_self_reference] and on [strength], the two foreign keys and
    [unique_relation]; and the foreign key of [memory_access_log]. *)
Definition consistent (w : World) : Prop :=
  NoDup (map id (memories w))
  /\ Forall (fun m => importance_check (importance m) = true
                      /\ content_not_empty (content m) = true) (memories w)
  /\ Forall (fun r => source_memory_id r <> target_memory_id r
                      /\ strength_check (strength r) = true
                      /\ In (source_memory_id r) (map id (memories w))
                      /\ In (target_memory_id r) (map id (memories w)))
       (memory_relations w)
  /\ NoDup (map unique_relation (memory_relations w))
  /\ Forall (fun e => In (memory_id e) (map id (memories w))) (memory_access_log w).

(** All-undefined arguments but for a content. *)
Definition content_only (text : string) : Arguments :=
  {| a_content := JString text; a_summary := JUndefined; a_tags := JUndefined;
     a_importance := None; a_metadata := JUndefined; a_source := JUndefined;
     a_query := JUndefined; a_limit := JUndefined; a_minScore := None;
     a_memoryId := JUndefined; a_includeExplicit := JUndefined;
     a_includeSimilar := JUndefined; a_task := JUndefined; a_context := None;
     a_olderThanDays := JUndefined; a_belowImportance := None; a_soft := JUndefined;
     a_decayFactor := None; a_boost := None; a_relateToMemory := JUndefined;
     a_relationType := None; a_relationStrength := None |}.

(** A computation that keeps the constraints. *)
Definition preserves {A : Type} (m : M A) : Prop :=
  forall w, consistent w -> consistent (snd (m w)).

(** ** Auxiliary notions *)

(** The world as a statement sent through [query] finds it. *)
Definition counted (w : World) : World :=
  {| memories := memories w; memory_relations := memory_relations w;
     memory_access_log := memory_access_log w; NOW := NOW w;
     uuid_draws := uuid_draws w; console := console w;
     statements := S (statements w) |}.

(** A tag as [validateTags] returns it. *)
Definition tag_ok (t : string) : Prop :=
  (1 <= String.length t <= Security.MAX_TAG_LENGTH)%nat
  /\ forallb Security.isTagChar (list_ascii_of_string t) = true.


(* ================================================================== *)
(** * Part II: properties *)
(* ================================================================== *)

(** ** The score formula *)

Section ScoreFormula.

Import Scoring.
Local Open Scope R_scope.


(** The SQL function unfolds to the closed formula, for any weights. *)
Lemma calculate_hybrid_score_eq (now t : Z) (s i ws wr : R) (D : Z) :
  calculate_hybrid_score now s t i (Some ws) (Some wr) (Some D)
  = (ws * s + wr * exp (- days_elapsed now t / IZR D)) * (/ 2 + i).
Proof. reflexivity. Qed.

(** The JS function unfolds to the closed formula, for any weights. *)
Lemma calculateHybridScore_eq (cfg : Config) (now t : Z) (s i ws wr D : R) :
  calculateHybridScore cfg now s t (Some i)
    {| opt_semanticWeight := Some ws; opt_recencyWeight := Some wr; opt_decayDays := Some D |}
  = (ws * s + wr * exp (- daysSinceAccess now t / D)) * (/ 2 + i).
Proof. reflexivity. Qed.


Lemma daysSinceAccess_whole (t n : Z) :
  daysSinceAccess (t + n * 86400000) t = IZR n.
Proof.
  unfold daysSinceAccess.
  replace (t + n * 86400000 - t)%Z with (n * 86400000)%Z by lia.
  rewrite mult_IZR. field.
Qed.



End ScoreFormula.

(** ** Recency monotonicity *)

Section Recency.

Import Scoring.
Local Open Scope R_scope.

Variable cfg : Config.
Variable options : Options.







End Recency.


(** ** Importance under reinforce and decay *)

Section Importance.

Local Open Scope Q_scope.

Lemma LEAST_le_r (a b : Q) : LEAST a b <= b.
Proof.
  unfold LEAST. destruct (Qle_bool a b) eqn:E.
  - apply Qle_bool_iff. exact E.
  - apply Qle_refl.
Qed.

Lemma LEAST_ge (a b c : Q) : c <= a -> c <= b -> c <= LEAST a b.
Proof. unfold LEAST. destruct (Qle_bool a b); auto. Qed.

Lemma GREATEST_ge_r (a b : Q) : b <= GREATEST a b.
Proof.
  unfold GREATEST. destruct (Qle_bool a b) eqn:E.
  - apply Qle_refl.
  - destruct (Qlt_le_dec b a) as [H | H].
    + apply Qlt_le_weak. exact H.
    + apply Qle_bool_iff in H. congruence.
Qed.

Lemma importance_check_iff (q : Q) : importance_check q = true <-> 0 <= q <= 1.
Proof.
  unfold importance_check. rewrite andb_true_iff, !Qle_bool_iff. tauto.
Qed.

(** An UPDATE that rewrites rows without touching their [id] leaves the row
    found under an id either as it was or rewritten. *)
Lemma find_has_id_map (i : string) (g : Memory -> Memory) (l : list Memory) :
  (forall m, id (g m) = id m) ->
  find (has_id i) (map g l) = option_map g (find (has_id i) l).
Proof.
  intro Hid. induction l as [| m l IH]; simpl; [reflexivity |].
  unfold has_id at 1. rewrite Hid. fold (has_id i m).
  destruct (has_id i m); [reflexivity | exact IH].
Qed.

Lemma find_memory_statements (i : string) (w : World) :
  find_memory i
    {| memories := memories w; memory_relations := memory_relations w;
       memory_access_log := memory_access_log w; NOW := NOW w;
       uuid_draws := uuid_draws w; console := console w;
       statements := S (statements w) |} = find_memory i w.
Proof. reflexivity. Qed.

(** What an UPDATE guarded by the CHECK does to the row found under [i]. *)
Lemma UPDATE_memories_find (where_ : Memory -> bool) (set : Memory -> Memory)
    (i : string) (w : World) (m : Memory) :
  (forall x, id (set x) = id x) ->
  find_memory i w = Some m ->
  let w' := snd (UPDATE_memories where_ set w) in
  find_memory i w' = Some m
  \/ (where_ m = true /\ importance_check (importance (set m)) = true
      /\ find_memory i w' = Some (set m)).
Proof.
  intros Hid Hfind. unfold UPDATE_memories. simpl.
  destruct (forallb _ (map set (filter where_ (memories w)))) eqn:Hall; simpl.
  - unfold find_memory in *. simpl.
    rewrite find_has_id_map, Hfind; simpl.
    + destruct (where_ m) eqn:Hw; [right | left; reflexivity].
      repeat split.
      rewrite forallb_forall in Hall. apply Hall.
      apply in_map, filter_In. split; [| exact Hw].
      apply find_some in Hfind. tauto.
    + intro x. destruct (where_ x); [apply Hid | reflexivity].
  - left. exact Hfind.
Qed.

(** One call leaves the stored importance as it was, or replaces it by the
    value the call computes, which then satisfies the CHECK. *)
Lemma apply_op_step (i : string) (op : LifecycleOp) (w : World) (m : Memory) :
  find_memory i w = Some m ->
  exists m', find_memory i (apply_op i op w) = Some m'
    /\ (importance m' = importance m
        \/ (importance m' = computed_importance op (importance m)
            /\ 0 <= importance m' <= 1)).
Proof.
  intro Hfind. destruct op as [boost | decayFactor]; simpl;
    unfold MemoryQueries.reinforce, MemoryQueries.decay, bind, query, ret.
  - match goal with |- context [UPDATE_memories ?p ?f ?w0] =>
      pose proof (UPDATE_memories_find p f i w0 m (fun x => eq_refl) Hfind) as H;
      destruct (UPDATE_memories p f w0) as [[rows | e] w1]
    end; simpl in *;
      (destruct H as [H | (_ & Hc & H)];
       [exists m; split; [exact H | left; reflexivity]
       | eexists; split; [exact H | right; split;
           [reflexivity | apply importance_check_iff; exact Hc]]]).
  - match goal with |- context [UPDATE_memories ?p ?f ?w0] =>
      pose proof (UPDATE_memories_find p f i w0 m (fun x => eq_refl) Hfind) as H;
      destruct (UPDATE_memories p f w0) as [[rows | e] w1]
    end; simpl in *;
      (destruct H as [H | (_ & Hc & H)];
       [exists m; split; [exact H | left; reflexivity]
       | eexists; split; [exact H | right; split;
           [reflexivity | apply importance_check_iff; exact Hc]]]).
Qed.

(** The primary key of [memories]. *)
Lemma primary_key (l : list Memory) (x y : Memory) :
  NoDup (map id l) -> In x l -> In y l -> id x = id y -> x = y.
Proof.
  induction l as [| a l IH]; simpl; intros Hnd Hx Hy Hid; [contradiction |].
  inversion Hnd as [| ? ? Hnotin Hnd']; subst.
  destruct Hx as [-> | Hx], Hy as [-> | Hy]; auto.
  - exfalso. apply Hnotin. rewrite Hid. apply in_map. exact Hy.
  - exfalso. apply Hnotin. rewrite <- Hid. apply in_map. exact Hx.
Qed.

Lemma has_id_true (i : string) (m : Memory) : has_id i m = true <-> id m = i.
Proof. unfold has_id. apply String.eqb_eq. Qed.

(** An active memory whose computed importance satisfies the CHECK gets
    exactly that importance. *)
Lemma apply_op_active (i : string) (op : LifecycleOp) (w : World) (m : Memory) :
  NoDup (map id (memories w)) ->
  find_memory i w = Some m ->
  deleted_at m = None ->
  0 <= computed_importance op (importance m) <= 1 ->
  exists m', find_memory i (apply_op i op w) = Some m'
    /\ importance m' = computed_importance op (importance m).
Proof.
  intros Hpk Hfind Hactive Hcheck.
  pose proof (find_some _ _ Hfind) as [Hin Hid].
  assert (Hall : forall (set : Memory -> Memory),
             importance (set m) = computed_importance op (importance m) ->
             forallb (fun x => importance_check (importance x))
               (map set (filter (fun x => has_id i x && IS_NULL (deleted_at x)) (memories w)))
             = true).
  { intros set Hset. apply forallb_forall. intros y Hy.
    apply in_map_iff in Hy as (x & <- & Hx).
    apply filter_In in Hx as [Hx Hw]. apply andb_true_iff in Hw as [Hxi _].
    assert (x = m) as ->.
    { apply (primary_key (memories w)); auto.
      apply has_id_true in Hxi, Hid. congruence. }
    rewrite Hset. apply importance_check_iff. exact Hcheck. }
  destruct op as [boost | decayFactor]; simpl in *;
    unfold MemoryQueries.reinforce, MemoryQueries.decay, bind, query, ret, UPDATE_memories;
    simpl; rewrite Hall by reflexivity; simpl;
    unfold find_memory in *; simpl;
    (rewrite find_has_id_map;
     [| intro x; destruct (has_id i x && IS_NULL (deleted_at x)); reflexivity]);
    rewrite Hfind; simpl; rewrite Hid, Hactive; simpl;
    eexists; split; reflexivity.
Qed.

(** Across a whole sequence the memory stays in the table, its importance
    stays within the CHECK's range, and it stays at or above the floor when it
    starts there and no boost is negative. *)
Lemma apply_ops_bounds (i : string) (ops : list LifecycleOp) :
  forall (w : World) (m : Memory),
    find_memory i w = Some m ->
    exists m', find_memory i (apply_ops i ops w) = Some m'
      /\ (0 <= importance m <= 1 -> 0 <= importance m' <= 1)
      /\ (1 # 100 <= importance m <= 1 -> Forall nonnegative_boost ops ->
          1 # 100 <= importance m' <= 1).
Proof.
  induction ops as [| op ops IH]; intros w m Hfind; simpl.
  - exists m. tauto.
  - destruct (apply_op_step i op w m Hfind) as (m1 & Hfind1 & Hstep).
    destruct (IH _ _ Hfind1) as (m' & Hfind' & Hcheck & Hfloor).
    exists m'. split; [exact Hfind' |]. split.
    + intro Hm. apply Hcheck.
      destruct Hstep as [-> | [_ H]]; assumption.
    + intros Hm Hops. inversion Hops as [| ? ? Hop Hops']; subst.
      apply Hfloor; [| exact Hops'].
      destruct Hstep as [-> | [Heq H]]; [exact Hm |].
      split; [| tauto]. rewrite Heq.
      destruct op as [boost | decayFactor]; simpl in *.
      * apply LEAST_ge; lra.
      * apply GREATEST_ge_r.
Qed.

(** C6, amended. Reinforce sets the importance of an active memory to
    [min(importance + boost, 1.0)] and decay sets it to
    [max(importance * decayFactor, 0.01)], whenever that value lies in
    [[0, 1]]. Over every sequence of such calls the importance stays within
    [[0, 1]] if it starts there, and within [[0.01, 1.0]] if it starts there
    and no boost is negative. *)
Theorem importance_bounded :
  forall (w : World) (i : string) (m : Memory),
    find_memory i w = Some m ->
    (forall op : LifecycleOp,
        NoDup (map id (memories w)) ->
        deleted_at m = None ->
        0 <= computed_importance op (importance m) <= 1 ->
        exists m', find_memory i (apply_op i op w) = Some m'
          /\ importance m' = computed_importance op (importance m))
    /\ (forall ops : list LifecycleOp,
        exists m', find_memory i (apply_ops i ops w) = Some m'
          /\ (0 <= importance m <= 1 -> 0 <= importance m' <= 1)
          /\ (1 # 100 <= importance m <= 1 -> Forall nonnegative_boost ops ->
              1 # 100 <= importance m' <= 1)).
Proof.
  intros w i m Hfind. split.
  - intros op Hpk Hactive Hcheck. apply apply_op_active; assumption.
  - intro ops. apply apply_ops_bounds. exact Hfind.
Qed.

End Importance.

(** C6, as stated, fails. A memory stored with importance 0, which the
    store admits, and reinforced with boost 0.005 ends with importance 0.005,
    below the floor 0.01. And a memory stored with importance 0.5 and
    reinforced with the boost -0.495, which [reinforce] passes on unchecked,
    ends with importance 0.005 as well. *)
Lemma importance_floor_counterexample :
  (let w := after_storing [store_params "note" (Some 0) JUndefined] empty_world in
   exists m m',
     find_memory (example_id 0) w = Some m
     /\ (0 <= importance m <= 1)%Q
     /\ find_memory (example_id 0) (apply_ops (example_id 0) [Reinforce (Some (5 # 1000))] w)
        = Some m'
     /\ ~ (1 # 100 <= importance m')%Q)
  /\ (let w := after_storing [store_params "note" (Some (5 # 10)) JUndefined] empty_world in
      exists m m',
        find_memory (example_id 0) w = Some m
        /\ (1 # 100 <= importance m <= 1)%Q
        /\ find_memory (example_id 0)
             (apply_ops (example_id 0) [Reinforce (Some (- (495 # 1000)))] w) = Some m'
        /\ ~ (1 # 100 <= importance m')%Q).
Proof.
  split; vm_compute; eexists; eexists;
    (split; [reflexivity |]);
    (split; [split; discriminate |]);
    (split; [reflexivity |]);
    intro H; apply H; reflexivity.
Qed.

(** A memory stored with importance 0.5, reinforced by 0.7 and decayed by
    0.1 twice. *)
Lemma importance_bounded_witness :
  let w := after_storing [store_params "note" (Some (5 # 10)) JUndefined] empty_world in
  let ops := [Reinforce (Some (7 # 10)); Decay (Some (1 # 10)); Decay (Some (1 # 10))] in
  exists m m',
    find_memory (example_id 0) w = Some m
    /\ find_memory (example_id 0) (apply_ops (example_id 0) ops w) = Some m'
    /\ (1 # 100 <= importance m' <= 1)%Q.
Proof.
  intros w ops.
  assert (Hfind : find_memory (example_id 0) w
                  = Some (hd (Build_Memory "" "" None [] [] [] None 0 0 0 0 0 None None None)
                            (memories w))) by (vm_compute; reflexivity).
  destruct (importance_bounded w (example_id 0) _ Hfind) as [_ H].
  destruct (H ops) as (m' & Hm' & _ & Hfloor).
  eexists. exists m'. split; [exact Hfind |]. split; [exact Hm' |].
  apply Hfloor.
  - vm_compute. split; discriminate.
  - repeat constructor; vm_compute; discriminate.
Defined.

(** ** The limit parameter *)

Section Limit.

Import Security.


Lemma validateLimit_present (v : JsValue) (max : Z) :
  absent v = false ->
  validateLimit v max =
  match Js.parseInt v with
  | None => Err "Limit must be a positive integer"
  | Some num =>
      if (num <? 1)%Z then Err "Limit must be a positive integer"
      else Ok (Z.min num max)
  end.
Proof. destruct v; simpl; intro H; try discriminate; reflexivity. Qed.



Lemma validateLimit_of_maximum (max : Z) :
  (1 <= max)%Z -> Js.parseInt (JNumber max) = Some max ->
  validateLimit (JNumber max) max = Ok max.
Proof.
  intros Hmax Hp. rewrite validateLimit_present, Hp by reflexivity.
  destruct (Z.ltb_spec max 1); [lia |].
  f_equal. lia.
Qed.












Context `{E : Externals}.
Variable cfg : Config.







End Limit.

Example parseInt_number : Js.parseInt (JNumber 1000) = Some 1000%Z.
Proof. reflexivity. Qed.

Example parseInt_prefix : Js.parseInt (JString " 12abc") = Some 12%Z.
Proof. reflexivity. Qed.

Example parseInt_negative : Js.parseInt (JString "-3") = Some (-3)%Z.
Proof. reflexivity. Qed.

Example parseInt_no_digits : Js.parseInt (JString "ten") = None.
Proof. reflexivity. Qed.

Example parseInt_array : Js.parseInt (JArray [JNumber 7; JNumber 8]) = Some 7%Z.
Proof. reflexivity. Qed.


(** ** Sorting, greatest key first *)

Section Sorting.

Context {A : Type}.
Variable key : A -> Q.

Lemma insert_desc_perm (x : A) (l : list A) :
  Permutation (x :: l) (insert_desc key x l).
Proof.
  induction l as [| y l IH]; simpl; [reflexivity |].
  destruct (Qle_bool (key y) (key x)); [reflexivity |].
  rewrite perm_swap. apply perm_skip. exact IH.
Qed.

Lemma sort_desc_perm (l : list A) : Permutation l (sort_desc key l).
Proof.
  induction l as [| x l IH]; simpl; [reflexivity |].
  rewrite <- insert_desc_perm. apply perm_skip. exact IH.
Qed.

Lemma sort_desc_In (x : A) (l : list A) : In x (sort_desc key l) <-> In x l.
Proof.
  split; apply Permutation_in; [symmetry |]; apply sort_desc_perm.
Qed.

Lemma insert_desc_sorted (x : A) (l : list A) :
  StronglySorted (desc key) l -> StronglySorted (desc key) (insert_desc key x l).
Proof.
  induction l as [| y l IH]; simpl; intro Hs.
  - constructor; constructor.
  - inversion Hs as [| ? ? Hs' Hall]; subst.
    destruct (Qle_bool (key y) (key x)) eqn:E.
    + apply Qle_bool_iff in E.
      constructor; [exact Hs |].
      constructor; [exact E |].
      eapply Forall_impl; [| exact Hall].
      unfold desc. intros z Hz. eapply Qle_trans; eassumption.
    + assert (Hlt : key x < key y).
      { destruct (Qlt_le_dec (key x) (key y)) as [H | H]; [exact H |].
        apply Qle_bool_iff in H. congruence. }
      constructor; [apply IH; exact Hs' |].
      eapply Permutation_Forall; [apply insert_desc_perm |].
      constructor; [apply Qlt_le_weak; exact Hlt | exact Hall].
Qed.

Lemma sort_desc_sorted (l : list A) : StronglySorted (desc key) (sort_desc key l).
Proof.
  induction l as [| x l IH]; simpl; [constructor |].
  apply insert_desc_sorted. exact IH.
Qed.

Lemma firstn_sorted (n : nat) (l : list A) :
  StronglySorted (desc key) l -> StronglySorted (desc key) (firstn n l).
Proof.
  revert l. induction n as [| n IH]; intros [| x l] Hs; simpl; try constructor.
  - apply IH. inversion Hs; assumption.
  - inversion Hs as [| ? ? _ Hall]; subst.
    rewrite Forall_forall in *. intros y Hy. apply Hall.
    rewrite <- (firstn_skipn n l). apply in_or_app. left. exact Hy.
Qed.

Lemma filter_sorted (p : A -> bool) (l : list A) :
  StronglySorted (desc key) l -> StronglySorted (desc key) (filter p l).
Proof.
  induction l as [| x l IH]; simpl; intro Hs; [constructor |].
  inversion Hs as [| ? ? Hs' Hall]; subst.
  destruct (p x); [| apply IH; exact Hs'].
  constructor; [apply IH; exact Hs' |].
  rewrite Forall_forall in *. intros y Hy. apply Hall.
  apply filter_In in Hy. tauto.
Qed.

(** In a sorted list, fewer than [n] elements have a key strictly above
    that of an element among the first [n]. *)
Lemma firstn_rank (n : nat) (l : list A) (r : A) :
  StronglySorted (desc key) l -> In r (firstn n l) ->
  (List.length (filter (fun c => negb (Qle_bool (key c) (key r))) l) < n)%nat.
Proof.
  revert l. induction n as [| n IH]; intros [| x l] Hs Hin; simpl in *; try contradiction.
  inversion Hs as [| ? ? Hs' Hall]; subst.
  destruct Hin as [-> | Hin].
  - assert (Hnone : filter (fun c => negb (Qle_bool (key c) (key r))) l = []).
    { clear IH Hs.
      induction l as [| y l IHl]; simpl; [reflexivity |].
      inversion Hall as [| ? ? Hy Hall']; subst.
      inversion Hs' as [| ? ? Hs'' _]; subst.
      unfold desc in Hy. apply Qle_bool_iff in Hy. rewrite Hy. simpl.
      apply IHl; assumption. }
    assert (Hrefl : Qle_bool (key r) (key r) = true) by (apply Qle_bool_iff, Qle_refl).
    rewrite Hrefl, Hnone. simpl. lia.
  - specialize (IH l Hs' Hin).
    destruct (negb (Qle_bool (key x) (key r))); simpl; lia.
Qed.

(** In a sorted list, an element with at most [n] elements whose key is at
    least its own, itself counted, is among the first [n]. *)
Lemma rank_firstn (n : nat) (l : list A) (r : A) :
  StronglySorted (desc key) l -> In r l ->
  (List.length (filter (fun c => Qle_bool (key r) (key c)) l) <= n)%nat ->
  In r (firstn n l).
Proof.
  revert n. induction l as [| x l IH]; intros n Hs Hin Hcount; simpl in *; [contradiction |].
  inversion Hs as [| ? ? Hs' Hall]; subst.
  destruct Hin as [-> | Hin].
  - assert (Hrefl : Qle_bool (key r) (key r) = true) by (apply Qle_bool_iff, Qle_refl).
    rewrite Hrefl in Hcount. simpl in Hcount.
    destruct n as [| n]; [lia |]. left. reflexivity.
  - assert (Hx : Qle_bool (key r) (key x) = true).
    { apply Qle_bool_iff. rewrite Forall_forall in Hall. apply (Hall r Hin). }
    rewrite Hx in Hcount. simpl in Hcount.
    destruct n as [| n]; [lia |]. right.
    apply IH; [exact Hs' | exact Hin | lia].
Qed.

Lemma filter_length_perm (p : A -> bool) (l l' : list A) :
  Permutation l l' -> List.length (filter p l) = List.length (filter p l').
Proof.
  intro H. induction H; simpl; try congruence.
  - destruct (p x); simpl; congruence.
  - destruct (p x), (p y); reflexivity.
Qed.

End Sorting.

(** ** Search: sort, limit, then threshold *)

Section Search.

Context `{E : Externals}.
Variable cfg : Config.

(** What the call returns, and the one statement it costs. *)
Lemma search_unfold (a : MemoryQueries.SearchArgs) (w : World) :
  let L := nullish (MemoryQueries.s_limit a) 10%Z in
  let m := nullish (MemoryQueries.s_minScore a) (3 # 10) in
  fst (MemoryQueries.search cfg a w)
  = (if (L <? 0)%Z then Err "LIMIT must not be negative"
     else Ok (search_spec (candidates cfg a w) (Z.to_nat L) m)).
Proof.
  unfold MemoryQueries.search, bind, query, ret, LIMIT, search_spec, candidates. simpl.
  destruct (nullish (MemoryQueries.s_limit a) 10 <? 0)%Z; reflexivity.
Qed.

Lemma search_spec_props (C : list SearchRow) (L : nat) (m : Q) :
  (List.length (search_spec C L m) <= L)%nat
  /\ StronglySorted (desc hybrid_score) (search_spec C L m)
  /\ (forall r, In r (search_spec C L m) ->
        In r C /\ m <= hybrid_score r /\ (count_above C (hybrid_score r) < L)%nat)
  /\ (forall c, In c C -> m <= hybrid_score c ->
        (count_at_least C (hybrid_score c) <= L)%nat -> In c (search_spec C L m)).
Proof.
  unfold search_spec.
  pose proof (sort_desc_sorted hybrid_score C) as Hsorted.
  pose proof (sort_desc_perm hybrid_score C) as Hperm.
  repeat split.
  - eapply Nat.le_trans; [apply filter_length_le |].
    rewrite length_firstn. apply Nat.le_min_l.
  - apply (filter_sorted hybrid_score), (firstn_sorted hybrid_score). exact Hsorted.
  - apply filter_In in H as [H _].
    apply (sort_desc_In hybrid_score).
    rewrite <- (firstn_skipn L (sort_desc hybrid_score C)).
    apply in_or_app. left. exact H.
  - apply filter_In in H as [_ H]. apply Qle_bool_iff. exact H.
  - apply filter_In in H as [H _].
    unfold count_above.
    rewrite (filter_length_perm _ _ _ Hperm).
    apply (firstn_rank hybrid_score); assumption.
  - intros c Hc Hm Hcount. apply filter_In. split.
    + apply (rank_firstn hybrid_score); [exact Hsorted | apply sort_desc_In; exact Hc |].
      unfold count_at_least in Hcount.
      rewrite <- (filter_length_perm _ _ _ Hperm). exact Hcount.
    + apply Qle_bool_iff. exact Hm.
Qed.

End Search.

(** Two candidates score 1 and 0.6; with limit 2 and threshold 0.7 the
    search returns one memory. *)
Example search_fewer_than_limit :
  let a := {| MemoryQueries.s_embedding := example_vector 4;
              MemoryQueries.s_limit := Some 2%Z;
              MemoryQueries.s_minScore := Some (7 # 10);
              MemoryQueries.s_tags := None;
              MemoryQueries.s_source := None |} in
  List.length (@candidates example_externals default_config a two_notes) = 2%nat
  /\ map (fun r => content (row r))
       (search_spec (@candidates example_externals default_config a two_notes) 2 (7 # 10))
     = ["note"%string]
  /\ exists results,
       fst (@MemoryQueries.search example_externals default_config a two_notes) = Ok results
       /\ map (fun r => content (row r)) results = ["note"%string].
Proof.
  vm_compute. repeat split. eexists. split; reflexivity.
Qed.


(** ** What the WHERE clauses admit *)

Section Visibility.

Context `{E : Externals}.
Variable cfg : Config.

Lemma in_firstn {A : Type} (n : nat) (l : list A) (x : A) :
  In x (firstn n l) -> In x l.
Proof.
  intro H. rewrite <- (firstn_skipn n l). apply in_or_app. left. exact H.
Qed.

Lemma overlap_iff (a b : list string) :
  overlap a b = true <-> exists t, In t a /\ In t b.
Proof.
  unfold overlap. rewrite existsb_exists. split.
  - intros (x & Hx & Hb). apply existsb_exists in Hb as (y & Hy & Heq).
    apply String.eqb_eq in Heq. subst. eauto.
  - intros (t & Ha & Hb). exists t. split; [exact Ha |].
    apply existsb_exists. exists t. split; [exact Hb | apply String.eqb_refl].
Qed.

Lemma IS_NULL_iff {A : Type} (x : option A) : IS_NULL x = true <-> x = None.
Proof. destruct x; simpl; split; congruence. Qed.

(** Every candidate of a search is a row of the table that is not
    soft-deleted, carries one of the tags asked for when a non-empty tag
    filter is given, and has exactly the source asked for when a non-empty
    source filter is given. Its [expires_at] is not looked at. *)
Lemma candidates_where (a : MemoryQueries.SearchArgs) (w : World) (r : SearchRow) :
  In r (candidates cfg a w) ->
  In (row r) (memories w)
  /\ deleted_at (row r) = None
  /\ (forall tagFilter, MemoryQueries.s_tags a = Some tagFilter -> tagFilter <> [] ->
        exists t, In t (tags (row r)) /\ In t tagFilter)
  /\ (forall sourceFilter, or_null (MemoryQueries.s_source a) = Some sourceFilter ->
        source (row r) = Some sourceFilter).
Proof.
  unfold candidates. intro H.
  apply in_map_iff in H as (m & <- & Hm). simpl.
  apply filter_In in Hm as [Hin Hw].
  unfold WHERE, MemoryQueries.whereConditions in Hw.
  rewrite !forallb_app in Hw.
  apply andb_true_iff in Hw as [Hdel Hw]. apply andb_true_iff in Hw as [Htags Hsrc].
  simpl in Hdel. rewrite andb_true_r in Hdel. apply IS_NULL_iff in Hdel.
  repeat split; try assumption.
  - intros tagFilter Ht Hne. rewrite Ht in Htags.
    destruct tagFilter as [| t0 ts]; [congruence |]. simpl in Htags.
    rewrite andb_true_r in Htags. apply overlap_iff in Htags. exact Htags.
  - intros sourceFilter Hs. rewrite Hs in Hsrc. simpl in Hsrc.
    rewrite andb_true_r in Hsrc.
    destruct (source m) as [s |]; [| discriminate].
    apply String.eqb_eq in Hsrc. congruence.
Qed.

Lemma search_results_where (a : MemoryQueries.SearchArgs) (w : World)
    (results : list SearchRow) (r : SearchRow) :
  fst (MemoryQueries.search cfg a w) = Ok results ->
  In r results ->
  In r (candidates cfg a w).
Proof.
  intros Hres Hin. rewrite search_unfold in Hres.
  destruct (_ <? 0)%Z; [discriminate |]. injection Hres as <-.
  apply search_spec_props in Hin. tauto.
Qed.


End Visibility.


(** C2, evaluated where it fails. A soft-deleted memory that is the target
    of a relation is returned by get_related for the source of that
    relation: [RelationQueries.getByMemory] joins [memories] without testing
    [deleted_at], unlike [getById], [search] and [getRelated]. *)
Theorem get_related_returns_soft_deleted :
  let params := {| get_related.p_memoryId := JString (example_id 0);
                   get_related.p_limit := JUndefined;
                   get_related.p_includeExplicit := JUndefined;
                   get_related.p_includeSimilar := JUndefined |} in
  exists (gone : Memory) (payload : get_related.Payload),
    find_memory (example_id 1) soft_deleted_endpoint = Some gone
    /\ deleted_at gone = Some 0%Z
    /\ fst (@get_related.handler example_externals params soft_deleted_endpoint)
       = Success payload
    /\ map get_related.rel_id (get_related.r_related payload) = [id gone]
    /\ map get_related.rel_source (get_related.r_related payload) = ["explicit"%string].
Proof.
  vm_compute. eexists. eexists. repeat split; reflexivity.
Qed.

(** ** Recall: the merge keeps the best observation of each memory *)

Section Merge.

Import recall_context.

Lemma Map_get_set_same (k : string) (v : Recalled) (m : ResultMap) :
  Map_get k (Map_set k v m) = Some v.
Proof.
  induction m as [| [k' v'] m IH]; simpl.
  - rewrite String.eqb_refl. reflexivity.
  - destruct (String.eqb k' k) eqn:E; simpl.
    + rewrite String.eqb_refl. reflexivity.
    + rewrite E. exact IH.
Qed.

Lemma Map_get_set_other (k k0 : string) (v : Recalled) (m : ResultMap) :
  k0 <> k -> Map_get k0 (Map_set k v m) = Map_get k0 m.
Proof.
  intro Hne. induction m as [| [k' v'] m IH]; simpl.
  - destruct (String.eqb k k0) eqn:E; [| reflexivity].
    apply String.eqb_eq in E. congruence.
  - destruct (String.eqb k' k) eqn:E; simpl.
    + apply String.eqb_eq in E. subst k'.
      destruct (String.eqb k k0) eqn:E0; [| reflexivity].
      apply String.eqb_eq in E0. congruence.
    + destruct (String.eqb k' k0); [reflexivity | exact IH].
Qed.

Lemma Map_get_None (k : string) (m : ResultMap) :
  Map_get k m = None <-> ~ In k (map fst m).
Proof.
  induction m as [| [k' v'] m IH]; simpl; [tauto |].
  destruct (String.eqb k' k) eqn:E.
  - apply String.eqb_eq in E. split; [discriminate | intro H; exfalso; apply H; auto].
  - apply String.eqb_neq in E. rewrite IH. tauto.
Qed.

Lemma Map_get_In (k : string) (v : Recalled) (m : ResultMap) :
  Map_get k m = Some v -> In (k, v) m.
Proof.
  induction m as [| [k' v'] m IH]; simpl; [discriminate |].
  destruct (String.eqb k' k) eqn:E.
  - apply String.eqb_eq in E. intro H. left. congruence.
  - intro H. right. apply IH. exact H.
Qed.

Lemma In_Map_get (k : string) (v : Recalled) (m : ResultMap) :
  NoDup (map fst m) -> In (k, v) m -> Map_get k m = Some v.
Proof.
  induction m as [| [k' v'] m IH]; simpl; intros Hnd Hin; [contradiction |].
  inversion Hnd as [| ? ? Hnotin Hnd']; subst.
  destruct Hin as [Heq | Hin].
  - injection Heq as -> ->. rewrite String.eqb_refl. reflexivity.
  - destruct (String.eqb k' k) eqn:E.
    + apply String.eqb_eq in E. subst k'. exfalso. apply Hnotin.
      change k with (fst (k, v)). apply in_map. exact Hin.
    + apply IH; assumption.
Qed.

(** [set] keeps the keys where they are and adds a new key at the end. *)
Lemma Map_set_keys (k : string) (v : Recalled) (m : ResultMap) :
  map fst (Map_set k v m)
  = if existsb (String.eqb k) (map fst m) then map fst m else map fst m ++ [k].
Proof.
  induction m as [| [k' v'] m IH]; simpl; [reflexivity |].
  rewrite (String.eqb_sym k k').
  destruct (String.eqb k' k) eqn:E; simpl.
  - apply String.eqb_eq in E. subst. reflexivity.
  - rewrite IH. destruct (existsb _ _); reflexivity.
Qed.

Lemma Map_set_NoDup (k : string) (v : Recalled) (m : ResultMap) :
  NoDup (map fst m) -> NoDup (map fst (Map_set k v m)).
Proof.
  intro Hnd. rewrite Map_set_keys.
  destruct (existsb (String.eqb k) (map fst m)) eqn:E; [exact Hnd |].
  apply NoDup_app; [exact Hnd | constructor; [simpl; tauto | constructor] |].
  intros x Hx [Heq | []]. subst x.
  assert (existsb (String.eqb k) (map fst m) = true); [| congruence].
  apply existsb_exists. exists k. split; [exact Hx | apply String.eqb_refl].
Qed.

(** The state of the merge after a sequence of observations [seen]: keys
    are distinct; an entry sits under its own identifier and is one of the
    observations, with the text of its query; and every observation is
    represented by an entry scoring at least as much. *)
Record merged (seen : list (JsValue * SearchRow)) (m : ResultMap) : Prop := {
  merged_keys : NoDup (map fst m);
  merged_seen : forall k v, Map_get k m = Some v ->
                  k = recalled_id v /\ In (matchedQuery v, result_ v) seen;
  merged_best : forall q r, In (q, r) seen ->
                  exists v, Map_get (id (row r)) m = Some v
                    /\ hybrid_score r <= recalled_score v
}.

Lemma merged_nil : merged [] [].
Proof.
  constructor; simpl.
  - constructor.
  - discriminate.
  - contradiction.
Qed.

Lemma keep_best_merged (seen : list (JsValue * SearchRow)) (m : ResultMap)
    (q : JsValue) (r : SearchRow) :
  merged seen m -> merged (seen ++ [(q, r)]) (keep_best q m r).
Proof.
  intros [Hkeys Hseen Hbest]. unfold keep_best.
  destruct (Map_get (id (row r)) m) as [existing |] eqn:Hget.
  - destruct (Qle_bool (hybrid_score r) (hybrid_score (result_ existing))) eqn:Hle; simpl.
    + (* the earlier entry stays *)
      apply Qle_bool_iff in Hle.
      constructor; [exact Hkeys | |].
      * intros k v Hk. destruct (Hseen k v Hk) as [-> Hin].
        split; [reflexivity | apply in_or_app; left; exact Hin].
      * intros q0 r0 Hin. apply in_app_or in Hin as [Hin | [Heq | []]].
        -- apply Hbest with q0. exact Hin.
        -- injection Heq as <- <-. exists existing. split; [exact Hget | exact Hle].
    + (* the new row replaces it *)
      assert (Hlt : recalled_score existing < hybrid_score r).
      { destruct (Qlt_le_dec (recalled_score existing) (hybrid_score r)) as [H | H]; [exact H |].
        apply Qle_bool_iff in H. unfold recalled_score in H. congruence. }
      constructor; [apply Map_set_NoDup; exact Hkeys | |].
      * intros k v Hk.
        destruct (String.eqb_spec k (id (row r))) as [-> | Hne].
        -- rewrite Map_get_set_same in Hk. injection Hk as <-.
           split; [reflexivity | apply in_or_app; right; left; reflexivity].
        -- rewrite Map_get_set_other in Hk by exact Hne.
           destruct (Hseen k v Hk) as [-> Hin].
           split; [reflexivity | apply in_or_app; left; exact Hin].
      * intros q0 r0 Hin. apply in_app_or in Hin as [Hin | [Heq | []]].
        -- destruct (Hbest q0 r0 Hin) as (v & Hv & Hscore).
           destruct (String.eqb_spec (id (row r0)) (id (row r))) as [Heq | Hne].
           ++ rewrite Heq in *. rewrite Hget in Hv. injection Hv as <-.
              eexists. split; [apply Map_get_set_same |].
              unfold recalled_score; simpl.
              apply Qlt_le_weak. eapply Qle_lt_trans; eassumption.
           ++ exists v. split; [| exact Hscore].
              rewrite Map_get_set_other by exact Hne. exact Hv.
        -- injection Heq as <- <-. eexists. split; [apply Map_get_set_same |].
           unfold recalled_score; simpl. apply Qle_refl.
  - (* a first observation of this memory *)
    simpl. constructor; [apply Map_set_NoDup; exact Hkeys | |].
    + intros k v Hk.
      destruct (String.eqb_spec k (id (row r))) as [-> | Hne].
      * rewrite Map_get_set_same in Hk. injection Hk as <-.
        split; [reflexivity | apply in_or_app; right; left; reflexivity].
      * rewrite Map_get_set_other in Hk by exact Hne.
        destruct (Hseen k v Hk) as [-> Hin].
        split; [reflexivity | apply in_or_app; left; exact Hin].
    + intros q0 r0 Hin. apply in_app_or in Hin as [Hin | [Heq | []]].
      * destruct (Hbest q0 r0 Hin) as (v & Hv & Hscore).
        exists v. split; [| exact Hscore].
        rewrite Map_get_set_other; [exact Hv |].
        intro Heq. rewrite Heq in Hv. congruence.
      * injection Heq as <- <-. eexists. split; [apply Map_get_set_same |].
        unfold recalled_score; simpl. apply Qle_refl.
Qed.

Lemma merge_results_merged (seen : list (JsValue * SearchRow)) (m : ResultMap)
    (q : JsValue) (results : list SearchRow) :
  merged seen m -> merged (seen ++ map (pair q) results) (merge_results q results m).
Proof.
  unfold merge_results. revert seen m.
  induction results as [| r results IH]; intros seen m Hm; simpl.
  - rewrite app_nil_r. exact Hm.
  - change (seen ++ (q, r) :: map (pair q) results)
      with (seen ++ [(q, r)] ++ map (pair q) results).
    rewrite app_assoc. apply IH. apply keep_best_merged. exact Hm.
Qed.

Lemma merge_all_merged (runs : list Run) :
  forall (seen : list (JsValue * SearchRow)) (m : ResultMap),
    merged seen m -> merged (seen ++ observations runs) (merge_all runs m).
Proof.
  induction runs as [| [q results] runs IH]; intros seen m Hm; simpl.
  - rewrite app_nil_r. exact Hm.
  - unfold observations. simpl. fold (observations runs).
    rewrite app_assoc. apply IH. apply merge_results_merged. exact Hm.
Qed.

Lemma observations_In (runs : list Run) (q : JsValue) (r : SearchRow) :
  In (q, r) (observations runs) <-> exists results, In (q, results) runs /\ In r results.
Proof.
  unfold observations. rewrite in_flat_map. split.
  - intros ([q' results] & Hrun & Hin). simpl in Hin.
    apply in_map_iff in Hin as (r' & Heq & Hr). injection Heq as <- <-.
    exists results. tauto.
  - intros (results & Hrun & Hr). exists (q, results). split; [exact Hrun |].
    simpl. apply in_map. exact Hr.
Qed.

End Merge.

(** ** Recall: from the handler to the merge *)

Section Recall.

Import recall_context.

Context `{E : Externals}.
Variable cfg : Config.

Lemma same_store_refl (w : World) : same_store w w.
Proof. repeat split. Qed.

Lemma same_store_trans (w1 w2 w3 : World) :
  same_store w1 w2 -> same_store w2 w3 -> same_store w1 w3.
Proof.
  unfold same_store. intros (? & ? & ? & ?) (? & ? & ? & ?).
  repeat split; congruence.
Qed.

Lemma candidates_same_store (a : MemoryQueries.SearchArgs) (w w' : World) :
  same_store w w' -> candidates cfg a w' = candidates cfg a w.
Proof.
  intros (Hm & _ & _ & Hn). unfold candidates. rewrite Hm, Hn. reflexivity.
Qed.

(** A search changes nothing in the store. *)
Lemma search_same_store (a : MemoryQueries.SearchArgs) (w : World) :
  same_store w (snd (MemoryQueries.search cfg a w)).
Proof.
  unfold MemoryQueries.search, bind, query, ret, LIMIT. simpl.
  destruct (_ <? 0)%Z; simpl; repeat split.
Qed.

Lemma normalizeEmbeddingDimension_same_store (e : list Q) (w : World) :
  same_store w (snd (Generator.normalizeEmbeddingDimension cfg e w)).
Proof.
  unfold Generator.normalizeEmbeddingDimension, bind, ret, console_log.
  destruct (_ =? _)%nat; [apply same_store_refl |].
  destruct (_ <? _)%nat; simpl; repeat split.
Qed.

Lemma generateEmbedding_same_store (text : JsValue) (w : World) :
  same_store w (snd (Generator.generateEmbedding cfg text w)).
Proof.
  unfold Generator.generateEmbedding, bind, lift, throw.
  destruct text; try apply same_store_refl.
  destruct (_ =? _)%nat; [apply same_store_refl |].
  destruct (embedding_provider _); [| apply same_store_refl].
  apply normalizeEmbeddingDimension_same_store.
Qed.

Lemma generateEmbeddings_same_store (texts : list JsValue) :
  forall w : World, same_store w (snd (Generator.generateEmbeddings cfg texts w)).
Proof.
  induction texts as [| text texts IH]; intro w; simpl; [apply same_store_refl |].
  unfold bind, ret.
  pose proof (generateEmbedding_same_store text w) as H1.
  destruct (Generator.generateEmbedding cfg text w) as [[e | err] w1]; simpl in *; [| exact H1].
  pose proof (IH w1) as H2.
  destruct (Generator.generateEmbeddings cfg texts w1) as [[es | err] w2]; simpl in *;
    eapply same_store_trans; eassumption.
Qed.

(** One embedding per text, in order. *)
Lemma generateEmbeddings_length (texts : list JsValue) :
  forall (w : World) (es : list (list Q)),
    fst (Generator.generateEmbeddings cfg texts w) = Ok es ->
    List.length es = List.length texts.
Proof.
  induction texts as [| text texts IH]; intros w es; simpl.
  - intro H. injection H as <-. reflexivity.
  - unfold bind, ret.
    destruct (Generator.generateEmbedding cfg text w) as [[e | err] w1]; simpl; [| discriminate].
    specialize (IH w1).
    destruct (Generator.generateEmbeddings cfg texts w1) as [[es' | err] w2]; simpl in *;
      [| discriminate].
    intro H. injection H as <-. simpl. f_equal. apply IH. reflexivity.
Qed.

(** The loop over the queries computes the merge of the runs. *)
Lemma search_each_runs (perQuery : Z) (minScore : Q) (work : list (JsValue * list Q)) :
  (0 <= perQuery)%Z ->
  forall (w0 w : World) (allResults : ResultMap),
    same_store w0 w ->
    fst (search_each cfg perQuery minScore work allResults w)
    = Ok (merge_all (recall_runs cfg perQuery minScore work w0) allResults)
    /\ same_store w0 (snd (search_each cfg perQuery minScore work allResults w)).
Proof.
  intro Hper. induction work as [| [q e] work IH]; intros w0 w allResults Hsame; simpl.
  - split; [reflexivity | exact Hsame].
  - unfold bind.
    pose proof (search_unfold cfg (recall_args perQuery minScore e) w) as Hres.
    pose proof (search_same_store (recall_args perQuery minScore e) w) as Hsame'.
    unfold recall_args in *.
    destruct (MemoryQueries.search cfg _ w) as [[results | err] w1]; simpl in *.
    + destruct (Z.ltb_spec perQuery 0); [lia |].
      injection Hres as ->.
      fold (recall_args perQuery minScore e).
      rewrite (candidates_same_store _ w0 w Hsame).
      apply IH. eapply same_store_trans; eassumption.
    + destruct (Z.ltb_spec perQuery 0); [lia | discriminate].
Qed.

Lemma validateLimit_range (v : JsValue) (max l : Z) :
  (1 <= max)%Z -> Security.validateLimit v max = Ok l -> (1 <= l)%Z.
Proof.
  intros Hmax. unfold Security.validateLimit.
  destruct v; try (intro Hok; injection Hok as <-; lia);
    (destruct (Js.parseInt _) as [num |]; [| discriminate];
     destruct (Z.ltb_spec num 1) as [Hlt | Hge]; [discriminate |];
     intro Hok; injection Hok as <-; lia).
Qed.

Lemma ceil_div_nonneg (a b : Z) : (0 <= a)%Z -> (0 < b)%Z -> (0 <= ceil_div a b)%Z.
Proof.
  intros Ha Hb. unfold ceil_div.
  assert ((- a) / b <= 0)%Z; [| lia].
  apply Z.div_le_upper_bound; lia.
Qed.

End Recall.

Section RecallMerge.

Import recall_context.

Lemma NoDup_map_firstn {A B : Type} (f : A -> B) (n : nat) (l : list A) :
  NoDup (map f l) -> NoDup (map f (firstn n l)).
Proof.
  intro H. rewrite <- (firstn_skipn n l), map_app in H.
  eapply NoDup_app_remove_r. exact H.
Qed.

Lemma merge_all_keys (runs : list Run) :
  map recalled_id (Map_values (merge_all runs [])) = map fst (merge_all runs []).
Proof.
  pose proof (merge_all_merged runs [] [] merged_nil) as [Hkeys Hseen _].
  unfold Map_values. rewrite map_map. apply map_ext_in.
  intros [k v] Hin. simpl.
  apply In_Map_get in Hin; [| exact Hkeys].
  destruct (Hseen k v Hin) as [-> _]. reflexivity.
Qed.

Lemma merge_all_entry (runs : list Run) (e : Recalled) :
  In e (Map_values (merge_all runs [])) ->
  Map_get (recalled_id e) (merge_all runs []) = Some e.
Proof.
  pose proof (merge_all_merged runs [] [] merged_nil) as [Hkeys Hseen _].
  unfold Map_values. intro Hin. apply in_map_iff in Hin as ([k v] & <- & Hin). simpl.
  apply In_Map_get in Hin; [| exact Hkeys].
  destruct (Hseen k v Hin) as [<- _]. exact Hin.
Qed.

(** The merged set and the final list cut from it. *)
Lemma combine_results_props (runs : list Run) (limit : Z) :
  let all := Map_values (merge_all runs []) in
  let combined := combine_results limit (merge_all runs []) in
  NoDup (map recalled_id all)
  /\ (forall q results r, In (q, results) runs -> In r results ->
        exists e, In e all /\ recalled_id e = id (row r)
                  /\ hybrid_score r <= recalled_score e)
  /\ (forall e, In e all ->
        (exists results, In (matchedQuery e, results) runs /\ In (result_ e) results)
        /\ (forall q results r, In (q, results) runs -> In r results ->
              id (row r) = recalled_id e -> hybrid_score r <= recalled_score e))
  /\ NoDup (map recalled_id combined)
  /\ (List.length combined <= Z.to_nat limit)%nat
  /\ StronglySorted (desc recalled_score) combined
  /\ (forall e, In e combined -> In e all)
  /\ ((List.length all <= Z.to_nat limit)%nat -> Permutation all combined).
Proof.
  intros all combined.
  pose proof (merge_all_merged runs [] [] merged_nil) as [Hkeys Hseen Hbest].
  simpl in Hseen, Hbest.
  assert (Hnd : NoDup (map recalled_id all)).
  { unfold all. rewrite merge_all_keys. exact Hkeys. }
  split; [exact Hnd |]. split; [| split; [| split; [| split; [| split; [| split]]]]].
  - intros q results r Hrun Hr.
    destruct (Hbest q r) as (v & Hv & Hscore).
    { apply observations_In. eauto. }
    exists v. split; [| split; [| exact Hscore]].
    + apply Map_get_In in Hv. unfold all, Map_values.
      change v with (snd (id (row r), v)). apply in_map. exact Hv.
    + destruct (Hseen _ _ Hv) as [Hk _]. symmetry. exact Hk.
  - intros e He. pose proof (merge_all_entry runs e He) as Hget. split.
    + destruct (Hseen _ _ Hget) as [_ Hin]. apply observations_In in Hin. exact Hin.
    + intros q results r Hrun Hr Hid.
      destruct (Hbest q r) as (v & Hv & Hscore).
      { apply observations_In. eauto. }
      rewrite Hid, Hget in Hv. injection Hv as <-. exact Hscore.
  - unfold combined, combine_results. apply NoDup_map_firstn.
    eapply Permutation_NoDup; [| exact Hnd].
    apply Permutation_map, sort_desc_perm.
  - unfold combined, combine_results. rewrite length_firstn. apply Nat.le_min_l.
  - unfold combined, combine_results.
    apply (firstn_sorted recalled_score), (sort_desc_sorted recalled_score).
  - unfold combined, combine_results. intros e He.
    apply in_firstn in He. apply sort_desc_In in He. exact He.
  - intro Hlen. unfold combined, combine_results.
    rewrite firstn_all2.
    + apply sort_desc_perm.
    + rewrite <- (Permutation_length (sort_desc_perm _ _)). exact Hlen.
Qed.

End RecallMerge.

Section RecallHandler.

Import recall_context.

Context `{E : Externals}.
Variable cfg : Config.

(** What [recall] computes when it succeeds. *)
Lemma recall_unfold (params : Params) (w : World)
    (task : string) (contextItems : list JsValue) (combined : list Recalled) :
  fst (recall cfg params w) = Ok (task, contextItems, combined) ->
  exists (limit : Z) (embeddings : list (list Q)),
    let queries := JString task :: firstn 10 contextItems in
    let perQuery := (ceil_div limit (Z.of_nat (List.length queries)) + 5)%Z in
    let minScore := nullish (p_minScore params) (25 # 100) in
    Security.validateQuery (p_task params) = Ok task
    /\ contextItems = nullish (p_context params) []
    /\ Security.validateLimit (p_limit params) 50 = Ok limit
    /\ List.length embeddings = List.length queries
    /\ combined
       = combine_results limit
           (merge_all (recall_runs cfg perQuery minScore (List.combine queries embeddings) w) []).
Proof.
  unfold recall, bind, lift, ret.
  destruct (Security.validateQuery (p_task params)) as [task' | e] eqn:Hq;
    cbv beta iota zeta; [| discriminate].
  destruct (Security.validateLimit (p_limit params) 50) as [limit | e] eqn:Hl;
    cbv beta iota zeta; [| discriminate].
  set (queries := JString task' :: firstn 10 (nullish (p_context params) [])).
  pose proof (generateEmbeddings_same_store cfg queries w) as Hsame.
  pose proof (generateEmbeddings_length cfg queries w) as Hlen.
  destruct (Generator.generateEmbeddings cfg queries w) as [[es | err] w1];
    cbv beta iota zeta; [| discriminate].
  set (perQuery := (ceil_div limit (Z.of_nat (List.length queries)) + 5)%Z).
  assert (Hper : (0 <= perQuery)%Z).
  { pose proof (validateLimit_range _ 50 limit ltac:(lia) Hl).
    pose proof (ceil_div_nonneg limit (Z.of_nat (List.length queries)) ltac:(lia)
                  ltac:(unfold queries; simpl; lia)).
    unfold perQuery. lia. }
  destruct (search_each_runs cfg perQuery (nullish (p_minScore params) (25 # 100))
              (List.combine queries es) Hper w w1 [] Hsame) as [Hres _].
  destruct (search_each cfg perQuery _ _ [] w1) as [[m | err] w2];
    cbv beta iota zeta; simpl fst in *; [| discriminate].
  injection Hres as ->.
  intro H. injection H as <- <- <-.
  exists limit, es. repeat split; try reflexivity.
  apply Hlen. reflexivity.
Qed.

(** The response lists the combined entries, whatever becomes of the access
    update. *)
Lemma handler_response (params : Params) (w : World) :
  fst (handler cfg params w)
  = match fst (recall cfg params w) with
    | Ok (task, contextItems, combined) =>
        Success {| r_task := task;
                   r_contextQueries := List.length contextItems;
                   r_count := List.length combined;
                   r_memories := map view combined |}
    | Err e => Failure e
    end.
Proof.
  unfold handler, try_catch, bind, ret, fire_and_forget.
  destruct (recall cfg params w) as [[[[task contextItems] combined] | e] w1]; simpl;
    [| reflexivity].
  destruct (0 <? List.length combined)%nat; [| reflexivity].
  destruct (MemoryQueries.batchUpdateAccess _ _ w1) as [[u | e] w2]; reflexivity.
Qed.

End RecallHandler.



(** The memories a recall puts out are rows of the table, none of them
    soft-deleted. *)
Lemma recall_results_active (E : Externals) (cfg : Config)
    (params : recall_context.Params) (w : World)
    (task : string) (contextItems : list JsValue)
    (combined : list recall_context.Recalled) (e : recall_context.Recalled) :
  fst (recall_context.recall cfg params w) = Ok (task, contextItems, combined) ->
  In e combined ->
  In (row (recall_context.result_ e)) (memories w)
  /\ deleted_at (row (recall_context.result_ e)) = None.
Proof.
  intros Hrecall He.
  destruct (recall_unfold cfg params w task contextItems combined Hrecall)
    as (limit & embeddings & _ & _ & _ & _ & Hcombined).
  cbv zeta in Hcombined.
  match type of Hcombined with _ = recall_context.combine_results _ (merge_all ?r []) =>
    set (runs := r) in *;
    destruct (combine_results_props runs limit) as (_ & _ & Hall & _ & _ & _ & Hsub & _)
  end.
  rewrite Hcombined in He. apply Hsub in He.
  destruct (Hall e He) as [(results & Hrun & Hin) _].
  unfold runs, recall_runs in Hrun.
  apply in_map_iff in Hrun as ([q emb] & Heq & _). injection Heq as _ <-.
  apply search_spec_props in Hin. destruct Hin as [Hin _].
  apply candidates_where in Hin. tauto.
Qed.



(** ** Access events *)

Section Access.

(** The statement names [$(2n+1)] for the query text and is sent [n + 1]
    parameters: the query text is never bound. *)
Lemma query_text_unbound (ids : list string) (queryText : option string) :
  ids <> [] ->
  eval_expr (map Some ids ++ [queryText]) (Placeholder (List.length ids * 2 + 1)) = None.
Proof.
  intro Hne. replace (List.length ids * 2 + 1)%nat with (S (List.length ids * 2)) by lia.
  simpl. apply nth_error_None.
  rewrite length_app, length_map. simpl.
  destruct ids; [congruence | simpl; lia].
Qed.

Lemma access_row_unbound (w : World) (params : list (option string))
    (e1 e2 e3 e4 : SqlExpr) :
  eval_expr params e3 = None -> access_row w params (e1, e2, e3, e4) = None.
Proof.
  intro H. unfold access_row. rewrite H.
  destruct (eval_expr params e1) as [[mid |] |]; try reflexivity.
  destruct (eval_expr params e2) as [[ty |] |]; reflexivity.
Qed.

Lemma all_some_None {A : Type} (l : list (option A)) :
  In None l -> all_some l = None.
Proof.
  induction l as [| [x |] l IH]; simpl; intro H; try reflexivity.
  - contradiction.
  - destruct H as [H | H]; [discriminate |]. rewrite IH by exact H. reflexivity.
Qed.

(** [MemoryQueries.batchUpdateAccess] on a non-empty list of ids is refused
    by the store: it costs one statement and records nothing. *)
Lemma batchUpdateAccess_refused (ids : list string) (queryText : option string) (w : World) :
  ids <> [] ->
  exists e,
    fst (MemoryQueries.batchUpdateAccess ids queryText w) = Err e
    /\ same_store w (snd (MemoryQueries.batchUpdateAccess ids queryText w)).
Proof.
  intro Hne. unfold MemoryQueries.batchUpdateAccess.
  destruct (List.length ids =? 0)%nat eqn:Hlen.
  { apply Nat.eqb_eq, length_zero_iff_nil in Hlen. congruence. }
  apply Nat.eqb_neq in Hlen.
  unfold query, INSERT_INTO_memory_access_log.
  rewrite all_some_None.
  - simpl. eexists. split; [reflexivity | repeat split].
  - rewrite map_map. apply in_map_iff. exists 0%nat. split.
    + apply access_row_unbound, query_text_unbound. exact Hne.
    + apply in_seq. lia.
Qed.

Context `{E : Externals}.
Variable cfg : Config.

Lemma recall_same_store (params : recall_context.Params) (w : World) :
  same_store w (snd (recall_context.recall cfg params w)).
Proof.
  unfold recall_context.recall, bind, lift, ret.
  destruct (Security.validateQuery _); cbv beta iota zeta; [| apply same_store_refl].
  destruct (Security.validateLimit _ _) as [limit | e]; cbv beta iota zeta;
    [| apply same_store_refl].
  match goal with |- context [Generator.generateEmbeddings cfg ?qs w] =>
    pose proof (generateEmbeddings_same_store cfg qs w) as H1;
    destruct (Generator.generateEmbeddings cfg qs w) as [[es | err] w1]
  end; cbv beta iota zeta; simpl snd in *; [| exact H1].
  match goal with |- context [recall_context.search_each cfg ?p ?m ?wk [] w1] =>
    assert (H2 : same_store w1 (snd (recall_context.search_each cfg p m wk [] w1)));
    [| destruct (recall_context.search_each cfg p m wk [] w1) as [[r | err] w2] ]
  end.
  - clear. generalize (@nil (string * recall_context.Recalled)).
    match goal with |- forall l, same_store _ (snd (recall_context.search_each _ ?p ?m ?wk _ _)) =>
      generalize wk; generalize p; generalize m
    end.
    intros m p wk. revert w1.
    induction wk as [| [q e] wk IH]; intros w1 acc; simpl; [apply same_store_refl |].
    unfold bind.
    pose proof (search_same_store cfg (recall_args p m e) w1) as Hs.
    unfold recall_args in Hs.
    destruct (MemoryQueries.search cfg _ w1) as [[rs | err] w2]; simpl in *; [| exact Hs].
    eapply same_store_trans; [exact Hs | apply IH].
  - cbv beta iota zeta. simpl snd in *. eapply same_store_trans; eassumption.
  - cbv beta iota zeta. simpl snd in *. eapply same_store_trans; eassumption.
Qed.

(** No recall_context call adds to the access log or touches a memory. *)
Lemma recall_context_records_nothing (params : recall_context.Params) (w : World) :
  same_store w (snd (recall_context.handler cfg params w)).
Proof.
  unfold recall_context.handler, try_catch, bind, ret, fire_and_forget.
  pose proof (recall_same_store params w) as H1.
  destruct (recall_context.recall cfg params w)
    as [[[[task contextItems] combined] | e] w1]; simpl in *; [| exact H1].
  destruct combined as [| c combined]; simpl; [exact H1 |].
  match goal with |- context [MemoryQueries.batchUpdateAccess ?ids ?q w1] =>
    destruct (batchUpdateAccess_refused ids q w1 ltac:(discriminate)) as (e & He & Hs);
    destruct (MemoryQueries.batchUpdateAccess ids q w1) as [[u | e'] w2]
  end; simpl in *; [discriminate |].
  eapply same_store_trans; [exact H1 |].
  eapply same_store_trans; [exact Hs |].
  repeat split.
Qed.

End Access.

(** C7, evaluated where it fails. No recall_context call records an access
    event: whenever the final output is non-empty the one INSERT that
    [batchUpdateAccess] sends names a parameter it does not bind, the store
    refuses it, and the log, the access counts and the last-access times stay
    as they were. The response is built before the update and is not affected
    by its failure, which is only written to the console. In the example two
    memories are recalled and the log stays empty. *)
Theorem recall_records_no_access_event :
  (forall (E : Externals) (cfg : Config) (params : recall_context.Params) (w : World),
      same_store w (snd (recall_context.handler cfg params w))
      /\ fst (recall_context.handler cfg params w)
         = match fst (recall_context.recall cfg params w) with
           | Ok (task, contextItems, combined) =>
               Success {| recall_context.r_task := task;
                          recall_context.r_contextQueries := List.length contextItems;
                          recall_context.r_count := List.length combined;
                          recall_context.r_memories := map recall_context.view combined |}
           | Err e => Failure e
           end)
  /\ (let params := {| recall_context.p_task := JString "note";
                       recall_context.p_context := Some [JString "memo!"];
                       recall_context.p_limit := JNumber 10;
                       recall_context.p_minScore := None |} in
      let after := @recall_context.handler example_externals default_config params two_notes in
      exists payload : recall_context.Payload,
        fst after = Success payload
        /\ map v_id (recall_context.r_memories payload) = [example_id 0; example_id 1]
        /\ memory_access_log (snd after) = []
        /\ map access_count (memories (snd after)) = [0%Z; 0%Z]
        /\ last (console (snd after)) ""%string
           = "Failed to update access counts: INSERT INTO memory_access_log refused"%string).
Proof.
  split.
  - intros E cfg params w. split.
    + apply recall_context_records_nothing.
    + apply handler_response.
  - vm_compute. eexists. repeat split; reflexivity.
Qed.

(** ** Creating a memory *)

Section Create.

Context `{E : Externals}.
Variable cfg : Config.


(** What a successful create has done. *)
Lemma create_persisted (a : MemoryQueries.CreateArgs) (w : World) (m : Memory) :
  fst (MemoryQueries.create cfg a w) = Ok m ->
  memories (snd (MemoryQueries.create cfg a w)) = memories w ++ [m]
  /\ id m = uuid_generate_v4 (uuid_draws w)
  /\ ~ In (id m) (map id (memories w))
  /\ content m = MemoryQueries.c_content a
  /\ embedding m = MemoryQueries.c_embedding a
  /\ importance m = nullish (MemoryQueries.c_importance a) (defaultImportance cfg)
  /\ tags m = nullish (MemoryQueries.c_tags a) []
  /\ deleted_at m = None
  /\ List.length (embedding m) = EMBEDDING_COLUMN_DIMENSION
  /\ content_not_empty (content m) = true.
Proof.
  unfold MemoryQueries.create, query, INSERT_INTO_memories. simpl.
  destruct (Nat.eqb_spec (List.length (MemoryQueries.c_embedding a)) EMBEDDING_COLUMN_DIMENSION)
    as [Hdim | Hdim]; simpl; [| discriminate].
  destruct (content_not_empty (MemoryQueries.c_content a)) eqn:Hcontent; simpl; [| discriminate].
  destruct (importance_check _) eqn:Himp; simpl; [| discriminate].
  destruct (existsb _ (memories w)) eqn:Hpk; simpl; [discriminate |].
  intro H. injection H as <-. simpl.
  repeat split; try assumption; try reflexivity.
  intro Hin. apply in_map_iff in Hin as (x & Hx & Hin).
  assert (existsb (has_id (uuid_generate_v4 (uuid_draws w))) (memories w) = true);
    [| congruence].
  apply existsb_exists. exists x. split; [exact Hin | apply has_id_true; exact Hx].
Qed.

(** A create the store has no reason to refuse succeeds. *)
Lemma create_accepted (a : MemoryQueries.CreateArgs) (w : World) :
  List.length (MemoryQueries.c_embedding a) = EMBEDDING_COLUMN_DIMENSION ->
  content_not_empty (MemoryQueries.c_content a) = true ->
  importance_check (nullish (MemoryQueries.c_importance a) (defaultImportance cfg)) = true ->
  ~ In (uuid_generate_v4 (uuid_draws w)) (map id (memories w)) ->
  exists m, fst (MemoryQueries.create cfg a w) = Ok m.
Proof.
  intros Hdim Hcontent Himp Hfresh.
  unfold MemoryQueries.create, query, INSERT_INTO_memories. simpl.
  rewrite Hdim, Nat.eqb_refl, Hcontent, Himp. simpl.
  destruct (existsb _ (memories w)) eqn:Hpk; simpl; [| eexists; reflexivity].
  exfalso. apply Hfresh.
  apply existsb_exists in Hpk as (x & Hin & Hx). apply has_id_true in Hx.
  rewrite <- Hx. apply in_map. exact Hin.
Qed.

(** [normalizeEmbeddingDimension] never fails: it returns the embedding cut
    or padded with zeros to the configured dimension. *)
Lemma normalizeEmbeddingDimension_total (e : list Q) (w : World) :
  exists e',
    fst (Generator.normalizeEmbeddingDimension cfg e w) = Ok e'
    /\ List.length e' = embeddingDimension cfg
    /\ e' = firstn (embeddingDimension cfg) e
            ++ repeat 0 (embeddingDimension cfg - List.length e).
Proof.
  unfold Generator.normalizeEmbeddingDimension, bind, ret, console_log.
  destruct (Nat.eqb_spec (List.length e) (embeddingDimension cfg)) as [Heq | Hne]; simpl.
  - exists e. split; [reflexivity |]. split; [exact Heq |].
    rewrite <- Heq, firstn_all, Nat.sub_diag. simpl. rewrite app_nil_r. reflexivity.
  - destruct (Nat.ltb_spec (embeddingDimension cfg) (List.length e)) as [Hlt | Hge]; simpl.
    + eexists. split; [reflexivity |]. split.
      * rewrite length_firstn. lia.
      * replace (embeddingDimension cfg - List.length e)%nat with 0%nat by lia.
        simpl. rewrite app_nil_r. reflexivity.
    + eexists. split; [reflexivity |]. split.
      * rewrite length_app, repeat_length. lia.
      * rewrite firstn_all2 by lia. reflexivity.
Qed.



End Create.




(* ================================================================== *)
(** * Part III: further properties *)
(* ================================================================== *)

(** ** What the validators return *)

Section Validators.

Import Js Security.

(** A property of characters that holds of each of the 256 code units holds
    of all of them. *)
Lemma ascii_all (P : ascii -> bool) :
  forallb P (map ascii_of_nat (seq 0 256)) = true -> forall c, P c = true.
Proof.
  intros H c. rewrite forallb_forall in H. apply H.
  apply in_map_iff. exists (nat_of_ascii c). split.
  - apply ascii_nat_embedding.
  - apply in_seq. pose proof (nat_ascii_bounded c). lia.
Qed.

Lemma isTagChar_plain (c : ascii) :
  isTagChar c = true -> isWhiteSpace c = false /\ lowerChar c = c.
Proof.
  intro H.
  pose proof (ascii_all
    (fun c => implb (isTagChar c) (negb (isWhiteSpace c) && Ascii.eqb (lowerChar c) c))
    ltac:(vm_compute; reflexivity) c) as Hc.
  cbv beta in Hc. rewrite H in Hc. simpl in Hc.
  apply andb_true_iff in Hc as [Hw Hl].
  split; [apply negb_true_iff; exact Hw | apply Ascii.eqb_eq; exact Hl].
Qed.

Lemma lowerChar_idempotent (c : ascii) : lowerChar (lowerChar c) = lowerChar c.
Proof.
  apply Ascii.eqb_eq.
  exact (ascii_all (fun c => Ascii.eqb (lowerChar (lowerChar c)) (lowerChar c))
           ltac:(vm_compute; reflexivity) c).
Qed.

Lemma inClass_lowerChar (k : UuidClass) (c : ascii) :
  inClass k (lowerChar c) = inClass k c.
Proof.
  apply Bool.eqb_prop.
  destruct k;
    match goal with |- Bool.eqb (inClass ?k _) _ = true =>
      exact (ascii_all (fun c => Bool.eqb (inClass k (lowerChar c)) (inClass k c))
               ltac:(vm_compute; reflexivity) c)
    end.
Qed.

Lemma length_list_ascii (s : string) :
  List.length (list_ascii_of_string s) = String.length s.
Proof. induction s as [| c s IH]; simpl; congruence. Qed.

(** [dropWhile] returns a suffix that does not start with a dropped
    character. *)
Lemma dropWhile_suffix {A : Type} (p : A -> bool) (l : list A) :
  exists pre, l = pre ++ dropWhile p l.
Proof.
  induction l as [| x l [pre IH]]; simpl.
  - exists []. reflexivity.
  - destruct (p x).
    + exists (x :: pre). simpl. congruence.
    + exists []. reflexivity.
Qed.

Lemma dropWhile_head {A : Type} (p : A -> bool) (l : list A) (x : A) (t : list A) :
  dropWhile p l = x :: t -> p x = false.
Proof.
  induction l as [| y l IH]; simpl; [discriminate |].
  destruct (p y) eqn:Hy; [exact IH |].
  intro H. injection H as -> _. exact Hy.
Qed.

Lemma dropWhile_fixed {A : Type} (p : A -> bool) (l : list A) :
  match l with [] => True | x :: _ => p x = false end -> dropWhile p l = l.
Proof. destruct l as [| x l]; simpl; [reflexivity | intros ->; reflexivity]. Qed.

(** A text already trimmed at both ends is left alone by [trim]. *)
Lemma trim_fixed (l : list ascii) :
  match l with [] => True | x :: _ => isWhiteSpace x = false end ->
  match rev l with [] => True | x :: _ => isWhiteSpace x = false end ->
  trim (string_of_list_ascii l) = string_of_list_ascii l.
Proof.
  intros Hhead Hlast. unfold trim.
  rewrite list_ascii_of_string_of_list_ascii.
  rewrite (dropWhile_fixed _ l Hhead), (dropWhile_fixed _ (rev l) Hlast), rev_involutive.
  reflexivity.
Qed.

(** What [trim] returns starts and ends with a character that is not white
    space. *)
Lemma trim_ends (s : string) :
  let l := rev (dropWhile isWhiteSpace (rev (dropWhile isWhiteSpace (list_ascii_of_string s)))) in
  match l with [] => True | x :: _ => isWhiteSpace x = false end
  /\ match rev l with [] => True | x :: _ => isWhiteSpace x = false end.
Proof.
  cbv zeta.
  set (l1 := dropWhile isWhiteSpace (list_ascii_of_string s)).
  set (r := dropWhile isWhiteSpace (rev l1)).
  split.
  - destruct (dropWhile_suffix isWhiteSpace (rev l1)) as [pre Hpre]. fold r in Hpre.
    assert (Hl1 : l1 = rev r ++ rev pre).
    { rewrite <- rev_app_distr, <- Hpre, rev_involutive. reflexivity. }
    destruct (rev r) as [| x t] eqn:Hr; [exact I |].
    simpl in Hl1. exact (dropWhile_head _ _ _ _ Hl1).
  - rewrite rev_involutive.
    destruct r as [| x t] eqn:Hr; [exact I |].
    exact (dropWhile_head _ _ _ _ Hr).
Qed.

Lemma trim_idempotent (s : string) : trim (trim s) = trim s.
Proof.
  destruct (trim_ends s) as [H1 H2]. unfold trim at 2 3.
  apply trim_fixed; assumption.
Qed.

(** A text made of tag characters is left alone by [trim] and by
    [toLowerCase]. *)
Lemma tag_text_fixed (s : string) :
  forallb isTagChar (list_ascii_of_string s) = true ->
  toLowerCase (trim s) = s.
Proof.
  intro H. rewrite forallb_forall in H.
  rewrite <- (string_of_list_ascii_of_string s) at 1.
  rewrite trim_fixed.
  - unfold toLowerCase. rewrite list_ascii_of_string_of_list_ascii.
    rewrite <- (string_of_list_ascii_of_string s) at 2. f_equal.
    rewrite <- (map_id (list_ascii_of_string s)) at 2.
    apply map_ext_in. intros c Hc. apply isTagChar_plain, H, Hc.
  - destruct (list_ascii_of_string s) as [| x t]; [exact I |].
    apply isTagChar_plain, H. left. reflexivity.
  - destruct (rev (list_ascii_of_string s)) as [| x t] eqn:Hr; [exact I |].
    apply isTagChar_plain, H, in_rev. rewrite Hr. left. reflexivity.
Qed.

Lemma validateTag_ok (index : nat) (tag : JsValue) (t : string) :
  validateTag index tag = Ok t -> tag_ok t.
Proof.
  unfold validateTag. destruct tag; try discriminate.
  destruct (Nat.eqb_spec (String.length (toLowerCase (trim s))) 0) as [| Hne]; [discriminate |].
  destruct (Nat.ltb_spec MAX_TAG_LENGTH (String.length (toLowerCase (trim s)))) as [| Hle];
    [discriminate |].
  destruct (forallb isTagChar _) eqn:Hchars; simpl; [| discriminate].
  intro H. injection H as <-. split; [lia | exact Hchars].
Qed.

Lemma validateTag_fixed (index : nat) (t : string) :
  tag_ok t -> validateTag index (JString t) = Ok t.
Proof.
  intros [Hlen Hchars]. unfold validateTag.
  rewrite (tag_text_fixed t Hchars), Hchars.
  destruct (Nat.eqb_spec (String.length t) 0) as [| _]; [lia |].
  destruct (Nat.ltb_spec MAX_TAG_LENGTH (String.length t)) as [| _]; [lia |].
  reflexivity.
Qed.

Lemma validateTagsFrom_ok (tags_ : list JsValue) :
  forall (index : nat) (ts : list string),
    validateTagsFrom index tags_ = Ok ts ->
    List.length ts = List.length tags_ /\ Forall tag_ok ts.
Proof.
  induction tags_ as [| tag rest IH]; intros index ts; simpl.
  - intro H. injection H as <-. split; [reflexivity | constructor].
  - destruct (validateTag index tag) as [t | e] eqn:Ht; simpl; [| discriminate].
    destruct (validateTagsFrom (S index) rest) as [ts' | e] eqn:Hrest; simpl; [| discriminate].
    intro H. injection H as <-.
    destruct (IH _ _ Hrest) as [Hlen Hall].
    split; [simpl; congruence | constructor; [exact (validateTag_ok _ _ _ Ht) | exact Hall]].
Qed.

Lemma validateTagsFrom_fixed (ts : list string) :
  Forall tag_ok ts ->
  forall index, validateTagsFrom index (map JString ts) = Ok ts.
Proof.
  induction 1 as [| t ts Ht _ IH]; intro index; cbn [map validateTagsFrom]; [reflexivity |].
  rewrite (validateTag_fixed index t Ht). cbn [result_bind]. rewrite IH. reflexivity.
Qed.

Lemma matchShape_length (shape : list UuidClass) :
  forall l, matchShape shape l = true -> List.length l = List.length shape.
Proof.
  induction shape as [| k shape IH]; intros [| c l]; simpl; try discriminate; [reflexivity |].
  intro H. apply andb_true_iff in H as [_ H]. f_equal. apply IH, H.
Qed.

Lemma matchShape_lowerChar (shape : list UuidClass) :
  forall l, matchShape shape (map lowerChar l) = matchShape shape l.
Proof.
  induction shape as [| k shape IH]; intros [| c l]; simpl; try reflexivity.
  rewrite inClass_lowerChar, IH. reflexivity.
Qed.

Lemma toLowerCase_idempotent (s : string) : toLowerCase (toLowerCase s) = toLowerCase s.
Proof.
  unfold toLowerCase. rewrite list_ascii_of_string_of_list_ascii, map_map. f_equal.
  apply map_ext. intro c. apply lowerChar_idempotent.
Qed.

Lemma removeControl_clean (s : string) :
  forallb (fun c => negb (isControl c)) (list_ascii_of_string (removeControl s)) = true.
Proof.
  unfold removeControl. rewrite list_ascii_of_string_of_list_ascii.
  apply forallb_forall. intros c Hc. apply filter_In in Hc. tauto.
Qed.

Lemma removeControl_byteLength (s : string) :
  (byteLength (removeControl s) <= byteLength s)%nat.
Proof.
  unfold removeControl, byteLength. rewrite list_ascii_of_string_of_list_ascii.
  induction (list_ascii_of_string s) as [| c l IH]; simpl; [lia |].
  destruct (isControl c); simpl; destruct (code c <? 128)%nat; lia.
Qed.

Lemma length_le_byteLength (s : string) : (String.length s <= byteLength s)%nat.
Proof.
  unfold byteLength. rewrite <- length_list_ascii.
  induction (list_ascii_of_string s) as [| c l IH]; simpl; [lia |].
  destruct (code c <? 128)%nat; lia.
Qed.

End Validators.

(** X1. [validateTags] returns at most 20 tags, each of 1 to 100 characters
    drawn from [a-z0-9_-], and validating what it returned gives it back
    unchanged. *)
Theorem validateTags_normal_form :
  forall (v : JsValue) (ts : list string),
    Security.validateTags v = Ok ts ->
    (List.length ts <= Security.MAX_TAGS)%nat
    /\ Forall (fun t =>
                 (1 <= String.length t <= Security.MAX_TAG_LENGTH)%nat
                 /\ forallb Security.isTagChar (list_ascii_of_string t) = true) ts
    /\ Security.validateTags (JArray (map JString ts)) = Ok ts.
Proof.
  intros v ts H. unfold Security.validateTags in H.
  assert (Hnil : Security.validateTags (JArray (map JString [])) = Ok []) by reflexivity.
  destruct v as [| | b | z | s | l]; try discriminate;
    try (injection H as <-; split; [simpl; lia | split; [constructor | exact Hnil]]).
  destruct (Nat.ltb_spec Security.MAX_TAGS (List.length l)) as [| Hle]; [discriminate |].
  destruct (validateTagsFrom_ok _ _ _ H) as [Hlen Hall].
  split; [lia |]. split; [exact Hall |].
  unfold Security.validateTags. rewrite length_map.
  destruct (Nat.ltb_spec Security.MAX_TAGS (List.length ts)) as [| _]; [lia |].
  apply validateTagsFrom_fixed, Hall.
Qed.

Lemma validateTags_normal_form_witness :
  Security.validateTags (JArray [JString " Bug-Fix "; JString "project_x"])
    = Ok ["bug-fix"%string; "project_x"%string]
  /\ Security.validateTags (JArray (map JString ["bug-fix"%string; "project_x"%string]))
     = Ok ["bug-fix"%string; "project_x"%string].
Proof.
  assert (H : Security.validateTags (JArray [JString " Bug-Fix "; JString "project_x"])
              = Ok ["bug-fix"%string; "project_x"%string]) by (vm_compute; reflexivity).
  split; [exact H |].
  exact (proj2 (proj2 (validateTags_normal_form _ _ H))).
Defined.

(** X2. [validateUUID] does not look at the case of letters: a text and its
    lower-case form are both refused or both accepted, with the same result.
    A UUID it accepts comes back as 36 characters, in lower case, and is
    accepted again unchanged. *)
Theorem validateUUID_canonical :
  (forall s : string,
     Security.validateUUID (JString (Js.toLowerCase s)) = Security.validateUUID (JString s))
  /\ (forall (v : JsValue) (u : string),
        Security.validateUUID v = Ok u ->
        String.length u = 36%nat
        /\ Js.toLowerCase u = u
        /\ Security.validateUUID (JString u) = Ok u).
Proof.
  split.
  - intro s. unfold Security.validateUUID.
    unfold Js.toLowerCase at 1. rewrite list_ascii_of_string_of_list_ascii.
    rewrite matchShape_lowerChar, toLowerCase_idempotent. reflexivity.
  - intros v u H. unfold Security.validateUUID in H.
    destruct v as [| | b | z | s | l]; try discriminate.
    destruct (Security.matchShape Security.uuidShape (list_ascii_of_string s)) eqn:Hshape;
      [| discriminate].
    injection H as <-.
    split; [| split].
    + unfold Js.toLowerCase.
      rewrite <- length_list_ascii, list_ascii_of_string_of_list_ascii, length_map.
      apply (matchShape_length _ _ Hshape).
    + apply toLowerCase_idempotent.
    + unfold Security.validateUUID.
      unfold Js.toLowerCase at 1. rewrite list_ascii_of_string_of_list_ascii.
      rewrite matchShape_lowerChar, Hshape, toLowerCase_idempotent. reflexivity.
Qed.

Lemma validateUUID_canonical_witness :
  Security.validateUUID (JString "123E4567-E89B-42D3-A456-426614174ABC")
    = Ok "123e4567-e89b-42d3-a456-426614174abc"%string
  /\ String.length "123e4567-e89b-42d3-a456-426614174abc" = 36%nat
  /\ Security.validateUUID (JString "123e4567-e89b-42d3-a456-426614174abc")
     = Ok "123e4567-e89b-42d3-a456-426614174abc"%string.
Proof.
  assert (H : Security.validateUUID (JString "123E4567-E89B-42D3-A456-426614174ABC")
              = Ok "123e4567-e89b-42d3-a456-426614174abc"%string) by (vm_compute; reflexivity).
  destruct (proj2 validateUUID_canonical _ _ H) as (H1 & _ & H3).
  split; [exact H |]. split; [exact H1 | exact H3].
Defined.

(** X3. A query that [validateQuery] accepts comes back trimmed, of 1 to
    10000 characters, and is accepted again unchanged. *)
Theorem validateQuery_normal_form :
  forall (v : JsValue) (q : string),
    Security.validateQuery v = Ok q ->
    (1 <= String.length q <= 10000)%nat
    /\ Js.trim q = q
    /\ Security.validateQuery (JString q) = Ok q.
Proof.
  intros v q H. unfold Security.validateQuery in H.
  destruct v as [| | b | z | s | l]; try discriminate.
  destruct (Nat.eqb_spec (String.length (Js.trim s)) 0) as [| Hne]; [discriminate |].
  destruct (Nat.ltb_spec 10000 (String.length (Js.trim s))) as [| Hle]; [discriminate |].
  injection H as <-.
  split; [lia |]. split; [apply trim_idempotent |].
  unfold Security.validateQuery. rewrite trim_idempotent.
  destruct (Nat.eqb_spec (String.length (Js.trim s)) 0) as [| _]; [lia |].
  destruct (Nat.ltb_spec 10000 (String.length (Js.trim s))) as [| _]; [lia |].
  reflexivity.
Qed.

Lemma validateQuery_normal_form_witness :
  Security.validateQuery (JString "  dark mode ") = Ok "dark mode"%string
  /\ Js.trim "dark mode" = "dark mode"%string
  /\ Security.validateQuery (JString "dark mode") = Ok "dark mode"%string.
Proof.
  assert (H : Security.validateQuery (JString "  dark mode ") = Ok "dark mode"%string)
    by (vm_compute; reflexivity).
  destruct (validateQuery_normal_form _ _ H) as (_ & H2 & H3).
  split; [exact H |]. split; [exact H2 | exact H3].
Defined.

(** X4. Content that [sanitizeContent] accepts comes back free of control
    characters and within the byte limit; its length in characters is within
    the limit as well. *)
Theorem sanitizeContent_clean :
  forall (v : JsValue) (maxBytes : nat) (s : string),
    Security.sanitizeContent v maxBytes = Ok s ->
    forallb (fun c => negb (Security.isControl c)) (list_ascii_of_string s) = true
    /\ (Js.byteLength s <= maxBytes)%nat
    /\ (String.length s <= maxBytes)%nat.
Proof.
  intros v maxBytes s H. unfold Security.sanitizeContent in H.
  destruct v as [| | b | z | text | l]; try discriminate.
  destruct (_ =? 0)%nat; [discriminate |].
  destruct (Nat.ltb_spec maxBytes (Js.byteLength (Js.trim text))) as [| Hle]; [discriminate |].
  injection H as <-.
  pose proof (removeControl_byteLength (Js.trim text)) as Hb.
  pose proof (length_le_byteLength (Security.removeControl (Js.trim text))) as Hl.
  split; [apply removeControl_clean |]. split; lia.
Qed.

Lemma sanitizeContent_clean_witness :
  Security.sanitizeContent
    (JString (String " "%char (String "a"%char
       (String (ascii_of_nat 7) (String "b"%char EmptyString))))) 10
    = Ok "ab"%string
  /\ (Js.byteLength "ab" <= 10)%nat /\ (String.length "ab" <= 10)%nat.
Proof.
  assert (H : Security.sanitizeContent
                (JString (String " "%char (String "a"%char
                   (String (ascii_of_nat 7) (String "b"%char EmptyString))))) 10
              = Ok "ab"%string) by (vm_compute; reflexivity).
  split; [exact H |].
  exact (proj2 (sanitizeContent_clean _ _ _ H)).
Defined.

(** ** Embeddings *)

Section Embeddings.

Context `{E : Externals}.
Variable cfg : Config.

(** An embedding is returned only for a non-empty string, and it has the
    configured dimension whatever the provider answered. *)
Lemma generateEmbedding_dimension (text : JsValue) (w : World) (e : list Q) :
  fst (Generator.generateEmbedding cfg text w) = Ok e ->
  List.length e = embeddingDimension cfg
  /\ exists s, text = JString s /\ String.length s <> 0%nat.
Proof.
  unfold Generator.generateEmbedding, bind, lift, throw.
  destruct text as [| | b | z | s | l]; try discriminate.
  destruct (Nat.eqb_spec (String.length s) 0) as [| Hne]; [discriminate |].
  destruct (embedding_provider _) as [raw | err]; [| discriminate].
  destruct (normalizeEmbeddingDimension_total cfg raw w) as (e' & He' & Hlen & _).
  rewrite He'. intro H. injection H as <-.
  split; [exact Hlen | exists s; split; [reflexivity | exact Hne]].
Qed.

End Embeddings.

(** X5. A batch of embeddings succeeds only as a whole: there is then one
    embedding per text, each of the configured dimension, and every text was
    a non-empty string. *)
Theorem generateEmbeddings_all_or_nothing :
  forall (E : Externals) (cfg : Config) (texts : list JsValue) (w : World)
         (es : list (list Q)),
    fst (Generator.generateEmbeddings cfg texts w) = Ok es ->
    List.length es = List.length texts
    /\ Forall (fun e => List.length e = embeddingDimension cfg) es
    /\ Forall (fun t => exists s, t = JString s /\ String.length s <> 0%nat) texts.
Proof.
  intros E cfg texts. induction texts as [| text texts IH]; intros w es; simpl.
  - intro H. injection H as <-. repeat split; constructor.
  - unfold bind, ret.
    pose proof (generateEmbedding_dimension cfg text w) as H1.
    destruct (Generator.generateEmbedding cfg text w) as [[e | err] w1]; simpl in *;
      [| discriminate].
    specialize (IH w1).
    destruct (Generator.generateEmbeddings cfg texts w1) as [[es' | err] w2]; simpl in *;
      [| discriminate].
    intro H. injection H as <-.
    destruct (H1 e eq_refl) as [Hlen Htext].
    destruct (IH es' eq_refl) as (IH1 & IH2 & IH3).
    split; [simpl; congruence |]. split; constructor; assumption.
Qed.

Lemma generateEmbeddings_all_or_nothing_witness :
  fst (@Generator.generateEmbeddings example_externals default_config
         [JString "a"; JString "bc"] empty_world)
    = Ok [1 :: repeat 0 767; 2 :: repeat 0 767]
  /\ List.length [1 :: repeat 0 767; 2 :: repeat 0 767] = 2%nat.
Proof.
  assert (H : fst (@Generator.generateEmbeddings example_externals default_config
                     [JString "a"; JString "bc"] empty_world)
              = Ok [1 :: repeat 0 767; 2 :: repeat 0 767]) by (vm_compute; reflexivity).
  split; [exact H |].
  exact (proj1 (generateEmbeddings_all_or_nothing example_externals default_config _ _ _ H)).
Defined.

(** ** Store queries *)

Section StoreQueries.

Lemma find_none_all {A : Type} (p : A -> bool) (l : list A) :
  (forall x, In x l -> p x = false) -> find p l = None.
Proof.
  induction l as [| a l IH]; simpl; intro H; [reflexivity |].
  rewrite (H a) by (left; reflexivity). apply IH. intros x Hx. apply H. right. exact Hx.
Qed.

Lemma filter_none {A : Type} (p : A -> bool) (l : list A) :
  (forall x, In x l -> p x = false) -> filter p l = [].
Proof.
  induction l as [| a l IH]; simpl; intro H; [reflexivity |].
  rewrite (H a) by (left; reflexivity). apply IH. intros x Hx. apply H. right. exact Hx.
Qed.

Lemma filter_all {A : Type} (p : A -> bool) (l : list A) :
  (forall x, In x l -> p x = true) -> filter p l = l.
Proof.
  induction l as [| a l IH]; simpl; intro H; [reflexivity |].
  rewrite (H a) by (left; reflexivity). f_equal. apply IH. intros x Hx. apply H. right. exact Hx.
Qed.

(** Rows kept by a WHERE clause still have distinct keys. *)
Lemma distinct_keys_filter {Row Key : Type} (key : Row -> Key) (rows : list Row)
    (keep : Row -> bool) (Hdistinct : NoDup (map key rows)) :
  NoDup (map key (filter keep rows)).
Proof.
  revert Hdistinct. induction rows as [| x l IH]; cbn [map filter]; intro H; [constructor |].
  inversion H as [| ? ? Hnotin Hnd]; subst.
  destruct (keep x); cbn [map]; [| apply IH; exact Hnd].
  constructor; [| apply IH; exact Hnd].
  intro Hin. apply Hnotin. apply in_map_iff in Hin as (y & Hy & Hin).
  apply filter_In in Hin as [Hin _]. apply in_map_iff. exists y. split; assumption.
Qed.

Lemma find_app_fresh {A : Type} (p : A -> bool) (l : list A) (x : A) :
  (forall y, In y l -> p y = false) -> p x = true -> find p (l ++ [x]) = Some x.
Proof.
  induction l as [| a l IH]; simpl; intros Hl Hx.
  - rewrite Hx. reflexivity.
  - rewrite (Hl a) by (left; reflexivity). apply IH; [| exact Hx].
    intros y Hy. apply Hl. right. exact Hy.
Qed.

Lemma query_counted {A : Type} (statement : M A) (w : World) :
  query statement w = statement (counted w).
Proof. reflexivity. Qed.

Lemma getById_eq (i : string) (w : World) :
  MemoryQueries.getById i w
  = (Ok (find (fun m => has_id i m && IS_NULL (deleted_at m)) (memories w)), counted w).
Proof. reflexivity. Qed.

(** An UPDATE either is refused and changes nothing, or returns the new
    rows and replaces the old ones in place. *)
Lemma UPDATE_memories_cases (where_ : Memory -> bool) (set : Memory -> Memory) (w : World) :
  (exists e, UPDATE_memories where_ set w = (Err e, w))
  \/ UPDATE_memories where_ set w
     = (Ok (map set (filter where_ (memories w))),
        set_memories (map (fun m => if where_ m then set m else m) (memories w)) w).
Proof.
  unfold UPDATE_memories.
  destruct (forallb _ _); [right; reflexivity | left; eexists; reflexivity].
Qed.

(** An UPDATE whose condition no row satisfies returns no row and leaves the
    table as it was. *)
Lemma UPDATE_memories_no_match (where_ : Memory -> bool) (set : Memory -> Memory) (w : World) :
  (forall m, In m (memories w) -> where_ m = false) ->
  fst (UPDATE_memories where_ set w) = Ok []
  /\ memories (snd (UPDATE_memories where_ set w)) = memories w.
Proof.
  intro H. unfold UPDATE_memories. rewrite (filter_none _ _ H). simpl.
  split; [reflexivity |].
  rewrite <- (map_id (memories w)) at 2. apply map_ext_in.
  intros m Hm. rewrite (H m Hm). reflexivity.
Qed.

(** A soft delete either is refused by the store, or marks the active rows
    of that identifier and says whether there was one. *)
Lemma softDelete_cases (i : string) (w : World) :
  let where_ := fun m => has_id i m && IS_NULL (deleted_at m) in
  (exists e, MemoryQueries.softDelete i w = (Err e, counted w))
  \/ MemoryQueries.softDelete i w
     = (Ok (0 <? List.length (filter where_ (memories w)))%nat,
        set_memories
          (map (fun m => if where_ m then MemoryQueries.soft_deleted (NOW w) m else m)
             (memories w)) (counted w)).
Proof.
  intro where_. unfold MemoryQueries.softDelete, bind, ret. rewrite query_counted.
  destruct (UPDATE_memories_cases where_ (MemoryQueries.soft_deleted (NOW (counted w)))
              (counted w)) as [[e He] | Hok].
  - left. exists e. fold where_. rewrite He. reflexivity.
  - right. fold where_. rewrite Hok. rewrite length_map. reflexivity.
Qed.

(** The row a create has appended is the one found under its id. *)
Lemma create_getById `{E : Externals} (cfg : Config) (a : MemoryQueries.CreateArgs)
    (w : World) (m : Memory) :
  fst (MemoryQueries.create cfg a w) = Ok m ->
  fst (MemoryQueries.getById (id m) (snd (MemoryQueries.create cfg a w))) = Ok (Some m).
Proof.
  intro H.
  destruct (create_persisted cfg a w m H) as (Hmem & _ & Hfresh & _ & _ & _ & _ & Hdel & _).
  unfold MemoryQueries.getById. rewrite query_counted. cbn [fst counted memories].
  rewrite Hmem. f_equal. apply find_app_fresh.
  - intros y Hy. apply andb_false_iff. left.
    destruct (has_id (id m) y) eqn:Hid; [| reflexivity].
    apply has_id_true in Hid. exfalso. apply Hfresh. rewrite <- Hid. apply in_map. exact Hy.
  - rewrite Hdel. unfold has_id. rewrite String.eqb_refl. reflexivity.
Qed.

End StoreQueries.

(** X6. A memory that [MemoryQueries.create] has stored is what
    [MemoryQueries.getById] returns for its identifier; before the create
    that identifier named no memory, and what [getById] returns for any other
    identifier is as before. *)
Theorem create_then_getById :
  forall (E : Externals) (cfg : Config) (a : MemoryQueries.CreateArgs) (w : World) (m : Memory),
    fst (MemoryQueries.create cfg a w) = Ok m ->
    let w' := snd (MemoryQueries.create cfg a w) in
    fst (MemoryQueries.getById (id m) w) = Ok None
    /\ fst (MemoryQueries.getById (id m) w') = Ok (Some m)
    /\ (forall j, j <> id m ->
          fst (MemoryQueries.getById j w') = fst (MemoryQueries.getById j w)).
Proof.
  intros E cfg a w m H w'.
  destruct (create_persisted cfg a w m H) as (Hmem & _ & Hfresh & _).
  split; [| split].
  - rewrite getById_eq. cbn [fst]. f_equal. apply find_none_all.
    intros y Hy. apply andb_false_iff. left.
    destruct (has_id (id m) y) eqn:Hid; [| reflexivity].
    apply has_id_true in Hid. exfalso. apply Hfresh. rewrite <- Hid. apply in_map. exact Hy.
  - apply create_getById. exact H.
  - intros j Hj. rewrite !getById_eq. cbn [fst]. f_equal. subst w'. rewrite Hmem.
    assert (Hm : has_id j m && IS_NULL (deleted_at m) = false).
    { apply andb_false_iff. left. apply not_true_is_false. intro Hid.
      apply has_id_true in Hid. congruence. }
    clear Hmem Hfresh H.
    induction (memories w) as [| y l IH]; cbn [app find].
    + rewrite Hm. reflexivity.
    + destruct (has_id j y && IS_NULL (deleted_at y)); [reflexivity | exact IH].
Qed.

Lemma create_then_getById_witness :
  exists m,
    fst (@MemoryQueries.create example_externals default_config
           (create_args "note" (example_vector 4)) empty_world) = Ok m
    /\ fst (MemoryQueries.getById (id m)
              (snd (@MemoryQueries.create example_externals default_config
                      (create_args "note" (example_vector 4)) empty_world))) = Ok (Some m).
Proof.
  destruct (@create_accepted example_externals default_config
              (create_args "note" (example_vector 4)) empty_world)
    as [m Hm]; try reflexivity.
  - simpl. tauto.
  - exists m. split; [exact Hm |].
    exact (proj1 (proj2 (create_then_getById example_externals default_config _ _ m Hm))).
Defined.

(** X7. A soft delete that reports success keeps every row, relation and
    access event in place, hides the memory from [getById], and reports
    [false] when repeated. *)
Theorem softDelete_hides :
  forall (i : string) (w : World),
    fst (MemoryQueries.softDelete i w) = Ok true ->
    let w' := snd (MemoryQueries.softDelete i w) in
    map id (memories w') = map id (memories w)
    /\ memory_relations w' = memory_relations w
    /\ memory_access_log w' = memory_access_log w
    /\ fst (MemoryQueries.getById i w') = Ok None
    /\ fst (MemoryQueries.softDelete i w') = Ok false.
Proof.
  intros i w Hres.
  destruct (softDelete_cases i w) as [[e He] | Hok].
  { rewrite He in Hres. discriminate. }
  rewrite Hok. cbn [snd]. clear Hres Hok.
  set (where_ := fun m => has_id i m && IS_NULL (deleted_at m)).
  set (w' := set_memories _ (counted w)).
  assert (Hnone : forall m, In m (memories w') -> where_ m = false).
  { subst w'. cbn [memories set_memories]. intros m Hm.
    apply in_map_iff in Hm as (m0 & <- & _).
    fold (where_ m0). destruct (where_ m0) eqn:Hw; [| exact Hw].
    unfold where_. cbn. apply andb_false_r. }
  repeat split.
  - subst w'. cbn [memories set_memories counted]. rewrite map_map.
    apply map_ext. intro m. fold (where_ m). destruct (where_ m); reflexivity.
  - unfold MemoryQueries.getById. rewrite query_counted. cbn [fst counted memories].
    f_equal. apply find_none_all. exact Hnone.
  - destruct (softDelete_cases i w') as [[e He] | Hok].
    + exfalso. revert He. unfold MemoryQueries.softDelete, bind, ret.
      rewrite query_counted.
      destruct (UPDATE_memories_no_match where_ (MemoryQueries.soft_deleted (NOW (counted w')))
                  (counted w') Hnone) as [Hfst _].
      fold where_.
      destruct (UPDATE_memories where_ _ (counted w')) as [[rows | e'] w2]; simpl in *;
        discriminate.
    + rewrite Hok. cbn [fst]. fold where_.
      rewrite (filter_none where_ _ Hnone). reflexivity.
Qed.

Lemma softDelete_hides_witness :
  fst (MemoryQueries.softDelete (example_id 0) two_notes) = Ok true
  /\ fst (MemoryQueries.getById (example_id 0)
            (snd (MemoryQueries.softDelete (example_id 0) two_notes))) = Ok None.
Proof.
  assert (H : fst (MemoryQueries.softDelete (example_id 0) two_notes) = Ok true)
    by (vm_compute; reflexivity).
  split; [exact H |].
  destruct (softDelete_hides (example_id 0) two_notes H) as (_ & _ & _ & H4 & _).
  exact H4.
Defined.

(** X8. [getByIds] sends no statement when given no identifier; otherwise,
    on a table whose identifiers are distinct, it returns exactly the
    memories that [getById] returns for one of the identifiers, each once. *)
Theorem getByIds_agrees_with_getById :
  forall (ids : list string) (w : World),
    NoDup (map id (memories w)) -> ids <> [] ->
    MemoryQueries.getByIds None w = (Ok [], w)
    /\ MemoryQueries.getByIds (Some []) w = (Ok [], w)
    /\ exists rows,
         fst (MemoryQueries.getByIds (Some ids) w) = Ok rows
         /\ NoDup (map id rows)
         /\ forall m, In m rows <->
                      In (id m) ids /\ fst (MemoryQueries.getById (id m) w) = Ok (Some m).
Proof.
  intros ids w Hpk Hne. split; [reflexivity |]. split; [reflexivity |].
  unfold MemoryQueries.getByIds.
  destruct ids as [| i0 ids0]; [congruence |]. cbn [List.length Nat.eqb].
  set (ids := i0 :: ids0). rewrite query_counted. cbn [fst counted memories].
  eexists. split; [reflexivity |]. split; [apply distinct_keys_filter; exact Hpk |].
  intro m. rewrite filter_In, andb_true_iff, getById_eq. cbn [fst].
  assert (Hids : existsb (String.eqb (id m)) ids = true <-> In (id m) ids).
  { rewrite existsb_exists. split.
    - intros (x & Hx & Heq). apply String.eqb_eq in Heq. congruence.
    - intro H. exists (id m). split; [exact H | apply String.eqb_refl]. }
  rewrite Hids. split.
  - intros (Hin & Hi & Hdel). split; [exact Hi |]. f_equal.
    destruct (find _ (memories w)) as [m' |] eqn:Hfind.
    + apply find_some in Hfind as [Hin' Hc]. apply andb_true_iff in Hc as [Hid' _].
      apply has_id_true in Hid'. f_equal.
      exact (primary_key (memories w) m' m Hpk Hin' Hin Hid').
    + pose proof (find_none _ _ Hfind m Hin) as Hf. cbv beta in Hf.
      unfold has_id in Hf. rewrite String.eqb_refl, Hdel in Hf. discriminate.
  - intros (Hi & Hfind). injection Hfind as Hfind.
    apply find_some in Hfind as [Hin Hc]. apply andb_true_iff in Hc as [_ Hdel].
    tauto.
Qed.

Lemma getByIds_agrees_with_getById_witness :
  exists rows,
    fst (MemoryQueries.getByIds (Some [example_id 1; example_id 0]) two_notes) = Ok rows
    /\ NoDup (map id rows).
Proof.
  assert (Hpk : NoDup (map id (memories two_notes))).
  { vm_compute. repeat constructor; cbn; intuition discriminate. }
  destruct (getByIds_agrees_with_getById [example_id 1; example_id 0] two_notes Hpk
              ltac:(discriminate)) as (_ & _ & rows & H1 & H2 & _).
  exists rows. split; assumption.
Defined.

Section Deletion.

(** A DELETE that removes at least one row of identifier [i] counts [i], and
    only [i], as gone. *)
Lemma gone_iff (i j : string) (ms : list Memory) :
  filter (has_id i) ms <> [] ->
  existsb (has_id j) (filter (has_id i) ms) = String.eqb i j.
Proof.
  intro Hne. destruct (String.eqb_spec i j) as [<- | Hij].
  - destruct (filter (has_id i) ms) as [| m l] eqn:Hf; [congruence |].
    assert (Hm : In m (filter (has_id i) ms)) by (rewrite Hf; left; reflexivity).
    apply filter_In in Hm as [_ Hm]. simpl. rewrite Hm. reflexivity.
  - apply not_true_is_false. intro Hex.
    apply existsb_exists in Hex as (m & Hm & Hj).
    apply filter_In in Hm as [_ Hi].
    apply has_id_true in Hi, Hj. congruence.
Qed.

Lemma length_positive {A : Type} (l : list A) :
  (0 <? List.length l)%nat = true <-> l <> [].
Proof.
  destruct l; simpl; split; intro H; try congruence; try reflexivity. discriminate.
Qed.

End Deletion.

(** X9. A hard delete that reports success leaves no memory, no relation
    and no access event that mentions the identifier, keeps every relation
    that does not mention it, and reports [false] when repeated. *)
Theorem hardDelete_cascades :
  forall (i : string) (w : World),
    fst (MemoryQueries.hardDelete i w) = Ok true ->
    let w' := snd (MemoryQueries.hardDelete i w) in
    (forall m, In m (memories w') -> id m <> i)
    /\ (forall r, In r (memory_relations w') ->
          source_memory_id r <> i /\ target_memory_id r <> i)
    /\ (forall e, In e (memory_access_log w') -> memory_id e <> i)
    /\ (forall r, In r (memory_relations w) ->
          source_memory_id r <> i -> target_memory_id r <> i ->
          In r (memory_relations w'))
    /\ fst (MemoryQueries.hardDelete i w') = Ok false.
Proof.
  intros i w Hres.
  unfold MemoryQueries.hardDelete, bind, ret in Hres |- *.
  rewrite query_counted in Hres |- *.
  unfold DELETE_FROM_memories in Hres |- * at 1 2.
  cbn [fst snd counted memories memory_relations memory_access_log] in Hres |- *.
  injection Hres as Hres. apply length_positive in Hres.
  set (w' := set_memory_access_log _ _).
  assert (Hmem : forall m, In m (memories w') -> id m <> i).
  { subst w'. cbn. intros m Hm. apply filter_In in Hm as [_ Hm].
    apply negb_true_iff in Hm. intro Heq. apply has_id_true in Heq. congruence. }
  split; [exact Hmem |]. split; [| split; [| split]].
  - subst w'. cbn. intros r Hr. apply filter_In in Hr as [_ Hr].
    rewrite !(gone_iff i _ _ Hres) in Hr.
    apply andb_true_iff in Hr as [Hs Ht].
    apply negb_true_iff in Hs, Ht.
    split; intro Heq; subst i; rewrite String.eqb_refl in *; discriminate.
  - subst w'. cbn. intros e He. apply filter_In in He as [_ He].
    rewrite (gone_iff i _ _ Hres) in He. apply negb_true_iff in He.
    intro Heq; subst i; rewrite String.eqb_refl in *; discriminate.
  - subst w'. cbn. intros r Hr Hs Ht. apply filter_In. split; [exact Hr |].
    rewrite !(gone_iff i _ _ Hres).
    apply andb_true_iff. split; apply negb_true_iff, String.eqb_neq; congruence.
  - rewrite query_counted. unfold DELETE_FROM_memories.
    cbn [fst snd counted memories]. f_equal.
    rewrite filter_none; [reflexivity |].
    intros m Hm. destruct (has_id i m) eqn:Hid; [| reflexivity].
    apply has_id_true in Hid. exfalso. exact (Hmem m Hm Hid).
Qed.

Lemma hardDelete_cascades_witness :
  fst (MemoryQueries.hardDelete (example_id 1) soft_deleted_endpoint) = Ok true
  /\ memory_relations (snd (MemoryQueries.hardDelete (example_id 1) soft_deleted_endpoint)) = [].
Proof.
  assert (H : fst (MemoryQueries.hardDelete (example_id 1) soft_deleted_endpoint) = Ok true)
    by (vm_compute; reflexivity).
  split; [exact H |].
  destruct (hardDelete_cascades (example_id 1) soft_deleted_endpoint H) as (_ & H2 & _).
  destruct (memory_relations (snd (MemoryQueries.hardDelete (example_id 1) soft_deleted_endpoint)))
    as [| r l] eqn:Hr; [reflexivity |].
  exfalso.
  assert (Hin : In r (r :: l)) by (left; reflexivity).
  revert Hin. rewrite <- Hr. vm_compute. intros [].
Defined.

(** X10. A soft forget by criteria returns the number of active memories
    that met the criteria, keeps every row, leaves no row that still meets
    them, and returns 0 when repeated at the same time. *)
Theorem forgetByCriteria_soft_settles :
  forall (a : MemoryQueries.ForgetArgs) (w : World) (n : nat),
    MemoryQueries.f_soft a = true ->
    fst (MemoryQueries.forgetByCriteria a w) = Ok n ->
    let w' := snd (MemoryQueries.forgetByCriteria a w) in
    n = List.length (filter (MemoryQueries.forget_where a (NOW w)) (memories w))
    /\ map id (memories w') = map id (memories w)
    /\ (forall m, In m (memories w') -> MemoryQueries.forget_where a (NOW w) m = false)
    /\ fst (MemoryQueries.forgetByCriteria a w') = Ok 0%nat.
Proof.
  intros a w n Hsoft Hres.
  unfold MemoryQueries.forgetByCriteria in Hres |- * at 1.
  rewrite Hsoft in Hres |- *. unfold bind, ret in Hres |- *.
  rewrite query_counted in Hres |- *.
  set (where_ := MemoryQueries.forget_where a (NOW w)).
  change (NOW (counted w)) with (NOW w) in Hres |- *. fold where_ in Hres |- *.
  destruct (UPDATE_memories_cases where_ (MemoryQueries.soft_deleted (NOW w)) (counted w))
    as [[e He] | Hok].
  { rewrite He in Hres. discriminate. }
  rewrite Hok in Hres |- *. cbn [fst snd] in Hres |- *.
  injection Hres as <-.
  set (w' := set_memories _ (counted w)).
  assert (Hnone : forall m, In m (memories w') -> where_ m = false).
  { subst w'. cbn [memories set_memories]. intros m Hm.
    apply in_map_iff in Hm as (m0 & <- & _).
    destruct (where_ m0) eqn:Hw; [| exact Hw].
    unfold where_, MemoryQueries.forget_where. cbn. reflexivity. }
  split; [rewrite length_map; reflexivity |].
  split; [| split; [exact Hnone |]].
  - subst w'. cbn [memories set_memories counted]. rewrite map_map.
    apply map_ext. intro m. destruct (where_ m); reflexivity.
  - unfold MemoryQueries.forgetByCriteria. rewrite Hsoft. unfold bind, ret.
    rewrite query_counted.
    change (NOW (counted w')) with (NOW w). fold where_.
    destruct (UPDATE_memories_no_match where_ (MemoryQueries.soft_deleted (NOW w))
                (counted w') Hnone) as [Hfst _].
    destruct (UPDATE_memories where_ _ (counted w')) as [[rows | e'] w2]; simpl in *;
      [| discriminate].
    injection Hfst as ->. reflexivity.
Qed.

Lemma forgetByCriteria_soft_settles_witness :
  fst (MemoryQueries.forgetByCriteria
         {| MemoryQueries.f_tags := None; MemoryQueries.f_olderThanDays := None;
            MemoryQueries.f_minImportance := Some (6 # 10); MemoryQueries.f_soft := true |}
         two_notes) = Ok 2%nat
  /\ fst (MemoryQueries.forgetByCriteria
            {| MemoryQueries.f_tags := None; MemoryQueries.f_olderThanDays := None;
               MemoryQueries.f_minImportance := Some (6 # 10); MemoryQueries.f_soft := true |}
            (snd (MemoryQueries.forgetByCriteria
                    {| MemoryQueries.f_tags := None; MemoryQueries.f_olderThanDays := None;
                       MemoryQueries.f_minImportance := Some (6 # 10);
                       MemoryQueries.f_soft := true |}
                    two_notes))) = Ok 0%nat.
Proof.
  set (a := {| MemoryQueries.f_tags := None; MemoryQueries.f_olderThanDays := None;
               MemoryQueries.f_minImportance := Some (6 # 10); MemoryQueries.f_soft := true |}).
  assert (H : fst (MemoryQueries.forgetByCriteria a two_notes) = Ok 2%nat)
    by (vm_compute; reflexivity).
  split; [exact H |].
  destruct (forgetByCriteria_soft_settles a two_notes 2 eq_refl H) as (_ & _ & _ & H4).
  exact H4.
Defined.

(** ** Relations *)

Section Relations.

(** What [RelationQueries.create] does when the store accepts the row. *)
Lemma relation_create_cases (sourceId targetId relationType : string)
    (strength_ : option Q) (metadata_ : option Metadata) (w : World) (r : Relation) (w' : World) :
  RelationQueries.create sourceId targetId relationType strength_ metadata_ w = (Ok r, w') ->
  sourceId <> targetId
  /\ strength_check (nullish strength_ (5 # 10)) = true
  /\ existsb (has_id sourceId) (memories w) = true
  /\ existsb (has_id targetId) (memories w) = true
  /\ source_memory_id r = sourceId /\ target_memory_id r = targetId
  /\ relation_type r = relationType
  /\ strength r = nullish strength_ (5 # 10)
  /\ memories w' = memories w
  /\ ((exists old,
         find (RelationQueries.same_triple sourceId targetId relationType) (memory_relations w)
           = Some old
         /\ relation_created_at r = relation_created_at old
         /\ memory_relations w'
            = map (fun x => if RelationQueries.same_triple sourceId targetId relationType x
                            then r else x) (memory_relations w))
      \/ (find (RelationQueries.same_triple sourceId targetId relationType) (memory_relations w)
            = None
          /\ relation_created_at r = NOW w
          /\ memory_relations w' = memory_relations w ++ [r])).
Proof.
  unfold RelationQueries.create. rewrite query_counted.
  destruct (String.eqb_spec sourceId targetId) as [| Hne]; [discriminate |].
  destruct (strength_check _) eqn:Hs; cbn [negb]; [| discriminate].
  destruct (existsb (has_id sourceId) (memories (counted w))) eqn:H1; cbn [andb negb];
    [| discriminate].
  destruct (existsb (has_id targetId) (memories (counted w))) eqn:H2; cbn [negb];
    [| discriminate].
  cbn [counted memories memory_relations NOW] in *.
  destruct (find _ (memory_relations w)) as [old |] eqn:Hfind;
    intro H; injection H as <- <-; cbn;
    (repeat split; try assumption; try reflexivity).
  - left. exists old. repeat split.
  - right. repeat split.
Qed.

Lemma same_triple_true (s t ty : string) (r : Relation) :
  RelationQueries.same_triple s t ty r = true
  <-> source_memory_id r = s /\ target_memory_id r = t /\ relation_type r = ty.
Proof.
  unfold RelationQueries.same_triple.
  rewrite !andb_true_iff, !String.eqb_eq. tauto.
Qed.

End Relations.

(** X11. Creating a relation that already exists updates it in place: the
    table keeps its length, the stored relation takes the new strength and
    keeps its creation time, and every relation of that source, target and
    type is the one returned. *)
Theorem relation_create_upsert :
  forall (s t ty : string) (st st' : option Q) (md md' : option Metadata)
         (w w1 w2 : World) (r r' : Relation),
    RelationQueries.create s t ty st md w = (Ok r, w1) ->
    RelationQueries.create s t ty st' md' w1 = (Ok r', w2) ->
    List.length (memory_relations w2) = List.length (memory_relations w1)
    /\ strength r' = nullish st' (5 # 10)
    /\ relation_created_at r' = relation_created_at r
    /\ In r' (memory_relations w2)
    /\ (forall x, In x (memory_relations w2) ->
          RelationQueries.same_triple s t ty x = true -> x = r').
Proof.
  intros s t ty st st' md md' w w1 w2 r r' H1 H2.
  apply relation_create_cases in H1 as (_ & _ & _ & _ & Hs & Ht & Hty & _ & _ & Hrel1).
  apply relation_create_cases in H2 as (_ & _ & _ & _ & _ & _ & _ & Hst & _ & Hrel2).
  assert (Hr : RelationQueries.same_triple s t ty r = true).
  { apply same_triple_true. tauto. }
  assert (Hfind1 : find (RelationQueries.same_triple s t ty) (memory_relations w1) = Some r).
  { destruct Hrel1 as [(old & Hfind & _ & ->) | (Hfind & _ & ->)].
    - clear - Hfind Hr. induction (memory_relations w) as [| x l IH]; simpl in *; [discriminate |].
      destruct (RelationQueries.same_triple s t ty x) eqn:Hx.
      + rewrite Hr. reflexivity.
      + rewrite Hx. apply IH, Hfind.
    - apply find_app_fresh; [| exact Hr].
      intros y Hy. exact (find_none _ _ Hfind y Hy). }
  destruct Hrel2 as [(old & Hfind & Hat & Hw2) | (Hfind & _)]; [| congruence].
  rewrite Hfind1 in Hfind. injection Hfind as <-.
  rewrite Hw2. split; [apply length_map |]. split; [exact Hst |]. split; [exact Hat |].
  split.
  - apply find_some in Hfind1 as [Hin _].
    apply in_map_iff. exists r. rewrite Hr. split; [reflexivity | exact Hin].
  - intros x Hx Hsame. apply in_map_iff in Hx as (y & Hy & _).
    destruct (RelationQueries.same_triple s t ty y) eqn:Hysame; [congruence |].
    subst x. congruence.
Qed.

Lemma relation_create_upsert_witness :
  exists r r' w1 w2,
    RelationQueries.create (example_id 0) (example_id 1) "supports" (Some (2 # 10)) None
      two_notes = (Ok r, w1)
    /\ RelationQueries.create (example_id 0) (example_id 1) "supports" (Some (9 # 10)) None
         w1 = (Ok r', w2)
    /\ List.length (memory_relations w2) = List.length (memory_relations w1)
    /\ strength r' = 9 # 10.
Proof.
  destruct (RelationQueries.create (example_id 0) (example_id 1) "supports" (Some (2 # 10)) None
              two_notes) as [[r | e] w1] eqn:H1; [| vm_compute in H1; discriminate].
  destruct (RelationQueries.create (example_id 0) (example_id 1) "supports" (Some (9 # 10)) None
              w1) as [[r' | e] w2] eqn:H2.
  - exists r, r', w1, w2.
    destruct (relation_create_upsert _ _ _ _ _ _ _ _ _ _ _ _ H1 H2) as (Hlen & Hst & _).
    repeat split; assumption.
  - exfalso. vm_compute in H1. injection H1 as <- <-. vm_compute in H2. discriminate.
Defined.

(** X12. The rows [RelationQueries.getByMemory] returns are listed by
    strength, strongest first; each is a stored relation with the memory at
    the end the direction asks for, joined to both of its ends; and every
    stored relation at the right end whose two memories exist is among
    them. *)
Theorem getByMemory_rows :
  forall (i : string) (direction : option string) (w : World),
    exists rows,
      fst (RelationQueries.getByMemory i direction w) = Ok rows
      /\ StronglySorted (desc (fun x => strength (relation x))) rows
      /\ (forall x, In x rows ->
            In (relation x) (memory_relations w)
            /\ (source_memory_id (relation x) = i \/ target_memory_id (relation x) = i)
            /\ (direction = Some "outgoing"%string -> source_memory_id (relation x) = i)
            /\ (direction = Some "incoming"%string -> target_memory_id (relation x) = i)
            /\ exists s t,
                 find_memory (source_memory_id (relation x)) w = Some s
                 /\ find_memory (target_memory_id (relation x)) w = Some t
                 /\ source_content x = content s /\ target_content x = content t)
      /\ (forall r s t,
            In r (memory_relations w) ->
            find_memory (source_memory_id r) w = Some s ->
            find_memory (target_memory_id r) w = Some t ->
            RelationQueries.condition i (nullish direction "both"%string) r = true ->
            exists x, In x rows /\ relation x = r).
Proof.
  intros i direction w. unfold RelationQueries.getByMemory. rewrite query_counted.
  cbn [fst]. eexists. split; [reflexivity |].
  split; [apply sort_desc_sorted |]. split.
  - intros x Hx. apply sort_desc_In in Hx. apply filter_In in Hx as [Hx Hc].
    apply in_flat_map in Hx as (r & Hr & Hx).
    unfold RelationQueries.joined in Hx.
    change (find_memory ?j (counted w)) with (find_memory j w) in Hx.
    destruct (find_memory (source_memory_id r) w) as [s |] eqn:Hs; [| contradiction].
    destruct (find_memory (target_memory_id r) w) as [t |] eqn:Ht; [| contradiction].
    destruct Hx as [<- | []]. cbn [relation source_content target_content] in *.
    split; [exact Hr |].
    unfold RelationQueries.condition in Hc.
    split; [| split; [| split]].
    + destruct (String.eqb _ "outgoing"); [left; apply String.eqb_eq, Hc |].
      destruct (String.eqb _ "incoming"); [right; apply String.eqb_eq, Hc |].
      apply orb_true_iff in Hc. rewrite !String.eqb_eq in Hc. exact Hc.
    + intros ->. cbn in Hc. apply String.eqb_eq, Hc.
    + intros ->. cbn in Hc. apply String.eqb_eq, Hc.
    + exists s, t. rewrite Hs, Ht. repeat split.
  - intros r s t Hr Hs Ht Hc.
    eexists. split.
    + apply sort_desc_In, filter_In. split.
      * apply in_flat_map. exists r. split; [exact Hr |].
        unfold RelationQueries.joined.
        change (find_memory ?j (counted w)) with (find_memory j w).
        rewrite Hs, Ht. left. reflexivity.
      * exact Hc.
    + reflexivity.
Qed.

(** X13. Deleting a relation just created reports success and removes every
    relation of that source, target and type, keeps the others, and reports
    [false] when repeated. *)
Theorem relation_delete_after_create :
  forall (s t ty : string) (st : option Q) (md : option Metadata) (w w1 : World) (r : Relation),
    RelationQueries.create s t ty st md w = (Ok r, w1) ->
    let w2 := snd (RelationQueries.delete s t ty w1) in
    fst (RelationQueries.delete s t ty w1) = Ok true
    /\ (forall x, In x (memory_relations w2) <->
          In x (memory_relations w1) /\ RelationQueries.same_triple s t ty x = false)
    /\ fst (RelationQueries.delete s t ty w2) = Ok false.
Proof.
  intros s t ty st md w w1 r H.
  apply relation_create_cases in H as (_ & _ & _ & _ & Hs & Ht & Hty & _ & _ & Hrel).
  assert (Hr : RelationQueries.same_triple s t ty r = true).
  { apply same_triple_true. tauto. }
  assert (Hin : In r (memory_relations w1)).
  { destruct Hrel as [(old & Hfind & _ & ->) | (_ & _ & ->)].
    - apply find_some in Hfind as [Hin Hold].
      apply in_map_iff. exists old. rewrite Hold. split; [reflexivity | exact Hin].
    - apply in_or_app. right. left. reflexivity. }
  unfold RelationQueries.delete. rewrite !query_counted.
  cbn [fst snd counted memory_relations set_memory_relations].
  split; [| split].
  - f_equal. apply length_positive. intro Hnil.
    assert (Hf : In r (filter (RelationQueries.same_triple s t ty) (memory_relations w1)))
      by (apply filter_In; split; assumption).
    rewrite Hnil in Hf. contradiction.
  - intro x. rewrite filter_In, negb_true_iff. reflexivity.
  - f_equal. rewrite filter_none; [reflexivity |].
    intros x Hx. apply filter_In in Hx as [_ Hx]. apply negb_true_iff, Hx.
Qed.

Lemma relation_delete_after_create_witness :
  exists r w1,
    RelationQueries.create (example_id 0) (example_id 1) "supports" None None two_notes
      = (Ok r, w1)
    /\ fst (RelationQueries.delete (example_id 0) (example_id 1) "supports" w1) = Ok true.
Proof.
  destruct (RelationQueries.create (example_id 0) (example_id 1) "supports" None None
              two_notes) as [[r | e] w1] eqn:H1; [| vm_compute in H1; discriminate].
  exists r, w1. split; [reflexivity |].
  exact (proj1 (relation_delete_after_create _ _ _ _ _ _ _ _ H1)).
Defined.

(** ** Access bookkeeping *)

Section AccessLog.

(** The row [update_memory_access] writes for a memory. *)
Lemma update_memory_access_find (e : AccessEvent) (w : World) (j : string) :
  find_memory j (update_memory_access e w)
  = option_map
      (fun m => if has_id (memory_id e) m then
                  {| id := id m; content := content m; summary := summary m;
                     embedding := embedding m; metadata := metadata m; tags := tags m;
                     source := source m; importance := importance m;
                     access_count := access_count m + 1;
                     reinforcement_count := reinforcement_count m;
                     created_at := created_at m; last_accessed := NOW w;
                     last_reinforced := last_reinforced m; expires_at := expires_at m;
                     deleted_at := deleted_at m |}
                else m)
      (find_memory j w).
Proof.
  unfold update_memory_access, find_memory. cbn [memories set_memories].
  apply find_has_id_map. intro m. destruct (has_id (memory_id e) m); reflexivity.
Qed.

Lemma find_memory_existsb (i : string) (w : World) :
  existsb (has_id i) (memories w) = match find_memory i w with Some _ => true | None => false end.
Proof.
  unfold find_memory. induction (memories w) as [| m l IH]; simpl; [reflexivity |].
  destruct (has_id i m); [reflexivity | exact IH].
Qed.

End AccessLog.

(** X14. [MemoryQueries.updateAccess] on the identifier of a stored memory
    appends one access event and, through the trigger, adds one to the
    memory's access count and sets its last access to the current time,
    leaving its other columns and the other memories alone; on an unknown
    identifier the store refuses the event and nothing is recorded. *)
Theorem updateAccess_counts :
  forall (i : string) (queryText : option string) (similarity_ : option Q) (w : World),
    let w' := snd (MemoryQueries.updateAccess i queryText similarity_ w) in
    match find_memory i w with
    | Some m =>
        fst (MemoryQueries.updateAccess i queryText similarity_ w) = Ok true
        /\ memory_access_log w'
           = memory_access_log w
             ++ [{| memory_id := i; access_type := "search"; query_text := queryText;
                    similarity_score := similarity_; accessed_at := NOW w |}]
        /\ (exists m',
              find_memory i w' = Some m'
              /\ access_count m' = (access_count m + 1)%Z
              /\ last_accessed m' = NOW w
              /\ importance m' = importance m
              /\ content m' = content m
              /\ deleted_at m' = deleted_at m)
        /\ (forall j, j <> i -> find_memory j w' = find_memory j w)
    | None =>
        (exists e, fst (MemoryQueries.updateAccess i queryText similarity_ w) = Err e)
        /\ same_store w w'
    end.
Proof.
  intros i queryText similarity_ w.
  unfold MemoryQueries.updateAccess, bind, ret. rewrite query_counted.
  cbv beta. change (memories (counted w)) with (memories w).
  rewrite find_memory_existsb.
  destruct (find_memory i w) as [m |] eqn:Hfind; cbv zeta; cbn [fst snd].
  - split; [reflexivity |]. split; [reflexivity |]. split.
    + eexists. rewrite update_memory_access_find.
      change (find_memory i (set_memory_access_log _ (counted w))) with (find_memory i w).
      rewrite Hfind. cbn [option_map memory_id].
      assert (Hid : has_id i m = true) by (apply find_some in Hfind; tauto).
      rewrite Hid. split; [reflexivity |]. repeat split.
    + intros j Hj. rewrite update_memory_access_find.
      change (find_memory j (set_memory_access_log _ (counted w))) with (find_memory j w).
      destruct (find_memory j w) as [mj |] eqn:Hfj; [| reflexivity].
      cbn [option_map memory_id].
      destruct (has_id i mj) eqn:Hid; [| reflexivity].
      apply find_some in Hfj as [_ Hjid]. apply has_id_true in Hid, Hjid. congruence.
  - split; [eexists; reflexivity | repeat split].
Qed.

(** ** More on the score *)

Section ScoreRange.

Import Scoring.
Local Open Scope R_scope.


Lemma exp_opp_le_1 (x : R) : 0 <= x -> exp (- x) <= 1.
Proof.
  intro H. destruct (Req_dec x 0) as [-> | Hne].
  - rewrite Ropp_0, exp_0. lra.
  - rewrite <- exp_0. left. apply exp_increasing. lra.
Qed.

Lemma EXTRACT_EPOCH_nonneg (now t : Z) : (t <= now)%Z -> 0 <= EXTRACT_EPOCH now t.
Proof.
  intro H. unfold EXTRACT_EPOCH.
  apply Rmult_le_pos; [apply IZR_le; lia | lra].
Qed.

(** The store's recency score of a memory accessed no later than now lies
    in (0, 1]. *)
Lemma calculate_recency_score_unit (now t D : Z) :
  (t <= now)%Z -> (0 < D)%Z -> 0 < calculate_recency_score now t (Some D) <= 1.
Proof.
  intros Hle HD.
  assert (HD' : 0 < IZR D) by (apply IZR_lt; exact HD).
  assert (Hdt : 0 <= IZR (now - t)) by (apply IZR_le; lia).
  unfold calculate_recency_score, EXTRACT_EPOCH. cbn [nullish].
  split; [apply exp_pos |].
  replace (- (IZR (now - t) / 1000000 / 86400) / IZR D)
    with (- (IZR (now - t) / 1000000 / 86400 / IZR D)) by (field; lra).
  apply exp_opp_le_1.
  repeat (apply Rmult_le_pos; [| left; apply Rinv_0_lt_compat; lra]). exact Hdt.
Qed.

End ScoreRange.





(** X17. With similarity and importance in [0, 1], non-negative weights, a
    positive decay setting and a last access no later than now, the store's
    hybrid score lies between 0 and one and a half times the sum of the
    weights: between 0 and 1.5 under the default weights. *)
Theorem hybrid_score_bounds :
  forall (now last_accessed_ D : Z) (s i w_s w_r : R),
    (last_accessed_ <= now)%Z -> (0 < D)%Z ->
    (0 <= s <= 1)%R -> (0 <= i <= 1)%R -> (0 <= w_s)%R -> (0 <= w_r)%R ->
    (0 <= Scoring.calculate_hybrid_score now s last_accessed_ i (Some w_s) (Some w_r) (Some D)
       <= 3 / 2 * (w_s + w_r))%R
    /\ (0 <= Scoring.calculate_hybrid_score now s last_accessed_ i None None (Some D)
          <= 3 / 2)%R.
Proof.
  intros now t D s i w_s w_r Hle HD Hs Hi Hws Hwr.
  pose proof (calculate_recency_score_unit now t D Hle HD) as Hr.
  assert (Hgen : forall a b : R, (0 <= a)%R -> (0 <= b)%R ->
            (0 <= Scoring.calculate_hybrid_score now s t i (Some a) (Some b) (Some D)
               <= 3 / 2 * (a + b))%R).
  { intros a b Ha Hb. unfold Scoring.calculate_hybrid_score. cbn [nullish].
    set (r := Scoring.calculate_recency_score now t (Some D)) in *.
    assert (H1 : (0 <= a * s <= a)%R) by nra.
    assert (H2 : (0 <= b * r <= b)%R) by nra.
    split; nra. }
  split; [apply Hgen; assumption |].
  pose proof (Hgen (8 / 10)%R (2 / 10)%R ltac:(lra) ltac:(lra)) as H.
  unfold Scoring.calculate_hybrid_score in H |- *. cbn [nullish] in H |- *. lra.
Qed.

Lemma hybrid_score_bounds_witness :
  (0 <= Scoring.calculate_hybrid_score 86400000000 1 0 1 None None (Some 30%Z) <= 3 / 2)%R.
Proof.
  exact (proj2 (hybrid_score_bounds 86400000000 0 30 1 1 1 1
                  ltac:(lia) ltac:(lia) ltac:(lra) ltac:(lra) ltac:(lra) ltac:(lra))).
Defined.

(** ** Re-ranking *)

(** X18. [rerankByHybridScore] returns the results it was given, each with
    the hybrid score computed from its own fields, rearranged so that the
    scores do not increase along the list. *)
Theorem rerankByHybridScore_sorted :
  forall (Math_exp : Q -> Q) (cfg : Config) (now : Z) (results : list HybridSearch.Result),
    let ranked := HybridSearch.rerankByHybridScore Math_exp cfg now results in
    StronglySorted (desc HybridSearch.hybridScore) ranked
    /\ Permutation results (map HybridSearch.result ranked)
    /\ List.length ranked = List.length results
    /\ (forall x, In x ranked ->
          HybridSearch.hybridScore x
          = HybridSearch.hybridScore (HybridSearch.rank Math_exp cfg now (HybridSearch.result x))).
Proof.
  intros Math_exp cfg now results ranked. subst ranked.
  unfold HybridSearch.rerankByHybridScore.
  pose proof (sort_desc_perm HybridSearch.hybridScore
                (map (HybridSearch.rank Math_exp cfg now) results)) as Hperm.
  split; [apply sort_desc_sorted |]. split; [| split].
  - apply (Permutation_map HybridSearch.result) in Hperm.
    rewrite map_map in Hperm. cbn [HybridSearch.rank HybridSearch.result] in Hperm.
    rewrite map_id in Hperm. exact Hperm.
  - rewrite <- (Permutation_length Hperm). apply length_map.
  - intros x Hx. apply sort_desc_In in Hx. apply in_map_iff in Hx as (r & <- & _).
    reflexivity.
Qed.

(** X19. Re-ranking reads an importance of 0 as missing and scores the
    result with the default importance, so the ranking is not monotone in
    importance: of two results that differ only in importance, the one with
    importance 0 is scored above the one whose importance lies strictly
    between 0 and the default, whenever its score is positive. *)
Theorem rerank_zero_importance_outranks :
  forall (Math_exp : Q -> Q) (cfg : Config) (now : Z) (r1 r2 : HybridSearch.Result) (q : Q),
    HybridSearch.semanticScore r1 = HybridSearch.semanticScore r2 ->
    HybridSearch.similarity r1 = HybridSearch.similarity r2 ->
    HybridSearch.lastAccessed r1 = HybridSearch.lastAccessed r2 ->
    HybridSearch.last_accessed r1 = HybridSearch.last_accessed r2 ->
    HybridSearch.importance r1 = Some 0 ->
    HybridSearch.importance r2 = Some q ->
    0 < q -> q < defaultImportance cfg ->
    0 < HybridSearch.hybridScore (HybridSearch.rank Math_exp cfg now r1) ->
    HybridSearch.hybridScore (HybridSearch.rank Math_exp cfg now r2)
    < HybridSearch.hybridScore (HybridSearch.rank Math_exp cfg now r1).
Proof.
  intros Math_exp cfg now r1 r2 q Hs Hsim Hla Hla' Hi1 Hi2 Hq Hqd.
  cbn [HybridSearch.rank HybridSearch.hybridScore].
  rewrite <- Hs, <- Hsim, <- Hla, <- Hla', Hi1, Hi2.
  unfold HybridSearch.calculateHybridScore. cbn [nullish HybridSearch.or_else
    HybridSearch.opt_semanticWeight HybridSearch.opt_recencyWeight
    HybridSearch.opt_decayDays HybridSearch.no_options].
  change (Qeq_bool 0 0) with true. cbv iota.
  destruct (Qeq_bool q 0) eqn:Hq0.
  { apply Qeq_bool_iff in Hq0. rewrite Hq0 in Hq. exfalso. exact (Qlt_irrefl 0 Hq). }
  set (base := semanticWeight cfg * _ + recencyWeight cfg * _).
  intro Hpos.
  assert (Hbase : 0 < base) by nra.
  nra.
Qed.

Lemma rerank_zero_importance_outranks_witness :
  HybridSearch.hybridScore
    (HybridSearch.rank (fun _ => 1) default_config 0
       {| HybridSearch.semanticScore := Some (9 # 10); HybridSearch.similarity := None;
          HybridSearch.lastAccessed := Some 0%Z; HybridSearch.last_accessed := None;
          HybridSearch.importance := Some (1 # 10) |})
  < HybridSearch.hybridScore
      (HybridSearch.rank (fun _ => 1) default_config 0
         {| HybridSearch.semanticScore := Some (9 # 10); HybridSearch.similarity := None;
            HybridSearch.lastAccessed := Some 0%Z; HybridSearch.last_accessed := None;
            HybridSearch.importance := Some 0 |}).
Proof.
  apply (rerank_zero_importance_outranks (fun _ => 1) default_config 0
           {| HybridSearch.semanticScore := Some (9 # 10); HybridSearch.similarity := None;
              HybridSearch.lastAccessed := Some 0%Z; HybridSearch.last_accessed := None;
              HybridSearch.importance := Some 0 |}
           {| HybridSearch.semanticScore := Some (9 # 10); HybridSearch.similarity := None;
              HybridSearch.lastAccessed := Some 0%Z; HybridSearch.last_accessed := None;
              HybridSearch.importance := Some (1 # 10) |} (1 # 10));
    try reflexivity.
Defined.

(** ** The forget tool *)

Section ForgetTool.

Lemma filter_nil_all {A : Type} (p : A -> bool) (l : list A) :
  filter p l = [] -> forall x, In x l -> p x = false.
Proof.
  intros H x Hx. destruct (p x) eqn:Hp; [| reflexivity].
  assert (Hin : In x (filter p l)) by (apply filter_In; split; assumption).
  rewrite H in Hin. contradiction.
Qed.

Lemma hd_error_filter {A : Type} (p : A -> bool) (l : list A) :
  hd_error (filter p l) = find p l.
Proof.
  induction l as [| x l IH]; simpl; [reflexivity |].
  destruct (p x); [reflexivity | exact IH].
Qed.

Lemma find_map_stable {A : Type} (p : A -> bool) (g : A -> A) (l : list A) :
  (forall x, p (g x) = p x) ->
  find p (map g l) = option_map g (find p l).
Proof.
  intro Hp. induction l as [| x l IH]; simpl; [reflexivity |].
  rewrite Hp. destruct (p x); [reflexivity | exact IH].
Qed.

Lemma map_unmatched {A : Type} (p : A -> bool) (g : A -> A) (l : list A) :
  (forall x, In x l -> p x = false) ->
  map (fun x => if p x then g x else x) l = l.
Proof.
  intro H. rewrite <- (map_id l) at 2. apply map_ext_in.
  intros x Hx. rewrite (H x Hx). reflexivity.
Qed.

Lemma same_store_counted (w : World) : same_store w (counted w).
Proof. repeat split. Qed.

(** An UPDATE that returns no row has changed nothing. *)
Lemma UPDATE_memories_same_store (where_ : Memory -> bool) (set : Memory -> Memory)
    (w : World) :
  match fst (UPDATE_memories where_ set w) with
  | Ok (_ :: _) => True
  | _ => same_store w (snd (UPDATE_memories where_ set w))
  end.
Proof.
  destruct (UPDATE_memories_cases where_ set w) as [[e He] | Hok].
  - rewrite He. apply same_store_refl.
  - rewrite Hok. cbn [fst snd].
    destruct (filter where_ (memories w)) as [| m l] eqn:Hf; cbn [map]; [| exact I].
    unfold same_store. cbn [memories set_memories memory_relations memory_access_log NOW].
    rewrite (map_unmatched _ _ _ (filter_nil_all _ _ Hf)). repeat split.
Qed.

(** A DELETE that removes no row has changed nothing. *)
Lemma DELETE_FROM_memories_same_store (where_ : Memory -> bool) (w : World) :
  filter where_ (memories w) = [] ->
  same_store w (snd (DELETE_FROM_memories where_ w)).
Proof.
  intro Hf. unfold DELETE_FROM_memories, same_store. rewrite Hf.
  cbn [snd memories set_memories set_memory_relations set_memory_access_log
       memory_relations memory_access_log NOW existsb negb andb].
  rewrite !filter_all; [repeat split | | |]; try reflexivity.
  intros m Hm. rewrite (filter_nil_all _ _ Hf m Hm). reflexivity.
Qed.

(** [MemoryQueries.decay] as one UPDATE. *)
Lemma decay_cases (i : string) (decayFactor : option Q) (w : World) :
  let where_ := fun m => has_id i m && IS_NULL (deleted_at m) in
  let set := MemoryQueries.decayed (nullish decayFactor (5 # 10)) in
  (exists e, MemoryQueries.decay i decayFactor w = (Err e, counted w))
  \/ MemoryQueries.decay i decayFactor w
     = (Ok (option_map set (find where_ (memories w))),
        set_memories (map (fun m => if where_ m then set m else m) (memories w)) (counted w)).
Proof.
  intros where_ set. unfold MemoryQueries.decay, bind, ret. rewrite query_counted.
  fold where_. fold set.
  destruct (UPDATE_memories_cases where_ set (counted w)) as [[e He] | Hok].
  - left. exists e. rewrite He. reflexivity.
  - right. rewrite Hok. cbn [memories counted].
    rewrite <- hd_error_filter.
    destruct (filter where_ (memories w)); reflexivity.
Qed.

(** [MemoryQueries.hardDelete] as one DELETE. *)
Lemma hardDelete_eq (i : string) (w : World) :
  MemoryQueries.hardDelete i w
  = (Ok (0 <? List.length (filter (has_id i) (memories w)))%nat,
     snd (DELETE_FROM_memories (has_id i) (counted w))).
Proof. reflexivity. Qed.

(** [MemoryQueries.forgetByCriteria] changes nothing when it fails or
    counts no row. *)
Lemma forgetByCriteria_same_store (a : MemoryQueries.ForgetArgs) (w : World) :
  match fst (MemoryQueries.forgetByCriteria a w) with
  | Ok (S _) => True
  | _ => same_store w (snd (MemoryQueries.forgetByCriteria a w))
  end.
Proof.
  unfold MemoryQueries.forgetByCriteria, bind, ret.
  destruct (MemoryQueries.f_soft a); rewrite query_counted.
  - pose proof (UPDATE_memories_same_store
                  (MemoryQueries.forget_where a (NOW (counted w)))
                  (MemoryQueries.soft_deleted (NOW (counted w))) (counted w)) as H.
    destruct (UPDATE_memories _ _ (counted w)) as [[[| m rows] | e] w1];
      cbn [fst snd List.length] in *; try exact I;
      (eapply same_store_trans; [apply same_store_counted | exact H]).
  - pose proof (DELETE_FROM_memories_same_store
                  (MemoryQueries.forget_where a (NOW (counted w))) (counted w)) as H.
    unfold DELETE_FROM_memories at 1 2. cbn [fst snd].
    destruct (filter _ (memories (counted w))) as [| m rows] eqn:Hf; cbn [List.length];
      [| exact I].
    eapply same_store_trans; [apply same_store_counted |].
    unfold DELETE_FROM_memories in H. rewrite Hf in H. apply H. reflexivity.
Qed.

End ForgetTool.

(** X20. A forget call that reports failure, or that reports success
    having forgotten nothing, has left the memories, the relations and the
    access log as they were. *)
Theorem forget_failure_changes_nothing :
  forall (params : forget.Params) (w : World),
    forget.success (fst (forget.handler params w)) = false
    \/ forget.forgotten (fst (forget.handler params w)) = Some 0%nat ->
    same_store w (snd (forget.handler params w)).
Proof.
  intros params w. unfold forget.handler, forget.body.
  destruct (Js.truthy (forget.p_memoryId params)).
  - unfold bind at 1. unfold lift.
    destruct (Security.validateUUID (forget.p_memoryId params)) as [i | e];
      [| intros _; apply same_store_refl].
    destruct (forget.soft_of (forget.p_soft params)).
    + unfold bind, ret.
      destruct (decay_cases i (Some (nullish (forget.p_decayFactor params) (1 # 10))) w)
        as [[e He] | Hok].
      * rewrite He. intros _. apply same_store_counted.
      * rewrite Hok.
        destruct (find _ (memories w)) as [m |] eqn:Hfind; cbn [option_map fst snd].
        -- intros [H | H]; discriminate.
        -- intros _. unfold same_store.
           cbn [memories set_memories memory_relations memory_access_log NOW counted].
           rewrite map_unmatched; [repeat split |].
           intros m Hm. exact (find_none _ _ Hfind m Hm).
    + unfold bind, ret. rewrite hardDelete_eq.
      cbn [fst snd forget.success forget.forgotten].
      destruct (filter (has_id i) (memories w)) as [| m rows] eqn:Hf.
      * intros _. eapply same_store_trans; [apply same_store_counted |].
        apply DELETE_FROM_memories_same_store. exact Hf.
      * cbn. intros [H' | H']; discriminate.
  - destruct (forget.hasCriteria params); cbn [negb].
    + unfold bind at 1.
      destruct (Js.truthy (forget.p_tags params)).
      * unfold lift.
        destruct (Security.validateTags (forget.p_tags params)) as [ts | e];
          cbn [result_bind]; [| intros _; apply same_store_refl].
        unfold bind, ret.
        match goal with |- context [MemoryQueries.forgetByCriteria ?a w] =>
          pose proof (forgetByCriteria_same_store a w) as H;
          destruct (MemoryQueries.forgetByCriteria a w) as [[[| n] | e] w1]
        end; cbn [fst snd forget.success forget.forgotten forget.failed] in *;
          try (intros _; exact H).
        intros [H' | H']; discriminate.
      * unfold bind, ret.
        match goal with |- context [MemoryQueries.forgetByCriteria ?a w] =>
          pose proof (forgetByCriteria_same_store a w) as H;
          destruct (MemoryQueries.forgetByCriteria a w) as [[[| n] | e] w1]
        end; cbn [fst snd forget.success forget.forgotten forget.failed] in *;
          try (intros _; exact H).
        intros [H' | H']; discriminate.
    + intros _. apply same_store_refl.
Qed.

Lemma forget_failure_changes_nothing_witness :
  forget.success
    (fst (forget.handler
            {| forget.p_memoryId := JUndefined; forget.p_tags := JUndefined;
               forget.p_olderThanDays := JUndefined; forget.p_belowImportance := None;
               forget.p_soft := JUndefined; forget.p_decayFactor := None |} two_notes)) = false
  /\ same_store two_notes
       (snd (forget.handler
               {| forget.p_memoryId := JUndefined; forget.p_tags := JUndefined;
                  forget.p_olderThanDays := JUndefined; forget.p_belowImportance := None;
                  forget.p_soft := JUndefined; forget.p_decayFactor := None |} two_notes)).
Proof.
  set (p := {| forget.p_memoryId := JUndefined; forget.p_tags := JUndefined;
               forget.p_olderThanDays := JUndefined; forget.p_belowImportance := None;
               forget.p_soft := JUndefined; forget.p_decayFactor := None |}).
  assert (H : forget.success (fst (forget.handler p two_notes)) = false) by reflexivity.
  split; [exact H |].
  exact (forget_failure_changes_nothing p two_notes (or_introl H)).
Defined.

(** X21. A soft forget by identifier never removes or soft-deletes a row
    and touches neither relations nor the access log; when it reports
    success the memory is still what [getById] returns, with the importance
    the reply shows, which is at least 0.01. *)
Theorem forget_soft_by_id_keeps_memory :
  forall (params : forget.Params) (w : World),
    Js.truthy (forget.p_memoryId params) = true ->
    forget.soft_of (forget.p_soft params) = true ->
    let reply := fst (forget.handler params w) in
    let w' := snd (forget.handler params w) in
    map id (memories w') = map id (memories w)
    /\ map deleted_at (memories w') = map deleted_at (memories w)
    /\ memory_relations w' = memory_relations w
    /\ memory_access_log w' = memory_access_log w
    /\ (forget.success reply = true ->
        exists i m,
          Security.validateUUID (forget.p_memoryId params) = Ok i
          /\ fst (MemoryQueries.getById i w') = Ok (Some m)
          /\ forget.memory reply = Some (i, importance m)
          /\ 1 # 100 <= importance m).
Proof.
  intros params w Hid Hsoft. unfold forget.handler, forget.body.
  rewrite Hid, Hsoft. unfold bind at 1. unfold bind at 2. unfold lift.
  destruct (Security.validateUUID (forget.p_memoryId params)) as [i | e];
    [| cbn; repeat split; discriminate].
  unfold bind, ret.
  set (f := nullish (forget.p_decayFactor params) (1 # 10)).
  destruct (decay_cases i (Some f) w) as [[e He] | Hok].
  { rewrite He. cbn. repeat split. discriminate. }
  rewrite Hok. clear Hok. cbn [nullish].
  set (where_ := fun m => has_id i m && IS_NULL (deleted_at m)).
  set (g := fun m => if where_ m then MemoryQueries.decayed f m else m).
  destruct (find where_ (memories w)) as [m0 |] eqn:Hfind; cbn [option_map fst snd];
    cbn [memories set_memories memory_relations memory_access_log counted];
    rewrite !map_map;
    (split; [apply map_ext; intro m;
             destruct (has_id i m && IS_NULL (deleted_at m)); reflexivity |]);
    (split; [apply map_ext; intro m;
             destruct (has_id i m && IS_NULL (deleted_at m)); reflexivity |]);
    (split; [reflexivity |]); (split; [reflexivity |]); cbn [forget.success forget.failed];
    [| discriminate].
  intros _. exists i, (MemoryQueries.decayed f m0).
  apply find_some in Hfind as Hm0. destruct Hm0 as [_ Hm0].
  split; [reflexivity |]. split; [| split].
  - unfold MemoryQueries.getById. rewrite query_counted.
    cbn [fst memories counted set_memories]. f_equal. fold where_.
    rewrite (find_map_stable where_ g).
    + rewrite Hfind. cbn [option_map]. unfold g. rewrite Hm0. reflexivity.
    + intro x. unfold g. destruct (where_ x) eqn:Hx; [| exact Hx].
      rewrite <- Hx. reflexivity.
  - cbn [forget.memory MemoryQueries.decayed id importance]. f_equal. f_equal.
    apply andb_true_iff in Hm0 as [Hm0 _]. apply has_id_true in Hm0. exact Hm0.
  - cbn [MemoryQueries.decayed importance]. apply GREATEST_ge_r.
Qed.

Lemma forget_soft_by_id_keeps_memory_witness :
  exists m,
    fst (MemoryQueries.getById (example_id 0)
           (snd (forget.handler
                   {| forget.p_memoryId := JString (example_id 0); forget.p_tags := JUndefined;
                      forget.p_olderThanDays := JUndefined; forget.p_belowImportance := None;
                      forget.p_soft := JUndefined; forget.p_decayFactor := None |}
                   two_notes))) = Ok (Some m)
    /\ 1 # 100 <= importance m.
Proof.
  set (p := {| forget.p_memoryId := JString (example_id 0); forget.p_tags := JUndefined;
               forget.p_olderThanDays := JUndefined; forget.p_belowImportance := None;
               forget.p_soft := JUndefined; forget.p_decayFactor := None |}).
  destruct (forget_soft_by_id_keeps_memory p two_notes eq_refl eq_refl)
    as (_ & _ & _ & _ & H).
  destruct (H ltac:(vm_compute; reflexivity)) as (i & m & Hi & Hget & _ & Himp).
  exists m. split; [| exact Himp].
  assert (Hi' : i = example_id 0)
    by (vm_compute in Hi; injection Hi as <-; vm_compute; reflexivity).
  rewrite <- Hi'. exact Hget.
Defined.

Section ForgetCriteria.

(** With no tag to match, no age and no importance threshold, the
    conjunction of [forgetByCriteria] is [deleted_at IS NULL] alone. *)
Lemma forget_where_no_condition (a : MemoryQueries.ForgetArgs) (now : Z) (m : Memory) :
  MemoryQueries.f_tags a = None \/ MemoryQueries.f_tags a = Some [] ->
  MemoryQueries.f_olderThanDays a = None \/ MemoryQueries.f_olderThanDays a = Some 0%Z ->
  MemoryQueries.f_minImportance a = None ->
  MemoryQueries.forget_where a now m = IS_NULL (deleted_at m).
Proof.
  intros [Ht | Ht] [Hd | Hd] Hi; unfold MemoryQueries.forget_where;
    rewrite Ht, Hd, Hi; cbn; rewrite ?andb_true_r; reflexivity.
Qed.

(** The handler when no identifier is given and the criteria check
    passes: one call of [forgetByCriteria]. *)
Lemma forget_by_criteria_eq (params : forget.Params) (w : World)
    (tagFilter : option (list string)) :
  Js.truthy (forget.p_memoryId params) = false ->
  forget.hasCriteria params = true ->
  (if Js.truthy (forget.p_tags params)
   then Security.validateTags (forget.p_tags params) = Ok (nullish tagFilter [])
        /\ tagFilter <> None
   else tagFilter = None) ->
  let soft := forget.soft_of (forget.p_soft params) in
  let a := {| MemoryQueries.f_tags := tagFilter;
              MemoryQueries.f_olderThanDays :=
                if Js.truthy (forget.p_olderThanDays params)
                then Js.parseIntNoRadix (forget.p_olderThanDays params) else None;
              MemoryQueries.f_minImportance :=
                match forget.p_belowImportance params with
                | Some (Some q) => Some q
                | _ => None
                end;
              MemoryQueries.f_soft := soft |} in
  forget.handler params w
  = match MemoryQueries.forgetByCriteria a w with
    | (Ok count, w') =>
        ({| forget.success := true;
            forget.method := Some (if soft then "soft" else "hard")%string;
            forget.forgotten := Some count; forget.memory := None;
            forget.error := None |}, w')
    | (Err e, w') => (forget.failed e, w')
    end.
Proof.
  intros Hid Hcrit Htags soft a. unfold forget.handler, forget.body.
  rewrite Hid, Hcrit. cbn [negb]. unfold bind at 1.
  destruct (Js.truthy (forget.p_tags params)).
  - destruct Htags as [Hv Hsome]. unfold lift. rewrite Hv. cbn [result_bind].
    destruct tagFilter as [ts |]; [| congruence]. cbn [nullish].
    fold soft. fold a. unfold bind, ret.
    destruct (MemoryQueries.forgetByCriteria a w) as [[count | e] w']; reflexivity.
  - subst tagFilter. unfold ret at 1. fold soft. fold a. unfold bind, ret.
    destruct (MemoryQueries.forgetByCriteria a w) as [[count | e] w']; reflexivity.
Qed.

End ForgetCriteria.

(** X22. A forget call that names no memory and passes the criteria check
    without giving a tag, an age or an importance threshold (an empty tag
    list, or [belowImportance: null]) soft-deletes every active memory: when
    it reports success, it reports the number of memories that were active,
    and none is active any more. *)
Theorem forget_without_condition_forgets_all :
  forall (params : forget.Params) (w : World),
    Js.truthy (forget.p_memoryId params) = false ->
    forget.hasCriteria params = true ->
    forget.p_tags params = JArray [] \/ Js.truthy (forget.p_tags params) = false ->
    Js.truthy (forget.p_olderThanDays params) = false
    \/ Js.parseIntNoRadix (forget.p_olderThanDays params) = None
    \/ Js.parseIntNoRadix (forget.p_olderThanDays params) = Some 0%Z ->
    forget.p_belowImportance params = None \/ forget.p_belowImportance params = Some None ->
    forget.soft_of (forget.p_soft params) = true ->
    forget.success (fst (forget.handler params w)) = true ->
    forget.forgotten (fst (forget.handler params w))
    = Some (List.length (filter (fun m => IS_NULL (deleted_at m)) (memories w)))
    /\ (forall m, In m (memories (snd (forget.handler params w))) -> deleted_at m <> None)
    /\ List.length (memories (snd (forget.handler params w))) = List.length (memories w).
Proof.
  intros params w Hid Hcrit Htags Hdays Himp Hsoft.
  set (tagFilter := if Js.truthy (forget.p_tags params) then Some [] else @None (list string)).
  rewrite (forget_by_criteria_eq params w tagFilter Hid Hcrit).
  2: { unfold tagFilter. destruct Htags as [-> | ->]; cbn [Js.truthy].
       - split; [reflexivity | discriminate].
       - reflexivity. }
  rewrite Hsoft.
  match goal with |- context [MemoryQueries.forgetByCriteria ?a0] => set (a := a0) end.
  assert (Hwhere : forall now m, MemoryQueries.forget_where a now m = IS_NULL (deleted_at m)).
  { intros now m. apply forget_where_no_condition; unfold a; cbn.
    - unfold tagFilter. destruct (Js.truthy (forget.p_tags params)); tauto.
    - destruct (Js.truthy (forget.p_olderThanDays params)); [| tauto].
      destruct Hdays as [Hd | [Hd | Hd]]; [discriminate | tauto | tauto].
    - destruct Himp as [-> | ->]; reflexivity. }
  unfold MemoryQueries.forgetByCriteria.
  change (MemoryQueries.f_soft a) with true. cbv iota. unfold bind, ret.
  rewrite query_counted.
  destruct (UPDATE_memories_cases (MemoryQueries.forget_where a (NOW (counted w)))
              (MemoryQueries.soft_deleted (NOW (counted w))) (counted w)) as [[e He] | Hok].
  { rewrite He. cbn. discriminate. }
  rewrite Hok. cbn [fst snd forget.success forget.forgotten memories set_memories counted].
  intros _. rewrite !length_map. split; [| split; [| reflexivity]].
  - f_equal. f_equal. apply filter_ext. intro m. apply Hwhere.
  - intros m Hm. apply in_map_iff in Hm as (m0 & <- & _). rewrite Hwhere.
    destruct (deleted_at m0) eqn:Hdel; cbn [IS_NULL].
    + rewrite Hdel. discriminate.
    + cbn. discriminate.
Qed.

Lemma forget_without_condition_forgets_all_witness :
  forget.forgotten
    (fst (forget.handler
            {| forget.p_memoryId := JUndefined; forget.p_tags := JArray [];
               forget.p_olderThanDays := JUndefined; forget.p_belowImportance := None;
               forget.p_soft := JUndefined; forget.p_decayFactor := None |} two_notes))
  = Some 2%nat.
Proof.
  set (p := {| forget.p_memoryId := JUndefined; forget.p_tags := JArray [];
               forget.p_olderThanDays := JUndefined; forget.p_belowImportance := None;
               forget.p_soft := JUndefined; forget.p_decayFactor := None |}).
  destruct (forget_without_condition_forgets_all p two_notes eq_refl eq_refl
              (or_introl eq_refl) (or_introl eq_refl) (or_introl eq_refl) eq_refl
              ltac:(vm_compute; reflexivity)) as (H & _).
  rewrite H. vm_compute. reflexivity.
Defined.

(** ** The reinforce tool *)

Section ReinforceTool.

(** What a [MemoryQueries.reinforce] that found its memory has done. *)
Lemma reinforce_found (i : string) (importanceDelta : option Q) (w w1 : World) (m' : Memory) :
  MemoryQueries.reinforce i importanceDelta w = (Ok (Some m'), w1) ->
  let where_ := fun m => has_id i m && IS_NULL (deleted_at m) in
  let set := MemoryQueries.reinforced (nullish importanceDelta (1 # 10)) (NOW w) in
  exists m0,
    find where_ (memories w) = Some m0
    /\ m' = set m0
    /\ w1 = set_memories (map (fun m => if where_ m then set m else m) (memories w)) (counted w)
    /\ forall j, find (fun m => has_id j m && IS_NULL (deleted_at m)) (memories w1)
                 = option_map (fun m => if where_ m then set m else m)
                     (find (fun m => has_id j m && IS_NULL (deleted_at m)) (memories w)).
Proof.
  intros H where_ set. revert H.
  unfold MemoryQueries.reinforce, bind, ret. rewrite query_counted.
  change (NOW (counted w)) with (NOW w). fold where_. fold set.
  destruct (UPDATE_memories_cases where_ set (counted w)) as [[e He] | Hok].
  { rewrite He. discriminate. }
  rewrite Hok. cbn [memories counted]. rewrite <- (hd_error_filter where_).
  destruct (filter where_ (memories w)) as [| m0 l] eqn:Hf; cbn [map hd_error];
    intro H; [discriminate |]. injection H as <- <-.
  exists m0. repeat split.
  intro j. cbn [memories set_memories]. apply find_map_stable.
  intro x. destruct (where_ x); reflexivity.
Qed.

End ReinforceTool.

(** X23. reinforce is not atomic: once the memory has been reinforced, a
    [relateToMemory] that is not a UUID, or that names the memory itself,
    makes the call report failure, and the reinforcement stays: the memory
    [getById] then returns has one more reinforcement and was last reinforced
    now. *)
Theorem reinforce_fails_after_reinforcing :
  forall (params : reinforce.Params) (w w1 : World) (i : string) (m' : Memory),
    Security.validateUUID (reinforce.p_memoryId params) = Ok i ->
    MemoryQueries.reinforce i (Some (nullish (reinforce.p_boost params) (1 # 10))) w
      = (Ok (Some m'), w1) ->
    Js.truthy (reinforce.p_relateToMemory params) = true ->
    Security.validateUUID (reinforce.p_relateToMemory params) = Ok i
    \/ (exists e, Security.validateUUID (reinforce.p_relateToMemory params) = Err e) ->
    exists e w',
      reinforce.handler params w = (Failure e, w')
      /\ memory_relations w' = memory_relations w
      /\ fst (MemoryQueries.getById i w') = Ok (Some m')
      /\ exists m0,
           fst (MemoryQueries.getById i w) = Ok (Some m0)
           /\ reinforcement_count m' = (reinforcement_count m0 + 1)%Z
           /\ last_reinforced m' = Some (NOW w).
Proof.
  intros params w w1 i m' Hv Hr Htruthy Hrel.
  destruct (reinforce_found _ _ _ _ _ Hr) as (m0 & Hfind & Hm' & Hw1 & Hstable).
  assert (Hget1 : find (fun m => has_id i m && IS_NULL (deleted_at m)) (memories w1) = Some m').
  { rewrite Hstable, Hfind. cbn [option_map]. apply find_some in Hfind as [_ ->].
    rewrite Hm'. reflexivity. }
  assert (Hold : exists m0,
             fst (MemoryQueries.getById i w) = Ok (Some m0)
             /\ reinforcement_count m' = (reinforcement_count m0 + 1)%Z
             /\ last_reinforced m' = Some (NOW w)).
  { exists m0. rewrite getById_eq, Hfind, Hm'. repeat split. }
  assert (Hrel1 : memory_relations w1 = memory_relations w) by (rewrite Hw1; reflexivity).
  unfold reinforce.handler, try_catch.
  unfold bind at 1. unfold lift at 1. rewrite Hv.
  unfold bind at 1. rewrite Hr. rewrite Htruthy.
  unfold bind at 1. unfold lift at 1.
  destruct Hrel as [Hself | [e He]].
  - rewrite Hself. unfold bind at 1. rewrite getById_eq, Hget1.
    unfold bind at 1. unfold RelationQueries.create. rewrite query_counted, String.eqb_refl.
    eexists. eexists. split; [reflexivity |].
    repeat split; [exact Hrel1 | | exact Hold].
    rewrite getById_eq. cbn [fst counted memories]. rewrite Hget1. reflexivity.
  - rewrite He. exists e, w1. split; [reflexivity |].
    repeat split; [exact Hrel1 | | exact Hold].
    rewrite getById_eq. cbn [fst]. rewrite Hget1. reflexivity.
Qed.

Lemma reinforce_fails_after_reinforcing_witness :
  exists e w',
    reinforce.handler
      {| reinforce.p_memoryId := JString (example_id 0); reinforce.p_boost := None;
         reinforce.p_relateToMemory := JString (example_id 0);
         reinforce.p_relationType := None; reinforce.p_relationStrength := None |}
      two_notes = (Failure e, w')
    /\ exists m, fst (MemoryQueries.getById (example_id 0) w') = Ok (Some m)
                 /\ reinforcement_count m = 1%Z.
Proof.
  set (p := {| reinforce.p_memoryId := JString (example_id 0); reinforce.p_boost := None;
               reinforce.p_relateToMemory := JString (example_id 0);
               reinforce.p_relationType := None; reinforce.p_relationStrength := None |}).
  destruct (MemoryQueries.reinforce (example_id 0)
              (Some (nullish (reinforce.p_boost p) (1 # 10))) two_notes)
    as [[[m' |] | err] w1] eqn:Hr;
    [| vm_compute in Hr; discriminate | vm_compute in Hr; discriminate].
  assert (Hv : Security.validateUUID (reinforce.p_memoryId p) = Ok (example_id 0))
    by (vm_compute; reflexivity).
  destruct (reinforce_fails_after_reinforcing p two_notes w1 (example_id 0) m' Hv Hr eq_refl
              (or_introl Hv)) as (e & w' & Hh & _ & Hget & m0 & Hget0 & Hcount & _).
  exists e, w'. split; [exact Hh |].
  exists m'. split; [exact Hget |].
  rewrite Hcount. vm_compute in Hget0. injection Hget0 as <-. reflexivity.
Defined.

(** X24. A reinforce call whose [relateToMemory] names a memory that is
    missing or soft-deleted still reports success: the memory is reinforced,
    the reply carries a relation error, and no relation is stored. *)
Theorem reinforce_missing_target :
  forall (params : reinforce.Params) (w w1 : World) (i t : string) (m' : Memory),
    Security.validateUUID (reinforce.p_memoryId params) = Ok i ->
    MemoryQueries.reinforce i (Some (nullish (reinforce.p_boost params) (1 # 10))) w
      = (Ok (Some m'), w1) ->
    Js.truthy (reinforce.p_relateToMemory params) = true ->
    Security.validateUUID (reinforce.p_relateToMemory params) = Ok t ->
    fst (MemoryQueries.getById t w) = Ok None ->
    exists w',
      reinforce.handler params w
      = (Success {| reinforce.r_memory := m'; reinforce.r_relation := None;
                    reinforce.r_relationError := Some ("Target memory not found: " ++ t)%string |},
         w')
      /\ memory_relations w' = memory_relations w
      /\ fst (MemoryQueries.getById i w') = Ok (Some m').
Proof.
  intros params w w1 i t m' Hv Hr Htruthy Ht Hmissing.
  destruct (reinforce_found _ _ _ _ _ Hr) as (m0 & Hfind & Hm' & Hw1 & Hstable).
  rewrite getById_eq in Hmissing. cbn [fst] in Hmissing. injection Hmissing as Hmissing.
  unfold reinforce.handler, try_catch.
  unfold bind at 1. unfold lift at 1. rewrite Hv.
  unfold bind at 1. rewrite Hr. rewrite Htruthy.
  unfold bind at 1. unfold lift at 1. rewrite Ht.
  unfold bind at 1. rewrite getById_eq, Hstable, Hmissing. cbn [option_map].
  unfold ret. eexists. split; [reflexivity |]. split.
  - rewrite Hw1. reflexivity.
  - rewrite getById_eq. cbn [fst counted memories]. rewrite Hstable, Hfind.
    cbn [option_map]. apply find_some in Hfind as [_ ->]. rewrite Hm'. reflexivity.
Qed.

Lemma reinforce_missing_target_witness :
  exists payload w',
    reinforce.handler
      {| reinforce.p_memoryId := JString (example_id 0); reinforce.p_boost := None;
         reinforce.p_relateToMemory := JString (example_id 1);
         reinforce.p_relationType := None; reinforce.p_relationStrength := None |}
      soft_deleted_endpoint = (Success payload, w')
    /\ reinforce.r_relation payload = None
    /\ reinforce.r_relationError payload
       = Some ("Target memory not found: " ++ example_id 1)%string.
Proof.
  set (p := {| reinforce.p_memoryId := JString (example_id 0); reinforce.p_boost := None;
               reinforce.p_relateToMemory := JString (example_id 1);
               reinforce.p_relationType := None; reinforce.p_relationStrength := None |}).
  destruct (MemoryQueries.reinforce (example_id 0)
              (Some (nullish (reinforce.p_boost p) (1 # 10))) soft_deleted_endpoint)
    as [[[m' |] | err] w1] eqn:Hr;
    [| vm_compute in Hr; discriminate | vm_compute in Hr; discriminate].
  destruct (reinforce_missing_target p soft_deleted_endpoint w1 (example_id 0) (example_id 1) m'
              ltac:(vm_compute; reflexivity) Hr eq_refl ltac:(vm_compute; reflexivity)
              ltac:(vm_compute; reflexivity)) as (w' & Hh & _).
  eexists. exists w'. split; [exact Hh |]. split; reflexivity.
Defined.

(** ** The search_memory and get_related tools *)

Section ReadTools.

Context `{E : Externals}.
Variable cfg : Config.

Lemma validateLimit_upper (v : JsValue) (max l : Z) :
  (10 <= max)%Z -> Security.validateLimit v max = Ok l -> (1 <= l <= max)%Z.
Proof.
  intros Hmax H. split; [apply (validateLimit_range v max l); [lia | exact H] |].
  revert H. unfold Security.validateLimit.
  destruct v; try (intro Hok; injection Hok as <-; lia);
    (destruct (Js.parseInt _) as [num |]; [| discriminate];
     destruct (Z.ltb_spec num 1) as [Hlt | Hge]; [discriminate |];
     intro Hok; injection Hok as <-; lia).
Qed.

(** A successful search_memory call, step by step. *)
Lemma search_memory_outcome (params : search_memory.Params) (w : World)
    (payload : search_memory.Payload) :
  fst (search_memory.handler cfg params w) = Success payload ->
  exists queryText limit a w1 results,
    Security.validateQuery (search_memory.p_query params) = Ok queryText
    /\ Security.validateLimit (search_memory.p_limit params) 100 = Ok limit
    /\ MemoryQueries.s_limit a = Some limit
    /\ MemoryQueries.s_minScore a = Some (nullish (search_memory.p_minScore params) (3 # 10))
    /\ same_store w w1
    /\ fst (MemoryQueries.search cfg a w1) = Ok results
    /\ payload = {| search_memory.r_query := queryText;
                    search_memory.r_count := List.length results;
                    search_memory.r_memories := map search_memory.view results |}.
Proof.
  unfold search_memory.handler, try_catch.
  unfold bind at 1. unfold lift at 1.
  destruct (Security.validateQuery _) as [queryText | e]; [| discriminate].
  unfold bind at 1. unfold lift at 1.
  destruct (Security.validateLimit _ _) as [limit | e]; [| discriminate].
  unfold bind at 1.
  destruct ((if Js.truthy (search_memory.p_tags params)
             then lift (result_bind (Security.validateTags (search_memory.p_tags params))
                          (fun t => Ok (Some t)))
             else ret None) w) as [[tagFilter | e] w0] eqn:Htags; [| discriminate].
  assert (Hw0 : w0 = w).
  { destruct (Js.truthy _); unfold lift, ret in Htags; congruence. }
  subst w0. unfold bind at 1. unfold lift at 1.
  destruct (result_bind (optional_trim _) _) as [sourceFilter | e]; [| discriminate].
  unfold bind at 1.
  pose proof (generateEmbedding_same_store cfg (JString queryText) w) as Hs1.
  destruct (Generator.generateEmbedding cfg (JString queryText) w) as [[embedding_ | e] w1];
    [| discriminate].
  cbn [snd] in Hs1. unfold bind at 1.
  match goal with |- context [MemoryQueries.search cfg ?a0 w1] => set (a := a0) end.
  destruct (MemoryQueries.search cfg a w1) as [[results | e] w2] eqn:Hsearch; [| discriminate].
  unfold bind at 1.
  destruct ((if (0 <? List.length results)%nat
             then fire_and_forget "Failed to update access counts:"
                    (MemoryQueries.batchUpdateAccess (map (fun r => id (row r)) results)
                       (Some queryText))
             else ret tt) w2) as [[u | e] w3] eqn:Hlog.
  - unfold ret. cbn [fst]. intro H. injection H as <-.
    exists queryText, limit, a, w1, results. repeat split; try assumption; try apply Hs1.
    rewrite Hsearch. reflexivity.
  - exfalso. destruct (0 <? List.length results)%nat; [| discriminate].
    unfold fire_and_forget, console_log in Hlog.
    destruct (MemoryQueries.batchUpdateAccess _ _ w2) as [[u | e'] w4]; discriminate.
Qed.

(** search_memory changes nothing in the store. *)
Lemma search_memory_same_store (params : search_memory.Params) (w : World) :
  same_store w (snd (search_memory.handler cfg params w)).
Proof.
  unfold search_memory.handler, try_catch.
  unfold bind at 1. unfold lift at 1.
  destruct (Security.validateQuery _) as [queryText | e]; [| apply same_store_refl].
  unfold bind at 1. unfold lift at 1.
  destruct (Security.validateLimit _ _) as [limit | e]; [| apply same_store_refl].
  unfold bind at 1.
  destruct ((if Js.truthy (search_memory.p_tags params)
             then lift (result_bind (Security.validateTags (search_memory.p_tags params))
                          (fun t => Ok (Some t)))
             else ret None) w) as [[tagFilter | e] w0] eqn:Htags.
  2: { destruct (Js.truthy _); unfold lift, ret in Htags;
       injection Htags as _ <-; apply same_store_refl. }
  assert (Hw0 : w0 = w).
  { destruct (Js.truthy _); unfold lift, ret in Htags; congruence. }
  subst w0. unfold bind at 1. unfold lift at 1.
  destruct (result_bind (optional_trim _) _) as [sourceFilter | e]; [| apply same_store_refl].
  unfold bind at 1.
  pose proof (generateEmbedding_same_store cfg (JString queryText) w) as Hs1.
  destruct (Generator.generateEmbedding cfg (JString queryText) w) as [[embedding_ | e] w1];
    cbn [snd] in Hs1; [| exact Hs1].
  unfold bind at 1.
  match goal with |- context [MemoryQueries.search cfg ?a0 w1] =>
    pose proof (search_same_store cfg a0 w1) as Hs2;
    destruct (MemoryQueries.search cfg a0 w1) as [[results | e] w2]
  end; cbn [snd] in Hs2; [| eapply same_store_trans; eassumption].
  unfold bind at 1, ret, fire_and_forget.
  destruct results as [| r results]; cbn [List.length Nat.ltb Nat.leb].
  - cbn. eapply same_store_trans; eassumption.
  - match goal with |- context [MemoryQueries.batchUpdateAccess ?ids ?q w2] =>
      destruct (batchUpdateAccess_refused ids q w2 ltac:(discriminate)) as (e & He & Hs3);
      destruct (MemoryQueries.batchUpdateAccess ids q w2) as [[u | e'] w3]
    end; cbn [fst snd] in *; [discriminate |].
    eapply same_store_trans; [exact Hs1 |].
    eapply same_store_trans; [exact Hs2 |].
    eapply same_store_trans; [exact Hs3 |].
    repeat split.
Qed.

End ReadTools.

(** X25. What a successful search_memory call returns: the query as
    validated, at most [limit] memories and never more than 100, each of them
    a stored memory that is not soft-deleted, shown with its own id, content,
    tags and importance, and scored at least [minScore] (0.3 when left
    out). *)
Theorem search_memory_results :
  forall (E : Externals) (cfg : Config) (params : search_memory.Params) (w : World)
         (payload : search_memory.Payload),
    fst (search_memory.handler cfg params w) = Success payload ->
    Security.validateQuery (search_memory.p_query params) = Ok (search_memory.r_query payload)
    /\ search_memory.r_count payload = List.length (search_memory.r_memories payload)
    /\ (search_memory.r_count payload <= 100)%nat
    /\ (forall l, Security.validateLimit (search_memory.p_limit params) 100 = Ok l ->
          (Z.of_nat (search_memory.r_count payload) <= l)%Z)
    /\ (forall v, In v (search_memory.r_memories payload) ->
          exists m score,
            In m (memories w) /\ deleted_at m = None
            /\ v_id v = id m /\ v_content v = content m /\ v_tags v = tags m
            /\ v_importance v = importance m
            /\ nullish (search_memory.p_minScore params) (3 # 10) <= score
            /\ hybrid (v_scores v) = Js.toFixed4 score).
Proof.
  intros E cfg params w payload H.
  destruct (search_memory_outcome cfg params w payload H)
    as (queryText & limit & a & w1 & results & Hq & Hl & Hal & Ham & Hs & Hsearch & ->).
  cbn [search_memory.r_query search_memory.r_count search_memory.r_memories].
  pose proof (validateLimit_upper _ 100 _ ltac:(lia) Hl) as Hlimit.
  assert (Hlen : (Z.of_nat (List.length results) <= limit)%Z).
  { rewrite search_unfold, Hal in Hsearch. cbn [nullish] in Hsearch.
    destruct (limit <? 0)%Z; [discriminate |]. injection Hsearch as <-.
    pose proof (search_spec_props (candidates cfg a w1) (Z.to_nat limit)
                  (nullish (MemoryQueries.s_minScore a) (3 # 10))) as [Hle _].
    lia. }
  split; [exact Hq |]. split; [rewrite length_map; reflexivity |].
  split; [lia |]. split; [intros l Hl'; rewrite Hl in Hl'; injection Hl' as <-; exact Hlen |].
  intros v Hv. apply in_map_iff in Hv as (r & <- & Hr).
  pose proof (search_results_where cfg a w1 results r Hsearch Hr) as Hcand.
  destruct (candidates_where cfg a w1 r Hcand) as (Hin & Hdel & _).
  exists (row r), (hybrid_score r).
  destruct Hs as (Hmem & _). rewrite Hmem in Hin.
  repeat split; try assumption; try reflexivity.
  rewrite search_unfold in Hsearch.
  destruct (_ <? 0)%Z; [discriminate |]. injection Hsearch as <-.
  apply search_spec_props in Hr as (_ & Hm & _). rewrite Ham in Hm. exact Hm.
Qed.

Lemma search_memory_results_witness :
  exists payload,
    fst (@search_memory.handler example_externals default_config
           {| search_memory.p_query := JString "note"; search_memory.p_limit := JNumber 1;
              search_memory.p_minScore := None; search_memory.p_tags := JUndefined;
              search_memory.p_source := JUndefined |} two_notes) = Success payload
    /\ (Z.of_nat (search_memory.r_count payload) <= 1)%Z.
Proof.
  destruct (fst (@search_memory.handler example_externals default_config
                   {| search_memory.p_query := JString "note"; search_memory.p_limit := JNumber 1;
                      search_memory.p_minScore := None; search_memory.p_tags := JUndefined;
                      search_memory.p_source := JUndefined |} two_notes))
    as [payload | e] eqn:H; [| vm_compute in H; discriminate].
  exists payload. split; [reflexivity |].
  destruct (search_memory_results example_externals default_config _ _ _ H)
    as (_ & _ & _ & Hl & _).
  apply Hl. vm_compute. reflexivity.
Defined.

Section GetRelated.

Context `{E : Externals}.

Import get_related.

Lemma getRelated_same_store (i : string) (limit : option Z) (w : World) :
  same_store w (snd (MemoryQueries.getRelated i limit w)).
Proof.
  unfold MemoryQueries.getRelated, bind, ret. rewrite query_counted. cbn [fst snd].
  destruct (find _ (memories (counted w))); [| apply same_store_counted].
  rewrite query_counted. unfold LIMIT.
  destruct (_ <? 0)%Z; repeat split.
Qed.





(** get_related changes nothing in the store. *)
Lemma get_related_same_store (params : Params) (w : World) :
  same_store w (snd (handler params w)).
Proof.
  unfold handler, try_catch.
  unfold bind at 1. unfold lift at 1.
  destruct (Security.validateUUID _) as [memoryId | e]; [| apply same_store_refl].
  unfold bind at 1. unfold lift at 1.
  destruct (Security.validateLimit _ _) as [limit | e]; [| apply same_store_refl].
  unfold bind at 1. rewrite getById_eq.
  destruct (find _ (memories w)) as [sourceMemory |]; [| apply same_store_counted].
  unfold bind at 1.
  set (w0 := counted w).
  destruct ((if not_false (p_includeExplicit params)
             then (relationships <- RelationQueries.getByMemory memoryId None ;;
                   ret (map (explicit memoryId) relationships))%M
             else ret []) w0) as [[explicit_ | e] w1] eqn:Hexp.
  2: { exfalso. destruct (not_false _); [| discriminate].
       unfold bind, ret, RelationQueries.getByMemory in Hexp.
       rewrite query_counted in Hexp. discriminate. }
  assert (Hs1 : same_store w w1).
  { destruct (not_false _).
    - unfold bind, ret, RelationQueries.getByMemory in Hexp.
      rewrite query_counted in Hexp. injection Hexp as _ <-. repeat split.
    - unfold ret in Hexp. injection Hexp as _ <-. repeat split. }
  unfold bind at 1.
  destruct (not_false (p_includeSimilar params)).
  - unfold bind at 1.
    pose proof (getRelated_same_store memoryId (Some limit) w1) as Hs2.
    destruct (MemoryQueries.getRelated memoryId (Some limit) w1) as [[similar_ | e] w2];
      cbn [snd] in *; eapply same_store_trans; eassumption.
  - exact Hs1.
Qed.

End GetRelated.

(** X26. The read tools change nothing: after a search_memory or a
    get_related call, whatever it returned, the memories, the relations and
    the access log are what they were. In particular search_memory, like
    recall_context, records no access. *)
Theorem read_tools_change_nothing :
  forall (E : Externals) (cfg : Config) (w : World)
         (search : search_memory.Params) (related : get_related.Params),
    same_store w (snd (search_memory.handler cfg search w))
    /\ same_store w (snd (get_related.handler related w)).
Proof.
  intros E cfg w search related.
  split; [apply search_memory_same_store | apply get_related_same_store].
Qed.



(** ** The store_memory tool *)

Section StoreMemory.

Context `{E : Externals}.
Variable cfg : Config.

(** A create that fails leaves the table as it was. *)
Lemma create_failed (a : MemoryQueries.CreateArgs) (w : World) (e : string) :
  fst (MemoryQueries.create cfg a w) = Err e ->
  memories (snd (MemoryQueries.create cfg a w)) = memories w.
Proof.
  unfold MemoryQueries.create. rewrite query_counted. unfold INSERT_INTO_memories.
  destruct (negb (List.length _ =? EMBEDDING_COLUMN_DIMENSION)%nat); [reflexivity |].
  destruct (negb (content_not_empty _)); [reflexivity |].
  destruct (negb (importance_check _)); [reflexivity |].
  destruct (existsb _ _); [reflexivity | discriminate].
Qed.

(** store_memory, step by step: the arguments it validates and the one
    create it ends with. *)
Lemma store_memory_outcome (params : store_memory.Params) (w : World) :
  (exists e w', store_memory.handler cfg params w = (Failure e, w') /\ same_store w w')
  \/ exists content_ tags_ importance_ a w1,
       Security.sanitizeContent (store_memory.p_content params) Security.MAX_CONTENT_SIZE
         = Ok content_
       /\ Security.validateTags (store_memory.p_tags params) = Ok tags_
       /\ Security.validateImportance (store_memory.p_importance params) = Ok importance_
       /\ MemoryQueries.c_content a = content_
       /\ MemoryQueries.c_tags a = Some tags_
       /\ MemoryQueries.c_importance a = Some importance_
       /\ List.length (MemoryQueries.c_embedding a) = embeddingDimension cfg
       /\ same_store w w1
       /\ store_memory.handler cfg params w
          = match MemoryQueries.create cfg a w1 with
            | (Ok m, w') => (Success m, w')
            | (Err e, w') => (Failure e, w')
            end.
Proof.
  remember (store_memory.handler cfg params w) as h eqn:Hh.
  unfold store_memory.handler, try_catch in Hh.
  unfold bind at 1 in Hh. unfold lift at 1 in Hh.
  destruct (Security.sanitizeContent _ _) as [content_ | e];
    [| left; subst h; eexists; eexists; split; [reflexivity | apply same_store_refl]].
  unfold bind at 1 in Hh. unfold lift at 1 in Hh.
  destruct (Security.validateTags _) as [tags_ | e];
    [| left; subst h; eexists; eexists; split; [reflexivity | apply same_store_refl]].
  unfold bind at 1 in Hh. unfold lift at 1 in Hh.
  destruct (Security.validateImportance _) as [importance_ | e];
    [| left; subst h; eexists; eexists; split; [reflexivity | apply same_store_refl]].
  unfold bind at 1 in Hh. unfold lift at 1 in Hh.
  destruct (validateMetadata _) as [metadata_ | e];
    [| left; subst h; eexists; eexists; split; [reflexivity | apply same_store_refl]].
  unfold bind at 1 in Hh.
  destruct ((if Js.truthy (store_memory.p_summary params)
             then lift (result_bind (Security.sanitizeContent (store_memory.p_summary params) 1024)
                          (fun s => Ok (Some s)))
             else ret None) w) as [[summary_ | e] w0] eqn:Hsum.
  2: { left. subst h. exists e, w0. split; [reflexivity |].
       destruct (Js.truthy _); unfold lift, ret in Hsum; injection Hsum as _ <-;
         apply same_store_refl. }
  assert (Hw0 : w0 = w).
  { destruct (Js.truthy _); unfold lift, ret in Hsum; congruence. }
  subst w0. unfold bind at 1 in Hh. unfold lift at 1 in Hh.
  destruct (result_bind (optional_trim _) _) as [source_ | e];
    [| left; subst h; eexists; eexists; split; [reflexivity | apply same_store_refl]].
  unfold bind at 1 in Hh.
  pose proof (generateEmbedding_same_store cfg (JString content_) w) as Hs1.
  pose proof (generateEmbedding_dimension cfg (JString content_) w) as Hdim.
  destruct (Generator.generateEmbedding cfg (JString content_) w) as [[embedding_ | e] w1];
    cbn [fst snd] in *.
  2: { left. subst h. exists e, w1. split; [reflexivity | exact Hs1]. }
  right. destruct (Hdim embedding_ eq_refl) as [Hlen _].
  match type of Hh with context [MemoryQueries.create cfg ?a0 w1] =>
    exists content_, tags_, importance_, a0, w1
  end.
  subst h. repeat split; try reflexivity; try apply Hs1. exact Hlen.
Qed.

End StoreMemory.

(** X28. store_memory either fails, and then the table of memories is as
    it was, or returns the one row it has appended: that row is what
    [getById] returns for its id; its content and tags are the ones the
    validators returned, its importance is the validated one and lies in
    [0, 1], its embedding has both the configured and the column's
    dimension, and it is not soft-deleted. *)
Theorem store_memory_outcome_cases :
  forall (E : Externals) (cfg : Config) (params : store_memory.Params) (w : World),
    let w' := snd (store_memory.handler cfg params w) in
    match fst (store_memory.handler cfg params w) with
    | Failure _ => memories w' = memories w
    | Success m =>
        memories w' = memories w ++ [m]
        /\ fst (MemoryQueries.getById (id m) w') = Ok (Some m)
        /\ Security.sanitizeContent (store_memory.p_content params) Security.MAX_CONTENT_SIZE
           = Ok (content m)
        /\ Security.validateTags (store_memory.p_tags params) = Ok (tags m)
        /\ Security.validateImportance (store_memory.p_importance params)
           = Ok (importance m)
        /\ 0 <= importance m <= 1
        /\ List.length (embedding m) = embeddingDimension cfg
        /\ List.length (embedding m) = EMBEDDING_COLUMN_DIMENSION
        /\ deleted_at m = None
    end.
Proof.
  intros E cfg params w.
  destruct (store_memory_outcome cfg params w)
    as [(e & w1 & -> & Hs) | (content_ & tags_ & importance_ & a & w1
                              & Hc & Ht & Hi & Hac & Hat & Hai & Hdim & Hs & ->)].
  { cbn. apply Hs. }
  destruct Hs as (Hmem & _).
  pose proof (create_persisted cfg a w1) as Hp.
  pose proof (create_failed cfg a w1) as Hf.
  pose proof (create_getById cfg a w1) as Hg.
  destruct (MemoryQueries.create cfg a w1) as [[m | e] w2]; cbn [fst snd] in *.
  - destruct (Hp m eq_refl)
      as (Hm & _ & _ & Hcontent & Hemb & Himp & Htags & Hdel & Hcol & _).
    rewrite Hac in Hcontent. rewrite Hat in Htags. rewrite Hai in Himp.
    cbn [nullish] in Htags, Himp.
    assert (Hrange : 0 <= importance_ <= 1).
    { revert Hi. unfold Security.validateImportance.
      destruct (store_memory.p_importance params) as [q |].
      - destruct (Qle_bool 0 q) eqn:H0; cbn; [| discriminate].
        destruct (Qle_bool q 1) eqn:H1; cbn; [| discriminate].
        intro H. injection H as <-. split; apply Qle_bool_iff; assumption.
      - intro H. injection H as <-. split; discriminate. }
    rewrite Hemb in Hcol.
    rewrite Hcontent, Htags, Himp, Hm, Hmem, Hemb.
    repeat split; try assumption; try (apply Hg; reflexivity); apply Hrange.
  - rewrite (Hf e eq_refl). exact Hmem.
Qed.

(** ** The constraints of the schema are kept *)

Section Constraints.

Lemma consistent_tables (w w' : World) :
  memories w' = memories w ->
  memory_relations w' = memory_relations w ->
  memory_access_log w' = memory_access_log w ->
  consistent w -> consistent w'.
Proof. unfold consistent. intros -> -> ->. tauto. Qed.

Lemma consistent_same_store (w w' : World) :
  same_store w w' -> consistent w -> consistent w'.
Proof. intros (H1 & H2 & H3 & _). apply consistent_tables; assumption. Qed.

Lemma preserves_same_store {A : Type} (m : M A) :
  (forall w, same_store w (snd (m w))) -> preserves m.
Proof. intros H w Hc. exact (consistent_same_store _ _ (H w) Hc). Qed.

Lemma preserves_ret {A : Type} (a : A) : preserves (ret a).
Proof. intros w Hc. exact Hc. Qed.

Lemma preserves_throw {A : Type} (e : string) : preserves (@throw A e).
Proof. intros w Hc. exact Hc. Qed.

Lemma preserves_lift {A : Type} (r : result A) : preserves (lift r).
Proof. intros w Hc. exact Hc. Qed.

Lemma preserves_bind {A B : Type} (m : M A) (f : A -> M B) :
  preserves m -> (forall a, preserves (f a)) -> preserves (bind m f).
Proof.
  intros Hm Hf w Hc. unfold bind. specialize (Hm w Hc).
  destruct (m w) as [[a | e] w1]; cbn [snd] in *; [apply Hf; exact Hm | exact Hm].
Qed.

Lemma preserves_query {A : Type} (statement : M A) :
  preserves statement -> preserves (query statement).
Proof.
  intros H w Hc. rewrite query_counted. apply H.
  revert Hc. apply consistent_tables; reflexivity.
Qed.

Lemma preserves_console_log (line : string) : preserves (console_log line).
Proof. intros w. apply consistent_tables; reflexivity. Qed.

Lemma preserves_fire_and_forget (prefix : string) (m : M unit) :
  preserves m -> preserves (fire_and_forget prefix m).
Proof.
  intros H w Hc. unfold fire_and_forget. specialize (H w Hc).
  destruct (m w) as [[u | e] w1]; cbn [snd] in *; [exact H |].
  apply preserves_console_log. exact H.
Qed.

Lemma Forall_filter_keep {A : Type} (P : A -> Prop) (p : A -> bool) (l : list A) :
  Forall P l -> Forall P (filter p l).
Proof.
  rewrite !Forall_forall. intros H x Hx. apply filter_In in Hx as [Hx _]. apply H, Hx.
Qed.

Lemma has_id_In (i : string) (l : list Memory) :
  existsb (has_id i) l = true <-> In i (map id l).
Proof.
  rewrite existsb_exists, in_map_iff. split; intros (m & H1 & H2).
  - exists m. split; [apply has_id_true; exact H2 | exact H1].
  - exists m. split; [exact H2 | apply has_id_true; exact H1].
Qed.

(** An UPDATE that leaves [id] and [content] alone keeps the constraints:
    the CHECK on [importance] is the store's own. *)
Lemma preserves_UPDATE_memories (where_ : Memory -> bool) (set : Memory -> Memory) :
  (forall m, id (set m) = id m) ->
  (forall m, content (set m) = content m) ->
  preserves (UPDATE_memories where_ set).
Proof.
  intros Hid Hcontent w Hc. unfold UPDATE_memories.
  destruct (forallb _ _) eqn:Hall; cbn [snd]; [| exact Hc].
  destruct Hc as (Hpk & Hmem & Hrel & Huniq & Hlog).
  set (g := fun m => if where_ m then set m else m).
  assert (Hids : map id (map g (memories w)) = map id (memories w)).
  { rewrite map_map. apply map_ext. intro m. unfold g. destruct (where_ m); [apply Hid | reflexivity]. }
  unfold consistent. cbn [memories set_memories memory_relations memory_access_log].
  fold g. rewrite Hids.
  repeat split; try assumption.
  apply Forall_forall. intros m' Hm'. apply in_map_iff in Hm' as (m & <- & Hm).
  rewrite Forall_forall in Hmem. specialize (Hmem m Hm). unfold g.
  destruct (where_ m) eqn:Hw; [| exact Hmem].
  rewrite Hcontent. split; [| apply Hmem].
  rewrite forallb_forall in Hall. apply Hall.
  apply in_map, filter_In. split; assumption.
Qed.

(** A DELETE keeps the constraints, thanks to the cascade. *)
Lemma preserves_DELETE_FROM_memories (where_ : Memory -> bool) :
  preserves (DELETE_FROM_memories where_).
Proof.
  intros w (Hpk & Hmem & Hrel & Huniq & Hlog). unfold DELETE_FROM_memories, consistent.
  cbn [snd memories memory_relations memory_access_log set_memories set_memory_relations
       set_memory_access_log].
  assert (Hkept : forall i,
            In i (map id (memories w)) ->
            existsb (has_id i) (filter where_ (memories w)) = false ->
            In i (map id (filter (fun m => negb (where_ m)) (memories w)))).
  { intros i Hin Hgone. apply in_map_iff in Hin as (m & Hi & Hm).
    apply in_map_iff. exists m. split; [exact Hi |].
    apply filter_In. split; [exact Hm |].
    destruct (where_ m) eqn:Hw; [| reflexivity].
    assert (existsb (has_id i) (filter where_ (memories w)) = true); [| congruence].
    apply existsb_exists. exists m. split; [| apply has_id_true; exact Hi].
    apply filter_In. split; assumption. }
  split; [apply distinct_keys_filter; exact Hpk |].
  split; [apply Forall_filter_keep; exact Hmem |].
  split; [| split; [apply distinct_keys_filter; exact Huniq |]].
  - apply Forall_forall. intros r Hr. apply filter_In in Hr as [Hr Hkeep].
    rewrite Forall_forall in Hrel. destruct (Hrel r Hr) as (H1 & H2 & H3 & H4).
    apply andb_true_iff in Hkeep as [Hs Ht]. apply negb_true_iff in Hs, Ht.
    repeat split; try assumption; apply Hkept; assumption.
  - apply Forall_forall. intros e He. apply filter_In in He as [He Hkeep].
    rewrite Forall_forall in Hlog. apply negb_true_iff in Hkeep.
    apply Hkept; [apply Hlog, He | exact Hkeep].
Qed.

Lemma In_map_id_app (i : string) (l : list Memory) (m : Memory) :
  In i (map id l) -> In i (map id (l ++ [m])).
Proof. intro H. rewrite map_app. apply in_or_app. left. exact H. Qed.

(** An INSERT into [memories] keeps the constraints. *)
Lemma preserves_INSERT_INTO_memories `{E : Externals} (content_ : string) (embedding_ : list Q)
    (summary_ : option string) (tags_ : list string) (importance_ : Q)
    (metadata_ : Metadata) (source_ : option string) :
  preserves (INSERT_INTO_memories content_ embedding_ summary_ tags_ importance_ metadata_
               source_).
Proof.
  intros w Hc. unfold INSERT_INTO_memories.
  destruct (negb (List.length embedding_ =? EMBEDDING_COLUMN_DIMENSION)%nat); [exact Hc |].
  destruct (content_not_empty content_) eqn:Hcontent; cbn [negb];
    [| revert Hc; apply consistent_tables; reflexivity].
  destruct (importance_check importance_) eqn:Himp; cbn [negb];
    [| revert Hc; apply consistent_tables; reflexivity].
  cbn [memories set_uuid_draws NOW].
  destruct (existsb _ (memories w)) eqn:Hpk';
    [revert Hc; apply consistent_tables; reflexivity |].
  destruct Hc as (Hpk & Hmem & Hrel & Huniq & Hlog). unfold consistent.
  cbn [snd memories memory_relations memory_access_log set_memories set_uuid_draws].
  split; [| split; [| split; [| split]]].
  - rewrite map_app. cbn [map id]. apply NoDup_app; [exact Hpk | repeat constructor; intros [] |].
    intros x Hx [<- | []].
    apply has_id_In in Hx. congruence.
  - apply Forall_app. split; [exact Hmem |]. repeat constructor; assumption.
  - eapply Forall_impl; [| exact Hrel]. cbv beta. intros r (H1 & H2 & H3 & H4).
    repeat split; try assumption; apply In_map_id_app; assumption.
  - exact Huniq.
  - eapply Forall_impl; [| exact Hlog]. cbv beta. intros e He. apply In_map_id_app, He.
Qed.

(** The trigger keeps the constraints. *)
Lemma update_memory_access_consistent (e : AccessEvent) (w : World) :
  consistent w -> consistent (update_memory_access e w).
Proof.
  intros (Hpk & Hmem & Hrel & Huniq & Hlog). unfold update_memory_access, consistent.
  cbn [memories set_memories memory_relations memory_access_log].
  match goal with |- context [map ?g0 (memories w)] => set (g := g0) end.
  assert (Hids : map id (map g (memories w)) = map id (memories w)).
  { rewrite map_map. apply map_ext. intro m. unfold g.
    destruct (has_id (memory_id e) m); reflexivity. }
  rewrite Hids. repeat split; try assumption.
  apply Forall_forall. intros m' Hm'. apply in_map_iff in Hm' as (m & <- & Hm).
  rewrite Forall_forall in Hmem. specialize (Hmem m Hm). unfold g.
  destruct (has_id (memory_id e) m); exact Hmem.
Qed.

Lemma preserves_updateAccess (i : string) (queryText : option string) (similarity_ : option Q) :
  preserves (MemoryQueries.updateAccess i queryText similarity_).
Proof.
  unfold MemoryQueries.updateAccess.
  apply preserves_bind; [| intro; apply preserves_ret].
  apply preserves_query. intros w Hc.
  destruct (existsb (has_id i) (memories w)) eqn:Hfk; cbn [snd]; [| exact Hc].
  apply update_memory_access_consistent.
  destruct Hc as (Hpk & Hmem & Hrel & Huniq & Hlog). unfold consistent.
  cbn [memories memory_relations memory_access_log set_memory_access_log].
  repeat split; try assumption.
  apply Forall_app. split; [exact Hlog |].
  repeat constructor. cbn [memory_id]. apply has_id_In. exact Hfk.
Qed.

Lemma preserves_batchUpdateAccess (ids : list string) (queryText : option string) :
  preserves (MemoryQueries.batchUpdateAccess ids queryText).
Proof.
  destruct ids as [| i ids]; [apply preserves_ret |].
  intros w Hc.
  destruct (batchUpdateAccess_refused (i :: ids) queryText w ltac:(discriminate))
    as (e & _ & Hs).
  exact (consistent_same_store _ _ Hs Hc).
Qed.

Lemma preserves_reinforce (i : string) (importanceDelta : option Q) :
  preserves (MemoryQueries.reinforce i importanceDelta).
Proof.
  unfold MemoryQueries.reinforce.
  apply preserves_bind; [| intro; apply preserves_ret].
  apply preserves_query. intros w. apply preserves_UPDATE_memories; reflexivity.
Qed.

Lemma preserves_decay (i : string) (decayFactor : option Q) :
  preserves (MemoryQueries.decay i decayFactor).
Proof.
  unfold MemoryQueries.decay.
  apply preserves_bind; [| intro; apply preserves_ret].
  apply preserves_query, preserves_UPDATE_memories; reflexivity.
Qed.

Lemma preserves_softDelete (i : string) : preserves (MemoryQueries.softDelete i).
Proof.
  unfold MemoryQueries.softDelete.
  apply preserves_bind; [| intro; apply preserves_ret].
  apply preserves_query. intros w. apply preserves_UPDATE_memories; reflexivity.
Qed.

Lemma preserves_hardDelete (i : string) : preserves (MemoryQueries.hardDelete i).
Proof.
  unfold MemoryQueries.hardDelete.
  apply preserves_bind; [| intro; apply preserves_ret].
  apply preserves_query, preserves_DELETE_FROM_memories.
Qed.

Lemma preserves_forgetByCriteria (a : MemoryQueries.ForgetArgs) :
  preserves (MemoryQueries.forgetByCriteria a).
Proof.
  unfold MemoryQueries.forgetByCriteria.
  destruct (MemoryQueries.f_soft a);
    (apply preserves_bind; [| intro; apply preserves_ret]);
    apply preserves_query; intros w.
  - apply preserves_UPDATE_memories; reflexivity.
  - apply preserves_DELETE_FROM_memories.
Qed.

Lemma preserves_getById (i : string) : preserves (MemoryQueries.getById i).
Proof. apply preserves_query. intros w Hc. exact Hc. Qed.

Lemma preserves_getByIds (ids : option (list string)) : preserves (MemoryQueries.getByIds ids).
Proof.
  unfold MemoryQueries.getByIds. destruct ids as [ids |]; [| apply preserves_ret].
  destruct (_ =? 0)%nat; [apply preserves_ret |].
  apply preserves_query. intros w Hc. exact Hc.
Qed.

Lemma preserves_create `{E : Externals} (cfg : Config) (a : MemoryQueries.CreateArgs) :
  preserves (MemoryQueries.create cfg a).
Proof. apply preserves_query, preserves_INSERT_INTO_memories. Qed.

Lemma preserves_relation_create (s t ty : string) (st : option Q) (md : option Metadata) :
  preserves (RelationQueries.create s t ty st md).
Proof.
  unfold RelationQueries.create. apply preserves_query. intros w Hc.
  destruct (String.eqb_spec s t) as [| Hne]; [exact Hc |].
  destruct (strength_check _) eqn:Hs; cbn [negb]; [| exact Hc].
  destruct (existsb (has_id s) (memories w)) eqn:H1; cbn [andb negb]; [| exact Hc].
  destruct (existsb (has_id t) (memories w)) eqn:H2; cbn [negb]; [| exact Hc].
  apply has_id_In in H1, H2.
  destruct Hc as (Hpk & Hmem & Hrel & Huniq & Hlog). unfold consistent.
  destruct (find _ (memory_relations w)) as [old |] eqn:Hfind;
    cbn [snd memories memory_relations memory_access_log set_memory_relations];
    (split; [exact Hpk |]); (split; [exact Hmem |]);
    (split; [| split; [| exact Hlog]]).
  - apply Forall_forall. intros r' Hr'. apply in_map_iff in Hr' as (r & <- & Hr).
    rewrite Forall_forall in Hrel.
    destruct (RelationQueries.same_triple s t ty r); [| apply Hrel, Hr].
    cbn. repeat split; assumption.
  - rewrite map_map.
    erewrite map_ext; [exact Huniq |].
    intro r. cbv beta.
    destruct (RelationQueries.same_triple s t ty r) eqn:Hsame; [| reflexivity].
    apply same_triple_true in Hsame as (<- & <- & <-). reflexivity.
  - apply Forall_app. split; [exact Hrel |]. repeat constructor; assumption.
  - rewrite map_app. cbn [map]. apply NoDup_app; [exact Huniq | repeat constructor; intros [] |].
    intros x Hx [<- | []].
    apply in_map_iff in Hx as (r & Hr & Hin).
    assert (RelationQueries.same_triple s t ty r = true).
    { apply same_triple_true. unfold unique_relation in Hr. cbn in Hr.
      injection Hr as -> -> ->. repeat split. }
    pose proof (find_none _ _ Hfind r Hin). congruence.
Qed.

Lemma preserves_relation_delete (s t ty : string) :
  preserves (RelationQueries.delete s t ty).
Proof.
  unfold RelationQueries.delete. apply preserves_query.
  intros w (Hpk & Hmem & Hrel & Huniq & Hlog). unfold consistent.
  cbn [snd memories memory_relations memory_access_log set_memory_relations].
  repeat split; try assumption;
    [apply Forall_filter_keep; exact Hrel | apply distinct_keys_filter; exact Huniq].
Qed.

Lemma preserves_try_catch {P : Type} (body : M P) (w : World) :
  preserves body -> consistent w -> consistent (snd (try_catch body w)).
Proof.
  intros H Hc. unfold try_catch. specialize (H w Hc).
  destruct (body w) as [[p | e] w']; exact H.
Qed.

Lemma preserves_forget (params : forget.Params) : preserves (forget.body params).
Proof.
  unfold forget.body.
  destruct (Js.truthy (forget.p_memoryId params)).
  - apply preserves_bind; [apply preserves_lift | intro memoryId].
    destruct (forget.soft_of _).
    + apply preserves_bind; [apply preserves_decay | intros [m |]; apply preserves_ret].
    + apply preserves_bind; [apply preserves_hardDelete | intro; apply preserves_ret].
  - destruct (negb _); [apply preserves_ret |].
    apply preserves_bind.
    + destruct (Js.truthy _); [apply preserves_lift | apply preserves_ret].
    + intro tagFilter. cbv zeta.
      apply preserves_bind; [apply preserves_forgetByCriteria | intro; apply preserves_ret].
Qed.

Lemma preserves_reinforce_handler (params : reinforce.Params) (w : World) :
  consistent w -> consistent (snd (reinforce.handler params w)).
Proof.
  unfold reinforce.handler. apply preserves_try_catch.
  apply preserves_bind; [apply preserves_lift | intro memoryId]. cbv zeta.
  apply preserves_bind; [apply preserves_reinforce | intros [m |]; [| apply preserves_throw]].
  destruct (Js.truthy _); [| apply preserves_ret].
  apply preserves_bind; [apply preserves_lift | intro targetId].
  apply preserves_bind; [apply preserves_getById | intros [target |]; [| apply preserves_ret]].
  apply preserves_bind; [apply preserves_relation_create | intro; apply preserves_ret].
Qed.

Lemma preserves_store_memory `{E : Externals} (cfg : Config) (params : store_memory.Params)
    (w : World) :
  consistent w -> consistent (snd (store_memory.handler cfg params w)).
Proof.
  unfold store_memory.handler. apply preserves_try_catch.
  repeat (apply preserves_bind; [apply preserves_lift | intro]).
  apply preserves_bind;
    [destruct (Js.truthy _); [apply preserves_lift | apply preserves_ret] | intro].
  apply preserves_bind; [apply preserves_lift | intro].
  apply preserves_bind;
    [apply preserves_same_store; apply generateEmbedding_same_store | intro].
  apply preserves_create.
Qed.

End Constraints.

(** X29. Every tool call keeps the constraints of the schema, whatever its
    name, its arguments and its outcome, and so does every query of
    db/queries.js that changes a table; an unknown tool name changes
    nothing. *)
Theorem schema_constraints_preserved :
  forall (E : Externals) (cfg : Config) (w : World),
    consistent w ->
    (forall name params, consistent (snd (executeTool cfg name params w)))
    /\ (forall name params,
          ~ In name toolNames -> snd (executeTool cfg name params w) = w)
    /\ (forall a, consistent (snd (MemoryQueries.create cfg a w)))
    /\ (forall i q s, consistent (snd (MemoryQueries.updateAccess i q s w)))
    /\ (forall ids q, consistent (snd (MemoryQueries.batchUpdateAccess ids q w)))
    /\ (forall i d, consistent (snd (MemoryQueries.reinforce i d w)))
    /\ (forall i f, consistent (snd (MemoryQueries.decay i f w)))
    /\ (forall i, consistent (snd (MemoryQueries.softDelete i w)))
    /\ (forall i, consistent (snd (MemoryQueries.hardDelete i w)))
    /\ (forall a, consistent (snd (MemoryQueries.forgetByCriteria a w)))
    /\ (forall s t ty st md, consistent (snd (RelationQueries.create s t ty st md w)))
    /\ (forall s t ty, consistent (snd (RelationQueries.delete s t ty w))).
Proof.
  intros E cfg w Hc.
  split; [| split].
  - intros name params. unfold executeTool.
    repeat match goal with
           | |- context [if String.eqb name ?s then _ else _] => destruct (String.eqb name s)
           end.
    + pose proof (preserves_store_memory cfg
                    {| store_memory.p_content := a_content params;
                       store_memory.p_summary := a_summary params;
                       store_memory.p_tags := a_tags params;
                       store_memory.p_importance := a_importance params;
                       store_memory.p_metadata := a_metadata params;
                       store_memory.p_source := a_source params |} w Hc) as H.
      destruct (store_memory.handler _ _ w); exact H.
    + match goal with |- context [search_memory.handler cfg ?p w] =>
        pose proof (consistent_same_store _ _ (search_memory_same_store cfg p w) Hc) as H;
        destruct (search_memory.handler cfg p w)
      end; exact H.
    + match goal with |- context [get_related.handler ?p w] =>
        pose proof (consistent_same_store _ _ (get_related_same_store p w) Hc) as H;
        destruct (get_related.handler p w)
      end; exact H.
    + match goal with |- context [recall_context.handler cfg ?p w] =>
        pose proof (consistent_same_store _ _ (recall_context_records_nothing cfg p w) Hc) as H;
        destruct (recall_context.handler cfg p w)
      end; exact H.
    + match goal with |- context [forget.handler ?p w] =>
        pose proof (preserves_forget p w Hc) as H;
        unfold forget.handler; destruct (forget.body p w) as [[r | e] w']
      end; exact H.
    + match goal with |- context [reinforce.handler ?p w] =>
        pose proof (preserves_reinforce_handler p w Hc) as H;
        destruct (reinforce.handler p w)
      end; exact H.
    + exact Hc.
  - intros name params Hname. unfold executeTool.
    repeat match goal with
           | |- context [if String.eqb name ?s then _ else _] =>
               destruct (String.eqb_spec name s) as [-> | _];
                 [exfalso; apply Hname; unfold toolNames; cbn; tauto |]
           end.
    reflexivity.
  - split; [intro a; apply preserves_create; exact Hc |].
    split; [intros i q s; apply preserves_updateAccess; exact Hc |].
    split; [intros ids q; apply preserves_batchUpdateAccess; exact Hc |].
    split; [intros i d; apply preserves_reinforce; exact Hc |].
    split; [intros i f; apply preserves_decay; exact Hc |].
    split; [intro i; apply preserves_softDelete; exact Hc |].
    split; [intro i; apply preserves_hardDelete; exact Hc |].
    split; [intro a; apply preserves_forgetByCriteria; exact Hc |].
    split; [intros s t ty st md; apply preserves_relation_create; exact Hc |].
    intros s t ty; apply preserves_relation_delete; exact Hc.
Qed.

Lemma schema_constraints_preserved_witness :
  consistent empty_world
  /\ consistent (snd (@executeTool example_externals default_config "store_memory"
                        (content_only "note") empty_world)).
Proof.
  assert (H : consistent empty_world).
  { unfold consistent, empty_world. cbn. repeat split; constructor. }
  split; [exact H |].
  exact (proj1 (schema_constraints_preserved example_externals default_config empty_world H)
           "store_memory"%string (content_only "note")).
Defined.
